(** * votewarmap: region resolution, vote ledger and regional aggregation

    A shallow embedding of the server side of the repository, followed by
    the vocabulary of its properties and by their proofs.

    The program:
    - [JS]: JavaScript strings and objects as the code uses them;
    - [Regions]: src/lib/server/regions.ts;
    - [Db]: the tables of the migrations;
    - [RegionStats]: the region-stats route handler and the SQL function
      [get_region_vote_stats];
    - [Ledger]: the vote submission handler and the constraints of [votes];
    - [Schools]: [ensureSchool] of src/lib/server/schools.ts;
    - [Merge]: the PL/pgSQL function [merge_guest_votes_to_user];
    - [ImportUniversities]: the parent reconciliation of
      src/scripts/import-universities.ts;
    - [BackfillVotes]: src/scripts/backfill-vote-regions.ts;
    - [ClientStats]: the optimistic update of
      src/components/TopicsMapPage.tsx;
    - [ImportCells]: [formatSchoolCode] of the import script;
    - [MergeRoute]: src/app/api/votes/merge-guest/route.ts.

    JavaScript strings are sequences of UTF-16 code units; they are modelled
    as [list N].  Every Korean name of the source is in the Basic
    Multilingual Plane, so one character is one code unit.  A table is the
    list of its rows.  The parent reconciliation reads its rows with a query
    without [order by] and depends on their order: there the answer of the
    query is an argument.  The database answers every statement: the only
    errors are those of its constraints. *)

From stdpp Require Import gmap list strings sorting.
From Stdlib Require Import NArith ZArith Lia.

Open Scope N_scope.

(** ** JavaScript strings *)

Module JS.
Definition jsstr := list N.

(** String literals of this file are written in UTF-8; [js] decodes them to
    the UTF-16 code units the JavaScript engine works on. *)
Fixpoint utf16_of_utf8 (bs : list N) : jsstr :=
  match bs with
  | [] => []
  | b0 :: r0 =>
    if b0 <? 0x80 then b0 :: utf16_of_utf8 r0
    else
      match r0 with
      | [] => []
      | b1 :: r1 =>
        if b0 <? 0xE0
        then N.lor (N.shiftl (N.land b0 0x1F) 6) (N.land b1 0x3F) :: utf16_of_utf8 r1
        else
          match r1 with
          | [] => []
          | b2 :: r2 =>
            if b0 <? 0xF0
            then N.lor (N.shiftl (N.land b0 0x0F) 12)
                   (N.lor (N.shiftl (N.land b1 0x3F) 6) (N.land b2 0x3F))
                 :: utf16_of_utf8 r2
            else
              match r2 with
              | [] => []
              | b3 :: r3 =>
                let cp := N.lor (N.shiftl (N.land b0 0x07) 18)
                            (N.lor (N.shiftl (N.land b1 0x3F) 12)
                               (N.lor (N.shiftl (N.land b2 0x3F) 6) (N.land b3 0x3F))) in
                let v := cp - 0x10000 in
                (0xD800 + N.shiftr v 10) :: (0xDC00 + N.land v 0x3FF) :: utf16_of_utf8 r3
              end
          end
      end
  end.

Definition js (s : string) : jsstr :=
  utf16_of_utf8 ((fun a => Ascii.N_of_ascii a) <$> String.list_ascii_of_string s).

(** [\s] of a regular expression and the characters removed by
    [String.prototype.trim]: WhiteSpace and LineTerminator. *)
Definition isSpace (c : N) : bool :=
  ((0x09 <=? c) && (c <=? 0x0D)) || (c =? 0x20) || (c =? 0xA0) || (c =? 0x1680)
  || ((0x2000 <=? c) && (c <=? 0x200A)) || (c =? 0x2028) || (c =? 0x2029)
  || (c =? 0x202F) || (c =? 0x205F) || (c =? 0x3000) || (c =? 0xFEFF).

(** [.] of a regular expression without the [s] flag matches everything
    but a line terminator. *)
Definition isLineTerminator (c : N) : bool :=
  (c =? 0x0A) || (c =? 0x0D) || (c =? 0x2028) || (c =? 0x2029).

Fixpoint trimStart (s : jsstr) : jsstr :=
  match s with
  | c :: r => if isSpace c then trimStart r else s
  | [] => []
  end.

Definition trim (s : jsstr) : jsstr := reverse (trimStart (reverse (trimStart s))).

(** Truthiness of a string: only the empty string is falsy. *)
Definition truthy (s : jsstr) : bool :=
  match s with [] => false | _ => true end.

(** Truthiness of [string | null | undefined]. *)
Definition truthyOpt (o : option jsstr) : bool :=
  match o with Some s => truthy s | None => false end.

Definition eqb (a b : jsstr) : bool := bool_decide (a = b).

Fixpoint startsWith (s p : jsstr) : bool :=
  match p, s with
  | [], _ => true
  | _ :: _, [] => false
  | a :: p', b :: s' => (a =? b) && startsWith s' p'
  end.

Definition endsWith (s p : jsstr) : bool := startsWith (reverse s) (reverse p).

(** [haystack.includes(needle)] *)
Fixpoint includes (s p : jsstr) : bool :=
  startsWith s p || match s with [] => false | _ :: r => includes r p end.

(** The own property names every object inherits from [Object.prototype].
    Indexing an object literal with one of them yields the inherited member
    (a function, or the prototype itself), not [undefined]. *)
Definition inheritedKeys : list jsstr :=
  [ js "constructor"; js "hasOwnProperty"; js "isPrototypeOf";
    js "propertyIsEnumerable"; js "toLocaleString"; js "toString";
    js "valueOf"; js "__proto__"; js "__defineGetter__";
    js "__defineSetter__"; js "__lookupGetter__"; js "__lookupSetter__" ].

Definition isInherited (k : jsstr) : bool := bool_decide (k ∈ inheritedKeys).

(** Own-property lookup in an object literal given by its entries. *)
Fixpoint ownLookup {V} (obj : list (jsstr * V)) (k : jsstr) : option V :=
  match obj with
  | [] => None
  | (k', v) :: r => if eqb k' k then Some v else ownLookup r k
  end.

(** [a ?? b] on a value that may be [null]. *)
Definition orElse {T} (a b : option T) : option T :=
  match a with Some x => Some x | None => b end.

(** The outcome of a call that may throw. *)
Inductive completion (A : Type) : Type :=
  | Normal (a : A)
  | Throw.
Arguments Normal {A} a.
Arguments Throw {A}.
End JS.

Import JS.

(** ** src/lib/server/regions.ts *)

Module Regions.
(** [type MunicipalityFeature]: both properties are optional. *)
Record MunicipalityFeature := {
  f_code : option jsstr;
  f_name : option jsstr
}.

(** [parsed.features ?? []] is a list of features. *)
Definition MunicipalityCollection := list MunicipalityFeature.

(** The element type of [municipalitiesCache]. *)
Record Municipality := {
  code : jsstr;
  name : jsstr;
  norm : jsstr
}.

Definition SIDO_CODE_MAP : list (jsstr * jsstr) :=
  [ (js "서울", js "11"); (js "서울특별시", js "11");
    (js "부산", js "21"); (js "부산광역시", js "21");
    (js "대구", js "22"); (js "대구광역시", js "22");
    (js "인천", js "23"); (js "인천광역시", js "23");
    (js "광주", js "24"); (js "광주광역시", js "24");
    (js "대전", js "25"); (js "대전광역시", js "25");
    (js "울산", js "26"); (js "울산광역시", js "26");
    (js "세종", js "29"); (js "세종특별자치시", js "29");
    (js "경기", js "31"); (js "경기도", js "31");
    (js "강원", js "32"); (js "강원도", js "32"); (js "강원특별자치도", js "32");
    (js "충북", js "33"); (js "충청북도", js "33");
    (js "충남", js "34"); (js "충청남도", js "34");
    (js "전북", js "35"); (js "전라북도", js "35"); (js "전북특별자치도", js "35");
    (js "전남", js "36"); (js "전라남도", js "36");
    (js "경북", js "37"); (js "경상북도", js "37");
    (js "경남", js "38"); (js "경상남도", js "38");
    (js "제주", js "39"); (js "제주도", js "39"); (js "제주특별자치도", js "39") ].

Definition SIGUNGU_ALIAS_MAP : list (jsstr * list jsstr) :=
  [ (js "미추홀구", [js "남구"]);
    (js "인천미추홀구", [js "남구"; js "인천남구"]);
    (js "인천남구", [js "남구"; js "미추홀구"]) ].

(** [value.replace(/\(.*?\)/g, '')].  At an opening parenthesis the lazy
    [.*?] extends to the first closing parenthesis, provided no line
    terminator comes before it; [closeIndex r] is the number of characters
    of [r] before that closing parenthesis. *)
Fixpoint closeIndex (r : jsstr) : option nat :=
  match r with
  | [] => None
  | c :: r' =>
    if c =? 0x29 then Some 0%nat
    else if isLineTerminator c then None
    else S <$> closeIndex r'
  end.

Fixpoint stripParensFrom (skip : nat) (s : jsstr) : jsstr :=
  match s with
  | [] => []
  | c :: r =>
    match skip with
    | S k => stripParensFrom k r
    | O =>
      if c =? 0x28 then
        match closeIndex r with
        | Some k => stripParensFrom (S k) r
        | None => c :: stripParensFrom O r
        end
      else c :: stripParensFrom O r
    end
  end.

Definition stripParens (s : jsstr) : jsstr := stripParensFrom O s.

(** [value.replace(/\s+/g, '')] *)
Definition removeSpaces (s : jsstr) : jsstr := filter (fun c => isSpace c = false) s.

Definition normalizeKorean (value : jsstr) : jsstr :=
  trim (removeSpaces (stripParens value)).

(** [SIGUNGU_ALIAS_MAP[norm] ?? []] followed by [aliases.map(...)]: for a
    name inherited from [Object.prototype] the value is not an array and the
    call of its missing [map] member throws a [TypeError]. *)
Definition expandSigunguAliases (candidate : jsstr) : completion (list jsstr) :=
  let norm := normalizeKorean candidate in
  match ownLookup SIGUNGU_ALIAS_MAP norm with
  | Some aliases => Normal (norm :: (normalizeKorean <$> aliases))
  | None => if isInherited norm then Throw else Normal [norm]
  end.

(** [readMunicipalities]: the cache is returned when it is set (an empty
    array is truthy); otherwise the parsed file is mapped, filtered and
    stored. *)
Definition loadMunicipalities (parsed : MunicipalityCollection) : list Municipality :=
  filter (fun item => truthy (code item) && truthy (name item) = true)
    ((fun feature =>
        let c := default [] (f_code feature) in
        let n := default [] (f_name feature) in
        {| code := c; name := n; norm := normalizeKorean n |}) <$> parsed).

Definition readMunicipalities (municipalitiesCache : option (list Municipality))
    (parsed : MunicipalityCollection) : list Municipality * option (list Municipality) :=
  match municipalitiesCache with
  | Some cached => (cached, Some cached)
  | None => let l := loadMunicipalities parsed in (l, Some l)
  end.

(** The value of [SIDO_CODE_MAP[key] ?? null]: a code, [null], or a member
    inherited from [Object.prototype]. *)
Inductive sidoLookup : Type :=
  | SidoCode (c : jsstr)
  | SidoNull
  | SidoInherited (k : jsstr).

Definition resolveSidoCode (sidoName : option jsstr) : sidoLookup :=
  match sidoName with
  | None => SidoNull
  | Some n =>
    if truthy n then
      let key := normalizeKorean n in
      match ownLookup SIDO_CODE_MAP key with
      | Some c => SidoCode c
      | None => if isInherited key then SidoInherited key else SidoNull
      end
    else SidoNull
  end.

(** [address.split(/\s+/)]: the pieces between maximal runs of white space,
    an empty piece before a leading run and after a trailing one. *)
Fixpoint splitSpacesFrom (acc : jsstr) (inRun : bool) (s : jsstr) : list jsstr :=
  match s with
  | [] => [reverse acc]
  | c :: r =>
    if isSpace c then
      if inRun then splitSpacesFrom acc true r
      else reverse acc :: splitSpacesFrom [] true r
    else splitSpacesFrom (c :: acc) false r
  end.

Definition splitSpaces (s : jsstr) : list jsstr := splitSpacesFrom [] false s.

(** [candidates.add(x)] on a [Set] kept in insertion order. *)
Definition setAdd (x : jsstr) (s : list jsstr) : list jsstr :=
  if bool_decide (x ∈ s) then s else s ++ [x].

Definition GU : jsstr := js "구".
Definition GUN : jsstr := js "군".
Definition SI : jsstr := js "시".

(** [address.split(/\s+/).map((token) => token.trim()).filter(Boolean)] *)
Definition addressTokens (address : jsstr) : list jsstr :=
  filter (fun token => truthy token = true) (trim <$> splitSpaces address).

(** The part of [extractSigunguCandidates] after the tokens are known. *)
Definition candidatesOfTokens (tokens : list jsstr) : list jsstr :=
  if (length tokens <? 2)%nat then []
  else
    let second := default [] (tokens !! 1%nat) in
    let third := default [] (tokens !! 2%nat) in
    let c1 := if truthy second then setAdd second [] else [] in
    let c2 := if truthy second && truthy third && endsWith third GU
              then setAdd (second ++ third) c1 else c1 in
    let c3 := if truthy second && truthy third
                 && (endsWith second GUN || endsWith second SI) && endsWith third GU
              then setAdd (second ++ third) c2 else c2 in
    c3.

Definition extractSigunguCandidates (address : option jsstr) : list jsstr :=
  match address with
  | Some a => if truthy a then candidatesOfTokens (addressTokens a) else []
  | None => []
  end.

Record ResolveArgs := {
  sidoCode : option jsstr;
  sigunguName : option jsstr;
  address : option jsstr
}.

Record Resolved := {
  sigunguCode : option jsstr;
  r_sigunguName : option jsstr
}.

Definition found (m : Municipality) : Resolved :=
  {| sigunguCode := Some (code m); r_sigunguName := Some (name m) |}.

(** The inner [for (const expanded of expandedCandidates)] loop: [Some r]
    when it returns from the function. *)
Fixpoint tryExpanded (pool : list Municipality) (expandedCandidates : list jsstr)
    : option Resolved :=
  match expandedCandidates with
  | [] => None
  | expanded :: rest =>
    match List.find (fun item => eqb (norm item) expanded) pool with
    | Some exact => Some (found exact)
    | None =>
      match List.find (fun item => endsWith (norm item) expanded
                                   || endsWith expanded (norm item)) pool with
      | Some suffixMatch => Some (found suffixMatch)
      | None => tryExpanded pool rest
      end
    end
  end.

(** The outer [for (const candidate of candidates)] loop; [fallback] is the
    value returned after the loop. *)
Fixpoint tryCandidates (pool : list Municipality) (fallback : Resolved)
    (candidates : list jsstr) : completion Resolved :=
  match candidates with
  | [] => Normal fallback
  | candidate :: rest =>
    match expandSigunguAliases candidate with
    | Throw => Throw
    | Normal expandedCandidates =>
      match tryExpanded pool expandedCandidates with
      | Some r => Normal r
      | None => tryCandidates pool fallback rest
      end
    end
  end.

Definition poolOf (all : list Municipality) (sidoCode : option jsstr) : list Municipality :=
  filter (fun item => negb (truthyOpt sidoCode)
                      || startsWith (code item) (default [] sidoCode) = true) all.

Definition candidatesOf (args : ResolveArgs) : list jsstr :=
  filter (fun c => truthy c = true)
    (normalizeKorean <$>
       ((if truthyOpt (sigunguName args) then [default [] (sigunguName args)] else [])
        ++ extractSigunguCandidates (address args))).

Definition resolveSigunguCode (municipalitiesCache : option (list Municipality))
    (parsed : MunicipalityCollection) (args : ResolveArgs)
    : completion Resolved * option (list Municipality) :=
  let (all, cache') := readMunicipalities municipalitiesCache parsed in
  let pool := poolOf all (sidoCode args) in
  let candidates := candidatesOf args in
  match candidates with
  | [] => (Normal {| sigunguCode := None; r_sigunguName := sigunguName args |}, cache')
  | first :: _ =>
    (tryCandidates pool
       {| sigunguCode := None;
          r_sigunguName := match sigunguName args with
                           | Some n => Some n
                           | None => Some first
                           end |}
       candidates,
     cache')
  end.
End Regions.

(** ** The tables of supabase/migrations/20260218_create_vote_domain.sql *)

Module Db.
Definition uuid := jsstr.

Inductive SchoolSource := nais | local_xls.
Inductive SchoolLevel := middle | high | university | graduate.
Inductive Gender := male | female | other | prefer_not_to_say.

#[export] Instance SchoolSource_eq_dec : EqDecision SchoolSource.
Proof. solve_decision. Defined.
#[export] Instance SchoolLevel_eq_dec : EqDecision SchoolLevel.
Proof. solve_decision. Defined.
#[export] Instance Gender_eq_dec : EqDecision Gender.
Proof. solve_decision. Defined.

(** [public.schools] *)
Record SchoolRow := {
  s_id : uuid;
  s_source : SchoolSource;
  s_school_code : jsstr;
  s_school_name : jsstr;
  s_school_level : SchoolLevel;
  s_campus_type : option jsstr;
  s_parent_school_id : option uuid;
  s_sido_name : option jsstr;
  s_sido_code : option jsstr;
  s_sigungu_name : option jsstr;
  s_sigungu_code : option jsstr;
  s_address : option jsstr;
  s_is_active : bool
}.

(** [public.vote_options]; [position] is checked to be 1 or 2. *)
Record VoteOptionRow := {
  o_topic_id : jsstr;
  o_option_key : jsstr;
  o_position : N
}.

(** [public.votes] *)
Record VoteRow := {
  v_id : uuid;
  v_topic_id : jsstr;
  v_option_key : jsstr;
  v_user_id : option uuid;
  v_guest_token : option jsstr;
  v_school_id : uuid;
  v_aggregate_school_id : uuid;
  v_birth_year : Z;
  v_gender : Gender;
  v_sido_code : option jsstr;
  v_sigungu_code : option jsstr;
  v_merged_from_guest : bool;
  v_created_at : N
}.

(** The columns of [public.users] the vote handler reads and writes. *)
Record UserRow := {
  u_id : uuid;
  u_birth_year : option Z;
  u_gender : option Gender;
  u_school_id : option uuid;
  u_sido_code : option jsstr;
  u_sigungu_code : option jsstr
}.

#[export] Instance SchoolRow_eq_dec : EqDecision SchoolRow.
Proof. solve_decision. Defined.
#[export] Instance VoteOptionRow_eq_dec : EqDecision VoteOptionRow.
Proof. solve_decision. Defined.
#[export] Instance VoteRow_eq_dec : EqDecision VoteRow.
Proof. solve_decision. Defined.
#[export] Instance UserRow_eq_dec : EqDecision UserRow.
Proof. solve_decision. Defined.

Record Database := {
  schools : list SchoolRow;
  users : list UserRow;
  vote_options : list VoteOptionRow;
  votes : list VoteRow
}.
End Db.

Import Db.

(** ** Region statistics: the route handler and [get_region_vote_stats] *)

Module RegionStats.
Inductive RegionLevel := sido | sigungu.
Inductive RegionWinner := A | B | TIE.

#[export] Instance RegionWinner_eq_dec : EqDecision RegionWinner.
Proof. solve_decision. Defined.

(** [RegionVoteStat]; both paths set every field. *)
Record RegionVoteStat := {
  winner : RegionWinner;
  total : N;
  countA : N;
  countB : N
}.

#[export] Instance RegionVoteStat_eq_dec : EqDecision RegionVoteStat.
Proof. solve_decision. Defined.

(** [RegionVoteMap = Record<string, RegionVoteStat>], held in an object
    literal.  The JSON response carries the own properties of the object. *)
Abbreviation RegionVoteMap := (gmap jsstr RegionVoteStat).

Definition PROTO : jsstr := js "__proto__".

(** [statsByCode[regionCode] = value]: the assignment creates or replaces an
    own property, except for the key [__proto__], where it invokes the
    setter inherited from [Object.prototype] and no own property appears. *)
Definition assign (statsByCode : RegionVoteMap) (regionCode : jsstr)
    (value : RegionVoteStat) : RegionVoteMap :=
  if eqb regionCode PROTO then statsByCode else <[regionCode := value]> statsByCode.

(** The embedded [school] relation of a fetched vote row. *)
Record SchoolCodes := {
  sc_sido_code : option jsstr;
  sc_sigungu_code : option jsstr
}.

Inductive SchoolRel :=
  | SchoolNull
  | SchoolObject (s : SchoolCodes)
  | SchoolArray (l : list SchoolCodes).

(** [type VoteRow] of the route. *)
Record FetchedVote := {
  option_key : jsstr;
  sido_code : option jsstr;
  sigungu_code : option jsstr;
  school : SchoolRel
}.

Record Summary := {
  totalVotes : N;
  sumA : N;
  sumB : N
}.

Definition normalizeCode (value : option jsstr) : option jsstr :=
  match value with
  | None => None
  | Some v =>
    if truthy v then
      let trimmed := trim v in
      if (0 <? length trimmed)%nat then Some trimmed else None
    else None
  end.

Definition resolveSchoolCode (school : SchoolRel) : option SchoolCodes :=
  match school with
  | SchoolNull => None
  | SchoolArray l => head l
  | SchoolObject s => Some s
  end.

(** [regionCodeRaw] of [buildStatsFromVoteRows]. *)
Definition regionCodeRaw (level : RegionLevel) (row : FetchedVote) : option jsstr :=
  let linkedSchool := resolveSchoolCode (school row) in
  match level with
  | sigungu => orElse (sigungu_code row) (orElse (linkedSchool ≫= sc_sigungu_code) None)
  | sido => orElse (sido_code row) (orElse (linkedSchool ≫= sc_sido_code) None)
  end.

Definition winnerOf (a b : N) : RegionWinner :=
  if b <? a then A else if a <? b then B else TIE.

Definition indicator (b : bool) : N := if b then 1 else 0.

Record BuildState := {
  statsByCode : RegionVoteMap;
  totalA : N;
  totalB : N
}.

(** The body of [rows.forEach((row) => ...)]. *)
Definition buildStep (level : RegionLevel) (optionA optionB : jsstr)
    (st : BuildState) (row : FetchedVote) : BuildState :=
  match normalizeCode (regionCodeRaw level row) with
  | None => st
  | Some regionCode =>
    let current := default {| total := 0; countA := 0; countB := 0; winner := TIE |}
                     (statsByCode st !! regionCode) in
    let nextCountA := countA current + indicator (eqb (option_key row) optionA) in
    let nextCountB := countB current + indicator (eqb (option_key row) optionB) in
    let nextTotal := total current + 1 in
    let stats' := assign (statsByCode st) regionCode
                    {| countA := nextCountA; countB := nextCountB; total := nextTotal;
                       winner := winnerOf nextCountA nextCountB |} in
    if eqb (option_key row) optionA
    then {| statsByCode := stats'; totalA := totalA st + 1; totalB := totalB st |}
    else if eqb (option_key row) optionB
    then {| statsByCode := stats'; totalA := totalA st; totalB := totalB st + 1 |}
    else {| statsByCode := stats'; totalA := totalA st; totalB := totalB st |}
  end.

Definition buildStatsFromVoteRows (rows : list FetchedVote) (level : RegionLevel)
    (optionA optionB : jsstr) : RegionVoteMap * Summary :=
  let st := foldl (buildStep level optionA optionB)
              {| statsByCode := ∅; totalA := 0; totalB := 0 |} rows in
  (statsByCode st,
   {| totalVotes := totalA st + totalB st; sumA := totalA st; sumB := totalB st |}).

(** *** [fetchAllVotesByTopic] *)

Definition pageSize : nat := 1000.

(** [.order('created_at', { ascending: true })]: insertion sort, stable on
    the stored order. *)
Fixpoint insertByCreatedAt (v : VoteRow) (l : list VoteRow) : list VoteRow :=
  match l with
  | [] => [v]
  | w :: r => if v_created_at v <? v_created_at w then v :: l
              else w :: insertByCreatedAt v r
  end.

Definition orderByCreatedAt (l : list VoteRow) : list VoteRow :=
  foldr insertByCreatedAt [] l.

(** The embedded resource [school:schools!votes_school_id_fkey(...)]. *)
Definition embedSchool (db : Database) (v : VoteRow) : SchoolRel :=
  match List.find (fun s => eqb (s_id s) (v_school_id v)) (schools db) with
  | Some s => SchoolObject {| sc_sido_code := s_sido_code s;
                              sc_sigungu_code := s_sigungu_code s |}
  | None => SchoolNull
  end.

Definition selectVotes (db : Database) (topicId : jsstr) : list FetchedVote :=
  (fun v => {| option_key := v_option_key v; sido_code := v_sido_code v;
               sigungu_code := v_sigungu_code v; school := embedSchool db v |})
  <$> orderByCreatedAt (filter (fun v => v_topic_id v = topicId) (votes db)).

(** [.range(offset, offset + pageSize - 1)] *)
Definition range {T} (q : list T) (offset : nat) : list T := take pageSize (drop offset q).

(** The [while (true)] loop; [None] when the fuel runs out. *)
Fixpoint fetchLoop (fuel : nat) (q : list FetchedVote) (offset : nat)
    (collected : list FetchedVote) : option (list FetchedVote) :=
  match fuel with
  | O => None
  | S fuel' =>
    let rows := range q offset in
    let collected' := collected ++ rows in
    if (length rows <? pageSize)%nat then Some collected'
    else fetchLoop fuel' q (offset + pageSize)%nat collected'
  end.

Definition fetchAllVotesByTopic (db : Database) (topicId : jsstr) : option (list FetchedVote) :=
  let q := selectVotes db topicId in
  fetchLoop (S (length q)) q 0%nat [].

(** *** [get_region_vote_stats] *)

Record RegionStatsRpcRow := {
  region : option jsstr;
  rpc_total : N;
  count_a : N;
  count_b : N;
  rpc_winner : jsstr
}.

(** [nullif(code, '')] *)
Definition nullif (code : option jsstr) : option jsstr :=
  match code with
  | Some [] => None
  | _ => code
  end.

(** The CTE [scoped]: each vote of the topic joined with its option. *)
Definition scoped (db : Database) (p_topic_id : jsstr) (p_level : RegionLevel)
    : list (option jsstr * N) :=
  v ← filter (fun v => v_topic_id v = p_topic_id) (votes db);
  o ← filter (fun o => o_topic_id o = v_topic_id v ∧ o_option_key o = v_option_key v)
        (vote_options db);
  [ (match p_level with
     | sigungu => nullif (v_sigungu_code v)
     | sido => nullif (v_sido_code v)
     end, o_position o) ].

Definition countWhere {T} (P : T → Prop) `{∀ x, Decision (P x)} (l : list T) : N :=
  N.of_nat (length (filter P l)).

(** The CTE [agg] and the final [select]: one row per non-null region, in
    the order of first appearance. *)
Definition get_region_vote_stats (db : Database) (p_topic_id : jsstr)
    (p_level : RegionLevel) : list RegionStatsRpcRow :=
  let sc := scoped db p_topic_id p_level in
  (fun r =>
     let grp := filter (fun x => x.1 = Some r) sc in
     let ca := countWhere (fun x => x.2 = 1) grp in
     let cb := countWhere (fun x => x.2 = 2) grp in
     {| region := Some r;
        rpc_total := N.of_nat (length grp);
        count_a := ca;
        count_b := cb;
        rpc_winner := if cb <? ca then js "A" else if ca <? cb then js "B" else js "TIE" |})
  <$> remove_dups (omap fst sc).

(** *** The [GET] handler *)

(** [normalizeInt]: the [bigint] columns of the function arrive as finite
    JSON numbers, which it returns as they are. *)
Definition normalizeInt (value : N) : N := value.

Definition parseWinner (w : jsstr) : RegionWinner :=
  if eqb w (js "A") then A else if eqb w (js "B") then B else TIE.

(** The body of [(rpcRows as RegionStatsRpcRow[]).forEach((row) => ...)]. *)
Definition rpcStep (st : BuildState) (row : RegionStatsRpcRow) : BuildState :=
  let regionCode := trim (default [] (region row)) in
  if truthy regionCode then
    let countA := normalizeInt (count_a row) in
    let countB := normalizeInt (count_b row) in
    let total := normalizeInt (rpc_total row) in
    {| statsByCode := assign (statsByCode st) regionCode
                        {| countA := countA; countB := countB; total := total;
                           winner := parseWinner (rpc_winner row) |};
       totalA := totalA st + countA;
       totalB := totalB st + countB |}
  else st.

Definition statsFromRpc (rpcRows : list RegionStatsRpcRow) : RegionVoteMap * Summary :=
  let st := foldl rpcStep {| statsByCode := ∅; totalA := 0; totalB := 0 |} rpcRows in
  (statsByCode st,
   {| totalVotes := totalA st + totalB st; sumA := totalA st; sumB := totalB st |}).

Inductive Response :=
  | Ok200 (statsByCode : RegionVoteMap) (summary : Summary)
  | Error400
  | Error500.

(** The fast path: the handler's reading of the rows of the SQL function. *)
Definition fastPath (db : Database) (topicId : jsstr) (level : RegionLevel)
    : RegionVoteMap * Summary :=
  statsFromRpc (get_region_vote_stats db topicId level).

Definition optionAt (db : Database) (topicId : jsstr) (position : N) : option jsstr :=
  o_option_key <$>
    List.find (fun o => o_position o =? position)
      (filter (fun o => o_topic_id o = topicId) (vote_options db)).

(** The slow path: the handler after the fast path came back empty. *)
Definition slowPath (db : Database) (topicId : jsstr) (level : RegionLevel) : Response :=
  match optionAt db topicId 1, optionAt db topicId 2 with
  | Some optionA, Some optionB =>
    if truthy optionA && truthy optionB then
      match fetchAllVotesByTopic db topicId with
      | Some rows =>
        let (stats, summary) := buildStatsFromVoteRows rows level optionA optionB in
        Ok200 stats summary
      | None => Error500
      end
    else Error400
  | _, _ => Error400
  end.

Definition GET (db : Database) (topicId : jsstr) (level : RegionLevel) : Response :=
  let (stats, summary) := fastPath db topicId level in
  if (0 <? size stats)%nat then Ok200 stats summary
  else slowPath db topicId level.
End RegionStats.

(** ** The vote submission handler ([POST] of the votes route) *)

Module Ledger.
(** PostgreSQL error classes the handler can meet on its insert. *)
Inductive SqlState :=
  | check_violation          (* 23514 *)
  | unique_violation         (* 23505 *)
  | foreign_key_violation.   (* 23503 *)

(** [votes_identity_check] *)
Definition votes_identity_check (v : VoteRow) : bool :=
  match v_user_id v, v_guest_token v with
  | Some _, None => true
  | None, Some _ => true
  | _, _ => false
  end.

Definition birth_year_check (v : VoteRow) : bool :=
  ((1900 <=? v_birth_year v) && (v_birth_year v <=? 2100))%Z.

(** The primary key and the two partial unique indexes
    [votes_topic_user_uidx] and [votes_topic_guest_uidx]: does the row [v]
    collide with the stored row [w]? *)
Definition collides (v w : VoteRow) : bool :=
  eqb (v_id v) (v_id w)
  || (eqb (v_topic_id v) (v_topic_id w)
      && match v_user_id v, v_user_id w with
         | Some a, Some b => eqb a b
         | _, _ => false
         end)
  || (eqb (v_topic_id v) (v_topic_id w)
      && match v_guest_token v, v_guest_token w with
         | Some a, Some b => eqb a b
         | _, _ => false
         end).

(** [votes_topic_option_fk] and the two references to [schools]. *)
Definition references_ok (db : Database) (v : VoteRow) : bool :=
  existsb (fun o => eqb (o_topic_id o) (v_topic_id v)
                    && eqb (o_option_key o) (v_option_key v)) (vote_options db)
  && existsb (fun s => eqb (s_id s) (v_school_id v)) (schools db)
  && existsb (fun s => eqb (s_id s) (v_aggregate_school_id v)) (schools db).

Definition withVotes (db : Database) (l : list VoteRow) : Database :=
  {| schools := schools db; users := users db;
     vote_options := vote_options db; votes := l |}.

(** [insert into public.votes]: check constraints, then the unique indexes,
    then the foreign keys. *)
Definition insertVote (db : Database) (v : VoteRow) : SqlState + Database :=
  if negb (votes_identity_check v && birth_year_check v) then inl check_violation
  else if existsb (collides v) (votes db) then inl unique_violation
  else if negb (references_ok db v) then inl foreign_key_violation
  else inr (withVotes db (votes db ++ [v])).

(** The result of [.maybeSingle()]: no row, one row, or the error the
    client reports when the filter matches several rows. *)
Inductive Single (T : Type) :=
  | NoRow
  | OneRow (row : T)
  | SeveralRows.
Arguments NoRow {T}.
Arguments OneRow {T} row.
Arguments SeveralRows {T}.

Definition maybeSingle {T} (rows : list T) : Single T :=
  match rows with
  | [] => NoRow
  | [row] => OneRow row
  | _ => SeveralRows
  end.

(** What [resolveUserFromAuthorizationHeader] resolved. *)
Record AuthUser := {
  au_id : uuid;
  au_email : option jsstr
}.

(** [SchoolSearchItem] *)
Record SchoolSearchItem := {
  i_id : option uuid;
  i_source : SchoolSource;
  i_schoolCode : jsstr;
  i_schoolName : jsstr;
  i_schoolLevel : SchoolLevel;
  i_campusType : option jsstr;
  i_parentSchoolId : option uuid;
  i_sidoName : option jsstr;
  i_sidoCode : option jsstr;
  i_sigunguName : option jsstr;
  i_sigunguCode : option jsstr;
  i_address : option jsstr;
  i_isActive : bool
}.

Record Profile := {
  birthYear : Z;
  gender : Gender;
  p_school : SchoolSearchItem
}.

Record VoteBody := {
  topicId : jsstr;
  optionKey : jsstr;
  guestToken : option jsstr;
  profile : option Profile
}.

(** [EnsuredSchool] of lib/server/schools.ts *)
Record EnsuredSchool := {
  schoolId : uuid;
  aggregateSchoolId : uuid;
  schoolRow : SchoolRow
}.

Record SchoolIdentity := {
  si_schoolId : uuid;
  si_aggregateSchoolId : uuid;
  si_sidoCode : option jsstr;
  si_sigunguCode : option jsstr
}.

(** [getSchoolIdentityById] *)
Definition getSchoolIdentityById (db : Database) (id : uuid)
    : completion (option SchoolIdentity) :=
  match maybeSingle (filter (fun s => s_id s = id) (schools db)) with
  | SeveralRows => Throw
  | NoRow => Normal None
  | OneRow data =>
    Normal (Some {| si_schoolId := s_id data;
                    si_aggregateSchoolId := default (s_id data) (s_parent_school_id data);
                    si_sidoCode := s_sido_code data;
                    si_sigunguCode := s_sigungu_code data |})
  end.

Inductive BadRequest :=
  | InvalidBody          (* the body does not match voteBodySchema *)
  | MissingGuestToken    (* neither a user nor a guest token *)
  | InvalidOption
  | GuestNeedsProfile
  | MissingProfile
  | StoredSchoolMissing.

Inductive Response :=
  | Created (vote : VoteRow)          (* 201 *)
  | Rejected (why : BadRequest)       (* 400 *)
  | Conflict                          (* 409 *)
  | Failed.                           (* 500 *)

(** Values the environment supplies to one request: the row id of
    [gen_random_uuid()], the time of [now()], and the random part of the
    token given to an unlimited voter. *)
Record Fresh := {
  newId : uuid;
  now : N;
  randomToken : jsstr
}.

Definition ADMIN_UNLIMITED_VOTE_EMAILS : list jsstr := [js "skynkm0307@gmail.com"].

(** What the handler calls and this development does not look into:
    [String.prototype.toLowerCase], the UUID test of the schema, and
    [ensureSchool] of lib/server/schools.ts, which reads and writes the
    table [schools] only. *)
Class Collaborators := {
  toLowerCase : jsstr → jsstr;
  isUuid : jsstr → bool;
  ensureSchool :
    list SchoolRow → SchoolSearchItem → completion (EnsuredSchool * list SchoolRow)
}.

Section Handler.

Context `{collaborators : Collaborators}.

Definition validOpt (check : jsstr → bool) (o : option jsstr) : bool :=
  match o with Some s => check s | None => true end.

(** [profileSchema] and [voteBodySchema] *)
Definition validProfile (p : Profile) : bool :=
  ((1900 <=? birthYear p) && (birthYear p <=? 2100))%Z
  && validOpt isUuid (i_id (p_school p))
  && truthy (i_schoolCode (p_school p))
  && truthy (i_schoolName (p_school p))
  && validOpt isUuid (i_parentSchoolId (p_school p)).

Definition validBody (body : VoteBody) : bool :=
  truthy (topicId body) && truthy (optionKey body)
  && validOpt isUuid (guestToken body)
  && match profile body with Some p => validProfile p | None => true end.

Definition isUnlimitedAdmin (user : option AuthUser) : bool :=
  match user ≫= au_email with
  | Some email =>
    let userEmail := toLowerCase email in
    truthy userEmail && bool_decide (userEmail ∈ ADMIN_UNLIMITED_VOTE_EMAILS)
  | None => false
  end.

(** [voterUserId] and the [guestToken] the handler goes on with. *)
Definition voterUserIdOf (user : option AuthUser) : option uuid := au_id <$> user.

Definition guestTokenOf (user : option AuthUser) (body : VoteBody) : option jsstr :=
  if truthyOpt (voterUserIdOf user) then None else guestToken body.

(** The duplicate pre-check: [Some response] when the handler answers at
    this point. *)
Definition preCheck (db : Database) (user : option AuthUser) (body : VoteBody)
    : option Response :=
  let voterUserId := voterUserIdOf user in
  let guestToken := guestTokenOf user body in
  if truthyOpt voterUserId && negb (isUnlimitedAdmin user) then
    match maybeSingle (filter (fun v => v_topic_id v = topicId body
                                        ∧ v_user_id v = voterUserId) (votes db)) with
    | SeveralRows => Some Failed
    | OneRow _ => Some Conflict
    | NoRow => None
    end
  else if truthyOpt guestToken then
    match maybeSingle (filter (fun v => v_topic_id v = topicId body
                                        ∧ v_guest_token v = guestToken) (votes db)) with
    | SeveralRows => Some Failed
    | OneRow _ => Some Conflict
    | NoRow => None
    end
  else None.

(** The demographic data of the vote and the database after it was
    gathered. *)
Record Demographics := {
  d_birthYear : Z;
  d_gender : Gender;
  d_schoolId : uuid;
  d_aggregateSchoolId : uuid;
  d_sidoCode : option jsstr;
  d_sigunguCode : option jsstr
}.

Definition withSchools (db : Database) (l : list SchoolRow) : Database :=
  {| schools := l; users := users db;
     vote_options := vote_options db; votes := votes db |}.

Definition withUsers (db : Database) (l : list UserRow) : Database :=
  {| schools := schools db; users := l;
     vote_options := vote_options db; votes := votes db |}.

(** [supabase.from('users').update({...}).eq('id', voterUserId)] *)
Definition updateUserProfile (db : Database) (id : uuid) (d : Demographics) : Database :=
  withUsers db
    ((fun u => if bool_decide (u_id u = id)
               then {| u_id := u_id u; u_birth_year := Some (d_birthYear d);
                       u_gender := Some (d_gender d);
                       u_school_id := Some (d_schoolId d);
                       u_sido_code := d_sidoCode d;
                       u_sigungu_code := d_sigunguCode d |}
               else u) <$> users db).

(** The two branches on [body.profile]. *)
Definition gatherDemographics (db : Database) (user : option AuthUser) (body : VoteBody)
    : Response + (Demographics * Database) :=
  let voterUserId := voterUserIdOf user in
  match profile body with
  | Some p =>
    match ensureSchool (schools db) (p_school p) with
    | Throw => inl Failed
    | Normal (ensuredSchool, schools') =>
      let d := {| d_birthYear := birthYear p; d_gender := gender p;
                  d_schoolId := schoolId ensuredSchool;
                  d_aggregateSchoolId := aggregateSchoolId ensuredSchool;
                  d_sidoCode := s_sido_code (schoolRow ensuredSchool);
                  d_sigunguCode := s_sigungu_code (schoolRow ensuredSchool) |} in
      let db1 := withSchools db schools' in
      match voterUserId with
      | Some id => if truthy id then inr (d, updateUserProfile db1 id d) else inr (d, db1)
      | None => inr (d, db1)
      end
    end
  | None =>
    match voterUserId with
    | None => inl (Rejected GuestNeedsProfile)
    | Some id =>
      if truthy id then
        match maybeSingle (filter (fun u => u_id u = id) (users db)) with
        | SeveralRows => inl Failed
        | NoRow => inl (Rejected MissingProfile)
        | OneRow userRow =>
          match u_birth_year userRow, u_gender userRow, u_school_id userRow with
          | Some by_, Some g, Some sid =>
            if (by_ =? 0)%Z then inl (Rejected MissingProfile)
            else
              match getSchoolIdentityById db sid with
              | Throw => inl Failed
              | Normal None => inl (Rejected StoredSchoolMissing)
              | Normal (Some schoolIdentity) =>
                inr ({| d_birthYear := by_; d_gender := g;
                        d_schoolId := si_schoolId schoolIdentity;
                        d_aggregateSchoolId := si_aggregateSchoolId schoolIdentity;
                        d_sidoCode := orElse (u_sido_code userRow)
                                        (si_sidoCode schoolIdentity);
                        d_sigunguCode := orElse (u_sigungu_code userRow)
                                           (si_sigunguCode schoolIdentity) |}, db)
              end
          | _, _, _ => inl (Rejected MissingProfile)
          end
        end
      else inl (Rejected GuestNeedsProfile)
    end
  end.

(** The [POST] handler: the response and the database it leaves. *)
Definition POST (fresh : Fresh) (db : Database) (user : option AuthUser)
    (body : VoteBody) : Response * Database :=
  if negb (validBody body) then (Rejected InvalidBody, db) else
  let voterUserId := voterUserIdOf user in
  let guestToken := guestTokenOf user body in
  if negb (truthyOpt voterUserId) && negb (truthyOpt guestToken)
  then (Rejected MissingGuestToken, db) else
  match maybeSingle (filter (fun o => o_topic_id o = topicId body
                                      ∧ o_option_key o = optionKey body)
                       (vote_options db)) with
  | SeveralRows => (Failed, db)
  | NoRow => (Rejected InvalidOption, db)
  | OneRow _ =>
    match preCheck db user body with
    | Some response => (response, db)
    | None =>
      match gatherDemographics db user body with
      | inl response => (response, db)
      | inr (d, db1) =>
        let '(insertUserId, insertGuestToken) :=
          if isUnlimitedAdmin user
          then (None,
                Some (js "admin-" ++ default (js "null") voterUserId
                      ++ js "-" ++ randomToken fresh))
          else (voterUserId, guestToken) in
        let row :=
          {| v_id := newId fresh;
             v_topic_id := topicId body;
             v_option_key := optionKey body;
             v_user_id := insertUserId;
             v_guest_token := insertGuestToken;
             v_school_id := d_schoolId d;
             v_aggregate_school_id := d_aggregateSchoolId d;
             v_birth_year := d_birthYear d;
             v_gender := d_gender d;
             v_sido_code := d_sidoCode d;
             v_sigungu_code := d_sigunguCode d;
             v_merged_from_guest := false;
             v_created_at := now fresh |} in
        match insertVote db1 row with
        | inl unique_violation => (Conflict, db1)
        | inl _ => (Failed, db1)
        | inr db2 => (Created row, db2)
        end
      end
    end
  end.

End Handler.
End Ledger.

(** ** src/lib/server/schools.ts *)

Module Schools.
Import Regions Ledger.

(** What a call of [ensureSchool] comes to.  For a province name that is
    the name of a member of [Object.prototype], [resolveSidoCode] returns
    that member and the function hands it to the database client; what the
    client stores for it is not determined here, and such a call is
    reported as [InheritedProvince]. *)
Inductive Outcome (T : Type) :=
  | Returned (value : T)
  | Thrown
  | InheritedProvince (key : jsstr).
Arguments Returned {T} value.
Arguments Thrown {T}.
Arguments InheritedProvince {T} key.

(** [code ?? resolveSidoCode(sidoName)] *)
Definition orResolveSidoCode (code : option jsstr) (sidoName : option jsstr) : sidoLookup :=
  match code with
  | Some c => SidoCode c
  | None => resolveSidoCode sidoName
  end.

(** [{ schoolId: row.id, aggregateSchoolId: row.parent_school_id ?? row.id,
    schoolRow: row }] *)
Definition ensured (row : SchoolRow) : EnsuredSchool :=
  {| schoolId := s_id row;
     aggregateSchoolId := default (s_id row) (s_parent_school_id row);
     schoolRow := row |}.

(** [.update({ sido_code, sigungu_code, sigungu_name })] on one row. *)
Definition withRegion (s : SchoolRow) (sido_code sigungu_code sigungu_name : option jsstr)
    : SchoolRow :=
  {| s_id := s_id s; s_source := s_source s; s_school_code := s_school_code s;
     s_school_name := s_school_name s; s_school_level := s_school_level s;
     s_campus_type := s_campus_type s; s_parent_school_id := s_parent_school_id s;
     s_sido_name := s_sido_name s; s_sido_code := sido_code;
     s_sigungu_name := sigungu_name; s_sigungu_code := sigungu_code;
     s_address := s_address s; s_is_active := s_is_active s |}.

(** The branch [if (existing)].  The update names the row by its primary
    key; [.single()] reports an error unless one row comes back. *)
Definition ensureExisting (municipalitiesCache : option (list Municipality))
    (parsed : MunicipalityCollection) (schools : list SchoolRow)
    (item : SchoolSearchItem) (existing : SchoolRow)
    : Outcome (EnsuredSchool * list SchoolRow) * option (list Municipality) :=
  match orResolveSidoCode (orElse (s_sido_code existing) (i_sidoCode item))
          (orElse (i_sidoName item) (s_sido_name existing)) with
  | SidoInherited key => (InheritedProvince key, municipalitiesCache)
  | nextSido =>
    let nextSidoCode := match nextSido with SidoCode c => Some c | _ => None end in
    let (resolved, cache') :=
      resolveSigunguCode municipalitiesCache parsed
        {| sidoCode := nextSidoCode;
           sigunguName := orElse (s_sigungu_name existing) (i_sigunguName item);
           address := orElse (s_address existing) (i_address item) |} in
    match resolved with
    | Throw => (Thrown, cache')
    | Normal resolvedSigungu =>
      let nextSigunguCode :=
        orElse (orElse (s_sigungu_code existing) (i_sigunguCode item))
          (sigunguCode resolvedSigungu) in
      let nextSigunguName :=
        orElse (orElse (s_sigungu_name existing) (i_sigunguName item))
          (r_sigunguName resolvedSigungu) in
      let needsRegionBackfill :=
        negb (bool_decide (s_sido_code existing = nextSidoCode))
        || negb (bool_decide (s_sigungu_code existing = nextSigunguCode))
        || negb (bool_decide (s_sigungu_name existing = nextSigunguName)) in
      if needsRegionBackfill then
        let schools' :=
          (fun s => if bool_decide (s_id s = s_id existing)
                    then withRegion s nextSidoCode nextSigunguCode nextSigunguName
                    else s) <$> schools in
        match filter (fun s => s_id s = s_id existing) schools' with
        | [updated] => (Returned (ensured updated, schools'), cache')
        | _ => (Thrown, cache')
        end
      else (Returned (ensured existing, schools), cache')
    end
  end.

(** [parent_school_id uuid references public.schools(id)], for the row
    about to be inserted under [id]. *)
Definition parentKeyHolds (schools : list SchoolRow) (id : uuid) (parent : option uuid)
    : bool :=
  match parent with
  | None => true
  | Some p => eqb p id || existsb (fun s => eqb (s_id s) p) schools
  end.

(** The insert of a school that is not stored yet; [newId] is the id
    [gen_random_uuid()] gives the row.  The insert fails on the primary key
    and on the reference to the parent; the unique index on
    [(source, school_code)] holds as no such row was found. *)
Definition ensureNew (municipalitiesCache : option (list Municipality))
    (parsed : MunicipalityCollection) (newId : uuid) (schools : list SchoolRow)
    (item : SchoolSearchItem)
    : Outcome (EnsuredSchool * list SchoolRow) * option (list Municipality) :=
  match orResolveSidoCode (i_sidoCode item) (i_sidoName item) with
  | SidoInherited key => (InheritedProvince key, municipalitiesCache)
  | sido =>
    let sidoCode := match sido with SidoCode c => Some c | _ => None end in
    let (resolved, cache') :=
      resolveSigunguCode municipalitiesCache parsed
        {| Regions.sidoCode := sidoCode;
           sigunguName := i_sigunguName item;
           address := i_address item |} in
    match resolved with
    | Throw => (Thrown, cache')
    | Normal sigunguResolved =>
      let inserted :=
        {| s_id := newId;
           s_source := i_source item;
           s_school_code := i_schoolCode item;
           s_school_name := i_schoolName item;
           s_school_level := i_schoolLevel item;
           s_campus_type := i_campusType item;
           s_parent_school_id := i_parentSchoolId item;
           s_sido_name := i_sidoName item;
           s_sido_code := sidoCode;
           s_sigungu_name := orElse (i_sigunguName item) (r_sigunguName sigunguResolved);
           s_sigungu_code := orElse (i_sigunguCode item) (sigunguCode sigunguResolved);
           s_address := i_address item;
           s_is_active := i_isActive item |} in
      if existsb (fun s => eqb (s_id s) newId) schools
         || negb (parentKeyHolds schools newId (i_parentSchoolId item))
      then (Thrown, cache')
      else (Returned (ensured inserted, schools ++ [inserted]), cache')
    end
  end.

(** [ensureSchool]: the outcome, the table [schools] it leaves, and the
    gazetteer cache. *)
Definition ensureSchool (municipalitiesCache : option (list Municipality))
    (parsed : MunicipalityCollection) (newId : uuid) (schools : list SchoolRow)
    (item : SchoolSearchItem)
    : Outcome (EnsuredSchool * list SchoolRow) * option (list Municipality) :=
  match maybeSingle (filter (fun s => s_source s = i_source item
                                      ∧ s_school_code s = i_schoolCode item) schools) with
  | SeveralRows => (Thrown, municipalitiesCache)
  | OneRow existing => ensureExisting municipalitiesCache parsed schools item existing
  | NoRow => ensureNew municipalitiesCache parsed newId schools item
  end.
End Schools.

(** ** [merge_guest_votes_to_user] *)

Module Merge.
Record MergeResult := {
  moved : N;
  skipped : N
}.

(** [btrim(p_guest_token) = '']: [btrim] removes spaces only. *)
Fixpoint ltrimSpaces (s : jsstr) : jsstr :=
  match s with
  | c :: r => if c =? 0x20 then ltrimSpaces r else s
  | [] => []
  end.

Definition btrim (s : jsstr) : jsstr := reverse (ltrimSpaces (reverse (ltrimSpaces s))).

(** The row after [update ... set user_id = p_user_id, guest_token = null,
    merged_from_guest = true]. *)
Definition reassign (p_user_id : uuid) (v : VoteRow) : VoteRow :=
  {| v_id := v_id v; v_topic_id := v_topic_id v; v_option_key := v_option_key v;
     v_user_id := Some p_user_id; v_guest_token := None;
     v_school_id := v_school_id v; v_aggregate_school_id := v_aggregate_school_id v;
     v_birth_year := v_birth_year v; v_gender := v_gender v;
     v_sido_code := v_sido_code v; v_sigungu_code := v_sigungu_code v;
     v_merged_from_guest := true; v_created_at := v_created_at v |}.

(** The query of the [for r in ... loop]: the rows are read when the loop
    starts. *)
Definition guestRows (p_guest_token : jsstr) (table : list VoteRow) : list VoteRow :=
  filter (fun v => v_guest_token v = Some p_guest_token ∧ v_user_id v = None) table.

(** [exists (select 1 from public.votes uv where uv.topic_id = r.topic_id
    and uv.user_id = p_user_id)] *)
Definition userHasVote (p_user_id : uuid) (topic : jsstr) (table : list VoteRow) : bool :=
  existsb (fun uv => eqb (v_topic_id uv) topic
                     && bool_decide (v_user_id uv = Some p_user_id)) table.

(** [votes_topic_user_uidx] after the update of the rows with id [rid]: an
    updated row must be the only row of its topic with its user. *)
Definition userIndexHolds (p_user_id : uuid) (rid : uuid) (table : list VoteRow) : bool :=
  forallb (fun v =>
             negb (bool_decide (v_id v = rid))
             || (length (filter (fun w => v_topic_id w = v_topic_id v
                                         ∧ v_user_id w = Some p_user_id) table) <=? 1)%nat)
    table.

(** [user_id uuid references auth.users(id)], the foreign key of
    [votes.user_id] in 20260218_create_vote_domain.sql: the update of a row
    is refused unless [p_user_id] is the id of a row of [auth.users].
    [auth_users] lists the ids of that table, which the function does not
    write.  As for the index, the rows concerned are the updated ones. *)
Definition userKeyHolds (auth_users : list uuid) (p_user_id : uuid) (rid : uuid)
    (table : list VoteRow) : bool :=
  forallb (fun v =>
             negb (bool_decide (v_id v = rid))
             || bool_decide (p_user_id ∈ auth_users))
    table.

Record LoopState := {
  table : list VoteRow;
  v_moved : N;
  v_skipped : N
}.

(** One iteration of the loop; [Throw] when the update violates the unique
    index or the foreign key, which aborts the function. *)
Definition mergeStep (auth_users : list uuid) (p_user_id : uuid) (st : LoopState)
    (r : VoteRow) : completion LoopState :=
  if userHasVote p_user_id (v_topic_id r) (table st) then
    Normal {| table := filter (fun v => v_id v ≠ v_id r) (table st);
              v_moved := v_moved st; v_skipped := v_skipped st + 1 |}
  else
    let table' := (fun v => if bool_decide (v_id v = v_id r)
                            then reassign p_user_id v else v) <$> table st in
    if userIndexHolds p_user_id (v_id r) table'
       && userKeyHolds auth_users p_user_id (v_id r) table' then
      Normal {| table := table'; v_moved := v_moved st + 1; v_skipped := v_skipped st |}
    else Throw.

Fixpoint mergeLoop (auth_users : list uuid) (p_user_id : uuid) (st : LoopState)
    (rs : list VoteRow) : completion LoopState :=
  match rs with
  | [] => Normal st
  | r :: rest =>
    match mergeStep auth_users p_user_id st r with
    | Throw => Throw
    | Normal st' => mergeLoop auth_users p_user_id st' rest
    end
  end.

(** The function runs in one transaction: when it raises, the table is as
    before.  [None] stands for SQL [null]. *)
Definition merge_guest_votes_to_user (auth_users : list uuid) (db : Database)
    (p_guest_token : option jsstr) (p_user_id : option uuid)
    : completion (MergeResult * Database) :=
  match p_guest_token, p_user_id with
  | Some token, Some user =>
    if eqb (btrim token) [] then Throw
    else
      match mergeLoop auth_users user
              {| table := votes db; v_moved := 0; v_skipped := 0 |}
              (guestRows token (votes db)) with
      | Throw => Throw
      | Normal st =>
        Normal ({| moved := v_moved st; skipped := v_skipped st |},
                Ledger.withVotes db (table st))
      end
  | _, _ => Throw
  end.
End Merge.

(** ** The parent reconciliation of src/scripts/import-universities.ts *)

Module ImportUniversities.
Definition normalizeBaseName (name : jsstr) : jsstr :=
  trim (Regions.removeSpaces (Regions.stripParens name)).

Definition MAIN_CAMPUS : jsstr := js "본교".

(** [String(row.campus_type ?? '').includes('본교')] *)
Definition isMainCampus (row : SchoolRow) : bool :=
  includes (default [] (s_campus_type row)) MAIN_CAMPUS.

(** The first [rows.forEach]: the first main campus of each base name. *)
Definition markMain (parentsByName : gmap jsstr uuid) (row : SchoolRow) : gmap jsstr uuid :=
  let baseName := normalizeBaseName (s_school_name row) in
  if bool_decide (parentsByName !! baseName = None) && isMainCampus row
  then <[baseName := s_id row]> parentsByName
  else parentsByName.

(** The second [rows.forEach]: a representative where no main campus was
    found. *)
Definition markAny (parentsByName : gmap jsstr uuid) (row : SchoolRow) : gmap jsstr uuid :=
  let baseName := normalizeBaseName (s_school_name row) in
  if bool_decide (parentsByName !! baseName = None)
  then <[baseName := s_id row]> parentsByName
  else parentsByName.

Definition buildParents (rows : list SchoolRow) : gmap jsstr uuid :=
  foldl markAny (foldl markMain ∅ rows) rows.

(** [supabase.from('schools').update({ parent_school_id: parentId })
    .eq('id', row.id)] *)
Definition setParent (id parentId : uuid) (s : SchoolRow) : SchoolRow :=
  if bool_decide (s_id s = id) then
    {| s_id := s_id s; s_source := s_source s; s_school_code := s_school_code s;
       s_school_name := s_school_name s; s_school_level := s_school_level s;
       s_campus_type := s_campus_type s; s_parent_school_id := Some parentId;
       s_sido_name := s_sido_name s; s_sido_code := s_sido_code s;
       s_sigungu_name := s_sigungu_name s; s_sigungu_code := s_sigungu_code s;
       s_address := s_address s; s_is_active := s_is_active s |}
  else s.

Record LinkState := {
  schoolsTable : list SchoolRow;
  updatedParentLinks : nat
}.

(** The body of [for (const row of rows)]. *)
Definition linkStep (parentsByName : gmap jsstr uuid) (st : LinkState) (row : SchoolRow)
    : LinkState :=
  if isMainCampus row then st
  else
    match parentsByName !! normalizeBaseName (s_school_name row) with
    | None => st
    | Some parentId =>
      if negb (truthy parentId) || eqb parentId (s_id row) then st
      else {| schoolsTable := setParent (s_id row) parentId <$> schoolsTable st;
              updatedParentLinks := S (updatedParentLinks st) |}
    end.

(** [supabase.from('schools').select('id, school_name, campus_type,
    school_code').eq('source', 'local_xls')]: the query has no [order], so
    the rows of the source come back in an order of the database's choosing.
    [insertedSchools] is an answer to the query on [table] when it lists
    those rows, in any order. *)
Definition selected (table : list SchoolRow) (insertedSchools : list SchoolRow) : Prop :=
  insertedSchools ≡ₚ filter (fun s => s_source s = local_xls) table.

(** The part of [main] after the upsert: the rows of source [local_xls] are
    read once, [insertedSchools] being the answer, then the links are
    written in the order of the answer. *)
Definition reconcileParents (insertedSchools : list SchoolRow) (table : list SchoolRow)
    : LinkState :=
  let rows := insertedSchools in
  let parentsByName := buildParents rows in
  foldl (linkStep parentsByName) {| schoolsTable := table; updatedParentLinks := 0 |} rows.
End ImportUniversities.

(** ** src/scripts/backfill-vote-regions.ts *)

Module BackfillVotes.
Import RegionStats.

(** [type VoteRow] of the script. *)
Record VoteWithSchool := {
  w_id : uuid;
  w_sido_code : option jsstr;
  w_sigungu_code : option jsstr;
  w_school : SchoolRel
}.

(** The rows of [from('votes').select(...).order('created_at')]. *)
Definition scanned (db : Database) (v : VoteRow) : VoteWithSchool :=
  {| w_id := v_id v; w_sido_code := v_sido_code v; w_sigungu_code := v_sigungu_code v;
     w_school := embedSchool db v |}.

Definition selectAllVotes (db : Database) : list VoteWithSchool :=
  scanned db <$> orderByCreatedAt (votes db).

(** The [while (true)] loop of [fetchVotesWithSchool]; [None] when the fuel
    runs out. *)
Fixpoint fetchLoop (fuel : nat) (q : list VoteWithSchool) (offset : nat)
    (rows : list VoteWithSchool) : option (list VoteWithSchool) :=
  match fuel with
  | O => None
  | S fuel' =>
    let batch := range q offset in
    let rows' := rows ++ batch in
    if (length batch <? pageSize)%nat then Some rows'
    else fetchLoop fuel' q (offset + pageSize)%nat rows'
  end.

Definition fetchVotesWithSchool (db : Database) : option (list VoteWithSchool) :=
  let q := selectAllVotes db in
  fetchLoop (S (length q)) q 0%nat [].

(** [Array.isArray(vote.school) ? vote.school[0] : vote.school] *)
Definition schoolOf (vote : VoteWithSchool) : option SchoolCodes :=
  match w_school vote with
  | SchoolArray l => head l
  | SchoolObject s => Some s
  | SchoolNull => None
  end.

(** [update({ sido_code, sigungu_code }).eq('id', id)] *)
Definition setCodes (id : uuid) (sido sigungu : option jsstr) (v : VoteRow) : VoteRow :=
  if bool_decide (v_id v = id) then
    {| v_id := v_id v; v_topic_id := v_topic_id v; v_option_key := v_option_key v;
       v_user_id := v_user_id v; v_guest_token := v_guest_token v;
       v_school_id := v_school_id v; v_aggregate_school_id := v_aggregate_school_id v;
       v_birth_year := v_birth_year v; v_gender := v_gender v;
       v_sido_code := sido; v_sigungu_code := sigungu;
       v_merged_from_guest := v_merged_from_guest v; v_created_at := v_created_at v |}
  else v.

Record Report := {
  table : list VoteRow;
  updated : nat;
  unresolved : nat
}.

(** The body of [for (const vote of votes)]. *)
Definition backfillStep (st : Report) (vote : VoteWithSchool) : Report :=
  let school := schoolOf vote in
  let nextSidoCode := orElse (school ≫= sc_sido_code) (w_sido_code vote) in
  let nextSigunguCode := orElse (school ≫= sc_sigungu_code) (w_sigungu_code vote) in
  if negb (truthyOpt nextSidoCode) || negb (truthyOpt nextSigunguCode) then
    {| table := table st; updated := updated st; unresolved := S (unresolved st) |}
  else if bool_decide (w_sido_code vote = nextSidoCode)
          && bool_decide (w_sigungu_code vote = nextSigunguCode) then st
  else
    {| table := setCodes (w_id vote) nextSidoCode nextSigunguCode <$> table st;
       updated := S (updated st); unresolved := unresolved st |}.

(** [main]: the table [votes] it leaves and the two numbers it logs. *)
Definition main (db : Database) : option Report :=
  match fetchVotesWithSchool db with
  | Some votes_ =>
    Some (foldl backfillStep {| table := votes db; updated := 0; unresolved := 0 |} votes_)
  | None => None
  end.
End BackfillVotes.

(** ** The optimistic update of src/components/TopicsMapPage.tsx *)

Module ClientStats.
Import RegionStats.

(** [RegionVoteStat] of lib/vote/types.ts, as the client reads it: every
    field is optional. *)
Record ClientVoteStat := {
  c_winner : option RegionWinner;
  c_total : option N;
  c_countA : option N;
  c_countB : option N
}.

Abbreviation ClientVoteMap := (gmap jsstr ClientVoteStat).

(** [next[regionCode] = value] on the copy [{ ...prev }]: the assignment
    creates or replaces an own property, except for the key [__proto__]
    when the copy has no own property of that name, where it invokes the
    inherited setter. *)
Definition assignOwn (next : ClientVoteMap) (regionCode : jsstr) (value : ClientVoteStat)
    : ClientVoteMap :=
  if eqb regionCode PROTO && bool_decide (next !! regionCode = None) then next
  else <[regionCode := value]> next.

(** [bumpRegionStat].  A key that is no own property of [next] reads as
    [undefined] or as a member inherited from [Object.prototype]; in both
    cases the three counts of [current] are [undefined] and count as 0. *)
Definition bumpRegionStat (prev : ClientVoteMap) (regionCode : option jsstr)
    (optionKey optionAKey optionBKey : jsstr) : ClientVoteMap :=
  match regionCode with
  | None => prev
  | Some regionCode =>
    if truthy regionCode then
      let next := prev in
      let current := next !! regionCode in
      let countA := default 0 (current ≫= c_countA) + indicator (eqb optionKey optionAKey) in
      let countB := default 0 (current ≫= c_countB) + indicator (eqb optionKey optionBKey) in
      let total := default 0 (current ≫= c_total) + 1 in
      let winner := if countB <? countA then A else if countA <? countB then B else TIE in
      assignOwn next regionCode
        {| c_countA := Some countA; c_countB := Some countB; c_total := Some total;
           c_winner := Some winner |}
    else prev
  end.
End ClientStats.

(** ** [formatSchoolCode] of src/scripts/import-universities.ts *)

Module ImportCells.
(** The argument is the text [String(value ?? '')] of a cell of the
    sheet. *)

(** [\d] *)
Definition isDigit (c : N) : bool := (0x30 <=? c) && (c <=? 0x39).

(** [raw.padStart(targetLength, fill)] with a filler of one character. *)
Definition padStart (targetLength : nat) (fill : N) (raw : jsstr) : jsstr :=
  replicate (targetLength - length raw) fill ++ raw.

Definition formatSchoolCode (text : jsstr) : jsstr :=
  let raw := trim text in
  if negb (truthy raw) then []
  else if (truthy raw && forallb isDigit raw) && (length raw <? 7)%nat
  then padStart 7 0x30 raw
  else raw.
End ImportCells.

(** ** src/app/api/votes/merge-guest/route.ts *)

Module MergeRoute.
Import Merge.

Inductive MergeResponse :=
  | Merged (result : MergeResult)   (* 200 *)
  | MergeBadRequest                 (* 400 *)
  | MergeUnauthorized               (* 401 *)
  | MergeFailed.                    (* 500 *)

(** What [request.json()] gives: the call throws when the body is no JSON
    text; otherwise [guestToken] is the member of that name of the value
    when it is a string. *)
Inductive MergeBody :=
  | Unreadable
  | Parsed (guestToken : option jsstr).

Section Route.
Context `{collaborators : Ledger.Collaborators}.

(** [POST]; [user] is what [resolveUserFromAuthorizationHeader] resolved,
    [auth_users] the ids of [auth.users]. *)
Definition POST (auth_users : list uuid) (db : Database) (user : option Ledger.AuthUser)
    (body : MergeBody) : MergeResponse * Database :=
  match body with
  | Unreadable => (MergeFailed, db)
  | Parsed None => (MergeBadRequest, db)
  | Parsed (Some token) =>
    if Ledger.isUuid token then
      match user with
      | None => (MergeUnauthorized, db)
      | Some u =>
        match merge_guest_votes_to_user auth_users db (Some token)
                (Some (Ledger.au_id u)) with
        | Throw => (MergeFailed, db)
        | Normal (result, db') => (Merged result, db')
        end
      end
    else (MergeBadRequest, db)
  end.
End Route.
End MergeRoute.


(** ** Identifiers of the sample data *)

Module SampleIds.

Definition SCHOOL_1 : uuid := js "7b0c1f0e-3a52-4c1d-9e57-2f6f0a1b3c01".
Definition UNIV_1 : uuid := js "e4d3c2b1-a098-4765-8432-10fedcba9801".
Definition UNIV_2 : uuid := js "e4d3c2b1-a098-4765-8432-10fedcba9802".
Definition VOTE_1 : uuid := js "c1a7e2d4-0b1f-4e6a-8f3b-5d2e9a7c4b01".
Definition VOTE_2 : uuid := js "c1a7e2d4-0b1f-4e6a-8f3b-5d2e9a7c4b02".
Definition VOTE_3 : uuid := js "c1a7e2d4-0b1f-4e6a-8f3b-5d2e9a7c4b03".
Definition USER : uuid := js "5e1d7c54-2a9b-4f43-8d0a-9b1c66a0e2aa".
Definition GUEST : jsstr := js "0b9c3a52-6f0e-4d6b-9a53-0f2f3f5a7c11".
Definition GUEST_2 : jsstr := js "0b9c3a52-6f0e-4d6b-9a53-0f2f3f5a7c12".
Definition RANDOM_1 : jsstr := js "3f2504e0-4f89-41d3-9a0c-0305e82c3301".
Definition RANDOM_2 : jsstr := js "3f2504e0-4f89-41d3-9a0c-0305e82c3302".

End SampleIds.

Import SampleIds.

(** ** Vocabulary and sample data: the region resolver *)

Module RegionsSpec.
Import Regions.

(** The process reads the gazetteer file once; afterwards the cache holds
    what [loadMunicipalities] made of it. *)
Definition cacheOf (parsed : MunicipalityCollection)
    (cache : option (list Municipality)) : Prop :=
  cache = None ∨ cache = Some (loadMunicipalities parsed).

(** A gazetteer that carries municipality 23030 under its former name; the
    third entry is the [남구] of another province. *)
Definition incheonGazetteer : MunicipalityCollection :=
  [ {| f_code := Some (js "23010"); f_name := Some (js "중구") |};
    {| f_code := Some (js "23030"); f_name := Some (js "남구") |};
    {| f_code := Some (js "21070"); f_name := Some (js "남구") |} ].

Definition michuholAddress : ResolveArgs :=
  {| sidoCode := Some (js "23"); sigunguName := None;
     address := Some (js "인천 미추홀구 인하로 100") |}.

Definition INCHEON : jsstr := js "23".
Definition MICHUHOL_GU : jsstr := js "미추홀구".
Definition NAM_GU : jsstr := js "남구".

Definition suffixRelated (a b : jsstr) : bool := endsWith a b || endsWith b a.

(** A gazetteer that carries municipality 23030 under its present name. *)
Definition michuholGazetteer : MunicipalityCollection :=
  [ {| f_code := Some (js "23010"); f_name := Some (js "중구") |};
    {| f_code := Some (js "23030"); f_name := Some (js "미추홀구") |} ].

End RegionsSpec.

(** ** Vocabulary and sample data: the region statistics *)

Module RegionStatsSpec.
Import RegionStats.

Definition winnerRule (st : RegionVoteStat) : Prop :=
  (winner st = A ↔ countB st < countA st)
  ∧ (winner st = B ↔ countA st < countB st)
  ∧ (winner st = TIE ↔ countA st = countB st).

Definition consistent (m : RegionVoteMap) : Prop :=
  ∀ k st, m !! k = Some st → winner st = winnerOf (countA st) (countB st).

Definition sqlRow (row : RegionStatsRpcRow) : Prop :=
  parseWinner (rpc_winner row) = winnerOf (count_a row) (count_b row).

(** A small database: one school, the two options of the seeded topic. *)
Definition seoulSchool : SchoolRow :=
  {| s_id := SCHOOL_1; s_source := nais; s_school_code := js "7010057";
     s_school_name := js "서울고등학교"; s_school_level := high;
     s_campus_type := Some (js "본교"); s_parent_school_id := None;
     s_sido_name := Some (js "서울특별시"); s_sido_code := Some (js "11");
     s_sigungu_name := Some (js "서초구"); s_sigungu_code := Some (js "11220");
     s_address := Some (js "서울특별시 서초구 효령로 197"); s_is_active := true |}.

Definition popularVoteOptions : list VoteOptionRow :=
  [ {| o_topic_id := js "popular-vote"; o_option_key := js "seoul"; o_position := 1 |};
    {| o_topic_id := js "popular-vote"; o_option_key := js "busan"; o_position := 2 |} ].

Definition voteOf (id option_key : jsstr) (guest : jsstr) (sido sigungu : option jsstr)
    (created : N) : VoteRow :=
  {| v_id := id; v_topic_id := js "popular-vote"; v_option_key := option_key;
     v_user_id := None; v_guest_token := Some guest;
     v_school_id := SCHOOL_1; v_aggregate_school_id := SCHOOL_1;
     v_birth_year := 2008; v_gender := female;
     v_sido_code := sido; v_sigungu_code := sigungu;
     v_merged_from_guest := false; v_created_at := created |}.

(** One vote carries its own codes; the other was stored before its school
    had any and has none of its own. *)
Definition mixedDb : Database :=
  {| schools := [seoulSchool]; users := []; vote_options := popularVoteOptions;
     votes := [ voteOf (VOTE_1) (js "seoul") (GUEST)
                  (Some (js "11")) (Some (js "11220")) 1;
                voteOf (VOTE_2) (js "busan") (GUEST_2) None None 2 ] |}.

Definition directCode (level : RegionLevel) (row : FetchedVote) : option jsstr :=
  match level with sigungu => sigungu_code row | sido => sido_code row end.

Definition linkedCode (level : RegionLevel) (row : FetchedVote) : option jsstr :=
  resolveSchoolCode (school row) ≫=
    match level with sigungu => sc_sigungu_code | sido => sc_sido_code end.

(** The row's own code when it is not null, otherwise the school's. *)
Definition selectedCode (level : RegionLevel) (row : FetchedVote) : option jsstr :=
  orElse (directCode level row) (linkedCode level row).

Definition zeroStat : RegionVoteStat :=
  {| total := 0; countA := 0; countB := 0; winner := TIE |}.

Definition statAt (m : RegionVoteMap) (k : jsstr) : RegionVoteStat :=
  default zeroStat (m !! k).

(** The region code under which [buildStatsFromVoteRows] counts a row;
    [None] for a row it skips. *)
Definition countedUnder (level : RegionLevel) (row : FetchedVote) : option jsstr :=
  normalizeCode (regionCodeRaw level row).

(** What one row adds to the entry of [k]. *)
Definition contribution (level : RegionLevel) (a b : jsstr) (k : jsstr)
    (row : FetchedVote) : N * N * N :=
  if bool_decide (countedUnder level row = Some k)
  then (1, indicator (eqb (option_key row) a), indicator (eqb (option_key row) b))
  else (0, 0, 0).

Fixpoint sumContributions (level : RegionLevel) (a b k : jsstr)
    (rows : list FetchedVote) : N * N * N :=
  match rows with
  | [] => (0, 0, 0)
  | row :: rest =>
    let '(t, ca, cb) := contribution level a b k row in
    let '(t', ca', cb') := sumContributions level a b k rest in
    (t + t', ca + ca', cb + cb')
  end.

(** A fetched row without codes of its own whose school has codes, and one
    with its own codes and no school. *)
Definition schoolOnlyRow : FetchedVote :=
  {| option_key := js "busan"; sido_code := None; sigungu_code := None;
     school := SchoolObject {| sc_sido_code := Some (js "11");
                               sc_sigungu_code := Some (js "11220") |} |}.

Definition ownCodeRow : FetchedVote :=
  {| option_key := js "seoul"; sido_code := Some (js "11");
     sigungu_code := Some (js "11220"); school := SchoolNull |}.

(** A row whose own codes are empty strings and whose school has codes, and
    a row whose own codes are blank. *)
Definition emptyOwnCodeRow : FetchedVote :=
  {| option_key := js "seoul"; sido_code := Some (js ""); sigungu_code := Some (js "");
     school := SchoolObject {| sc_sido_code := Some (js "11");
                               sc_sigungu_code := Some (js "11220") |} |}.

Definition blankOwnCodeRow : FetchedVote :=
  {| option_key := js "seoul"; sido_code := Some (js " "); sigungu_code := Some (js " ");
     school := SchoolNull |}.

(** *** Votes that carry their own codes *)

(** The code stored on the vote itself, for the level. *)
Definition ownCode (level : RegionLevel) (v : VoteRow) : option jsstr :=
  match level with sigungu => v_sigungu_code v | sido => v_sido_code v end.

(** A code of its own that is neither empty nor padded with white space. *)
Definition usableOwnCode (level : RegionLevel) (v : VoteRow) : Prop :=
  ∃ s, ownCode level v = Some s ∧ s ≠ [] ∧ trim s = s.

(** The options the SQL join pairs a vote with. *)
Definition optionsOf (db : Database) (v : VoteRow) : list VoteOptionRow :=
  filter (fun o => o_topic_id o = v_topic_id v ∧ o_option_key o = v_option_key v)
    (vote_options db).

(** The vote joins exactly one option, and [a] and [b] are the keys of the
    options at positions 1 and 2. *)
Definition joinedOnce (db : Database) (a b : jsstr) (v : VoteRow) : Prop :=
  ∃ o, optionsOf db v = [o]
       ∧ (o_position o = 1 ↔ v_option_key v = a)
       ∧ (o_position o = 2 ↔ v_option_key v = b).

Definition denormalized (db : Database) (topic : jsstr) (level : RegionLevel)
    (a b : jsstr) : Prop :=
  ∀ v, v ∈ votes db → v_topic_id v = topic →
       usableOwnCode level v ∧ joinedOnce db a b v.

(** The row [selectVotes] makes of a vote. *)
Definition fetched (db : Database) (v : VoteRow) : FetchedVote :=
  {| option_key := v_option_key v; sido_code := v_sido_code v;
     sigungu_code := v_sigungu_code v; school := embedSchool db v |}.

Definition positionOf (db : Database) (v : VoteRow) : N :=
  default 0 (o_position <$> head (optionsOf db v)).

(** The entry [rpcStep] stores for a row of the SQL function. *)
Definition statOfRow (row : RegionStatsRpcRow) : RegionVoteStat :=
  {| countA := normalizeInt (count_a row); countB := normalizeInt (count_b row);
     total := normalizeInt (rpc_total row); winner := parseWinner (rpc_winner row) |}.

Definition topicVotes (db : Database) (topic : jsstr) : list VoteRow :=
  filter (fun v => v_topic_id v = topic) (votes db).

(** The row of [scoped] for a vote that joins one option. *)
Definition scopedPair (db : Database) (level : RegionLevel) (v : VoteRow) : option jsstr * N :=
  (ownCode level v, positionOf db v).

Definition sumOver {T} (f : T → N) (l : list T) : N := foldr (fun r acc => f r + acc) 0 l.

(** Both votes carry the codes of their school. *)
Definition backfilledDb : Database :=
  {| schools := [seoulSchool]; users := []; vote_options := popularVoteOptions;
     votes := [ voteOf (VOTE_1) (js "seoul") (GUEST)
                  (Some (js "11")) (Some (js "11220")) 1;
                voteOf (VOTE_2) (js "busan") (GUEST_2)
                  (Some (js "11")) (Some (js "11220")) 2 ] |}.

End RegionStatsSpec.

(** ** Vocabulary and sample data: the parent reconciliation *)

Module ImportSpec.
Import ImportUniversities.

(** The update the loop issues for a row, if any: the row's id and the id of
    its parent. *)
Definition plannedLink (parentsByName : gmap jsstr uuid) (row : SchoolRow)
    : option (uuid * uuid) :=
  if isMainCampus row then None
  else
    match parentsByName !! normalizeBaseName (s_school_name row) with
    | None => None
    | Some parentId =>
      if negb (truthy parentId) || eqb parentId (s_id row) then None
      else Some (s_id row, parentId)
    end.

Definition applyLink (t : list SchoolRow) (link : uuid * uuid) : list SchoolRow :=
  setParent link.1 link.2 <$> t.

Definition applyLinkRow (s : SchoolRow) (link : uuid * uuid) : SchoolRow :=
  setParent link.1 link.2 s.

(** The columns the reconciliation reads. *)
Definition sameKey (a b : SchoolRow) : Prop :=
  s_id a = s_id b ∧ s_source a = s_source b
  ∧ s_school_name a = s_school_name b ∧ s_campus_type a = s_campus_type b.

(** A table in which every link is in place: a main campus and a branch
    that already points to it. *)
Definition mainCampusRow : SchoolRow :=
  {| s_id := UNIV_1; s_source := local_xls; s_school_code := js "0000123";
     s_school_name := js "한국대학교"; s_school_level := university;
     s_campus_type := Some (js "본교"); s_parent_school_id := None;
     s_sido_name := Some (js "서울"); s_sido_code := Some (js "11");
     s_sigungu_name := None; s_sigungu_code := None;
     s_address := None; s_is_active := true |}.

Definition branchRow : SchoolRow :=
  {| s_id := UNIV_2; s_source := local_xls; s_school_code := js "0000124";
     s_school_name := js "한국대학교 (세종캠퍼스)"; s_school_level := university;
     s_campus_type := Some (js "분교"); s_parent_school_id := Some (UNIV_1);
     s_sido_name := Some (js "세종"); s_sido_code := Some (js "29");
     s_sigungu_name := None; s_sigungu_code := None;
     s_address := None; s_is_active := true |}.

Definition linkedTable : list SchoolRow := [mainCampusRow; branchRow].

(** Two campuses of one name, none tagged as main campus, not linked yet. *)
Definition campusRow (id : uuid) (code name : jsstr) (parent : option uuid) : SchoolRow :=
  {| s_id := id; s_source := local_xls; s_school_code := code;
     s_school_name := name; s_school_level := university;
     s_campus_type := Some (js "제2캠퍼스"); s_parent_school_id := parent;
     s_sido_name := Some (js "서울"); s_sido_code := Some (js "11");
     s_sigungu_name := None; s_sigungu_code := None;
     s_address := None; s_is_active := true |}.

Definition campusA (parent : option uuid) : SchoolRow :=
  campusRow UNIV_1 (js "0000201") (js "한국대학교 (서울캠퍼스)") parent.

Definition campusB (parent : option uuid) : SchoolRow :=
  campusRow UNIV_2 (js "0000202") (js "한국대학교 (세종캠퍼스)") parent.

Definition unlinkedTable : list SchoolRow := [campusA None; campusB None].

(** The first run on them, reading the rows in table order, and the table
    it leaves. *)
Definition firstRun : LinkState := reconcileParents unlinkedTable unlinkedTable.

Definition linkedOnce : list SchoolRow := schoolsTable firstRun.

Definition withParent (s : SchoolRow) (parent : option uuid) : SchoolRow :=
  {| s_id := s_id s; s_source := s_source s; s_school_code := s_school_code s;
     s_school_name := s_school_name s; s_school_level := s_school_level s;
     s_campus_type := s_campus_type s; s_parent_school_id := parent;
     s_sido_name := s_sido_name s; s_sido_code := s_sido_code s;
     s_sigungu_name := s_sigungu_name s; s_sigungu_code := s_sigungu_code s;
     s_address := s_address s; s_is_active := s_is_active s |}.

(** The parent a row ends with: that of the last link written to its id. *)
Definition finalParent (id : uuid) (links : list (uuid * uuid)) (parent : option uuid)
    : option uuid :=
  foldl (fun acc link => if bool_decide (id = link.1) then Some link.2 else acc)
    parent links.

End ImportSpec.

(** ** Vocabulary: the constraints of the table [votes] *)

Module VotesSpec.
Import Ledger.

(** The primary key and the two partial unique indexes hold in a table when
    no two of its rows collide. *)
Fixpoint pairwiseOk (T : list VoteRow) : bool :=
  match T with
  | [] => true
  | v :: rest => negb (existsb (collides v) rest) && pairwiseOk rest
  end.

(** [votes_identity_check], the primary key and the unique indexes. *)
Definition constraintsHold (T : list VoteRow) : Prop :=
  pairwiseOk T = true ∧ forallb votes_identity_check T = true.

(** The rows of an identity on a topic. *)
Definition userVotesOn (user : uuid) (topic : jsstr) (T : list VoteRow) : list VoteRow :=
  filter (fun v => v_topic_id v = topic ∧ v_user_id v = Some user) T.

Definition guestVotesOn (token : jsstr) (topic : jsstr) (T : list VoteRow) : list VoteRow :=
  filter (fun v => v_topic_id v = topic ∧ v_guest_token v = Some token) T.

End VotesSpec.

(** ** Vocabulary and sample data: the guest merge *)

Module MergeSpec.
Import Merge.

(** A row stored under the guest token, as the loop query selects it. *)
Definition isGuestRow (token : jsstr) (v : VoteRow) : Prop :=
  v_guest_token v = Some token ∧ v_user_id v = None.

#[export] Instance isGuestRow_dec token v : Decision (isGuestRow token v).
Proof. unfold isGuestRow. apply _. Defined.

Import VotesSpec.

(** A row "reassigned to the user (guestToken cleared, userId set,
    mergedFromGuest set true)", as the specification words it: every other
    column is that of the guest row. *)
Definition reassigned (user : uuid) (g : VoteRow) : VoteRow :=
  {| v_id := v_id g; v_topic_id := v_topic_id g; v_option_key := v_option_key g;
     v_user_id := Some user; v_guest_token := None;
     v_school_id := v_school_id g; v_aggregate_school_id := v_aggregate_school_id g;
     v_birth_year := v_birth_year g; v_gender := v_gender g;
     v_sido_code := v_sido_code g; v_sigungu_code := v_sigungu_code g;
     v_merged_from_guest := true; v_created_at := v_created_at g |}.

(** What becomes of a row: a guest row is deleted when the user already has
    a vote on its topic and reassigned otherwise; every other row stays. *)
Definition mergedRow (token : jsstr) (user : uuid) (T : list VoteRow) (v : VoteRow)
    : option VoteRow :=
  if decide (isGuestRow token v) then
    if userHasVote user (v_topic_id v) T then None else Some (reassigned user v)
  else Some v.

Definition mergedTable (token : jsstr) (user : uuid) (T : list VoteRow) : list VoteRow :=
  omap (mergedRow token user T) T.

Definition movedCount (token : jsstr) (user : uuid) (T : list VoteRow) : N :=
  N.of_nat (length (filter (fun r => userHasVote user (v_topic_id r) T = false)
                      (guestRows token T))).

Definition skippedCount (token : jsstr) (user : uuid) (T : list VoteRow) : N :=
  N.of_nat (length (filter (fun r => userHasVote user (v_topic_id r) T = true)
                      (guestRows token T))).

(** The update of the loop, on one row. *)
Definition reassignId (user : uuid) (rid : uuid) (v : VoteRow) : VoteRow :=
  if bool_decide (v_id v = rid) then reassign user v else v.

(** The table after the guest row [r] is deleted, and after it is
    reassigned. *)
Definition afterDelete (T : list VoteRow) (r : VoteRow) : list VoteRow :=
  filter (fun v => v_id v ≠ v_id r) T.

Definition afterUpdate (user : uuid) (T : list VoteRow) (r : VoteRow) : list VoteRow :=
  reassignId user (v_id r) <$> T.

(** A guest who voted on two topics, and a user who voted on one of them;
    [afterMerge] is the table the merge leaves. *)
Definition sampleVote (id topic option_key : jsstr) (user : option uuid)
    (guest : option jsstr) (created : N) : VoteRow :=
  {| v_id := id; v_topic_id := topic; v_option_key := option_key;
     v_user_id := user; v_guest_token := guest;
     v_school_id := SCHOOL_1; v_aggregate_school_id := SCHOOL_1;
     v_birth_year := 2008; v_gender := female;
     v_sido_code := Some (js "11"); v_sigungu_code := Some (js "11220");
     v_merged_from_guest := false; v_created_at := created |}.

Definition guestVoteA : VoteRow :=
  sampleVote (VOTE_1) (js "popular-vote") (js "seoul") None (Some GUEST) 1.
Definition guestVoteB : VoteRow :=
  sampleVote (VOTE_2) (js "school-lunch") (js "yes") None (Some GUEST) 2.
Definition userVoteA : VoteRow :=
  sampleVote (VOTE_3) (js "popular-vote") (js "busan") (Some USER) None 3.

Definition beforeMerge : Database :=
  {| schools := []; users := []; vote_options := [];
     votes := [guestVoteA; guestVoteB; userVoteA] |}.

Definition afterMerge : Database :=
  {| schools := []; users := []; vote_options := [];
     votes := [reassigned USER guestVoteB; userVoteA] |}.

(** The ids of [auth.users] in the sample: the user is registered. *)
Definition authUsers : list uuid := [USER].

End MergeSpec.

(** ** Vocabulary and sample data: the vote submission handler *)

Module LedgerSpec.
Import Ledger VotesSpec.

(** Exactly one of [user_id] and [guest_token] is not null. *)
Definition exactlyOneIdentity (v : VoteRow) : Prop :=
  (is_Some (v_user_id v) ∧ v_guest_token v = None)
  ∨ (v_user_id v = None ∧ is_Some (v_guest_token v)).

(** [(topicId, optionKey)] is a registered option: the primary key of
    [vote_options] admits one such row. *)
Definition registeredOption (db : Database) (topic key : jsstr) : Prop :=
  ∃ o, filter (fun o => o_topic_id o = topic ∧ o_option_key o = key) (vote_options db) = [o].

(** The row the handler hands to the insert. *)
Definition voteRowOf (admin : bool) (fresh : Fresh) (user : option AuthUser)
    (body : VoteBody) (d : Demographics) : VoteRow :=
  {| v_id := newId fresh;
     v_topic_id := topicId body;
     v_option_key := optionKey body;
     v_user_id := if admin then None else voterUserIdOf user;
     v_guest_token :=
       if admin
       then Some (js "admin-" ++ default (js "null") (voterUserIdOf user)
                  ++ js "-" ++ randomToken fresh)
       else guestTokenOf user body;
     v_school_id := d_schoolId d;
     v_aggregate_school_id := d_aggregateSchoolId d;
     v_birth_year := d_birthYear d;
     v_gender := d_gender d;
     v_sido_code := d_sidoCode d;
     v_sigungu_code := d_sigunguCode d;
     v_merged_from_guest := false;
     v_created_at := now fresh |}.

(** An [ensureSchool] that finds the school and has nothing to backfill. *)
Definition knownSchool : Collaborators :=
  {| toLowerCase := fun s => s;
     isUuid := fun _ => true;
     ensureSchool := fun schools item =>
       match List.find (fun s => bool_decide (s_source s = i_source item)
                                 && eqb (s_school_code s) (i_schoolCode item)) schools with
       | Some s => Normal ({| schoolId := s_id s;
                              aggregateSchoolId := default (s_id s) (s_parent_school_id s);
                              schoolRow := s |}, schools)
       | None => Throw
       end |}.

(** A guest's submission for the seeded topic, the database before it and
    after it. *)
Definition seoulItem : SchoolSearchItem :=
  {| i_id := None; i_source := nais; i_schoolCode := js "7010057";
     i_schoolName := js "서울고등학교"; i_schoolLevel := high;
     i_campusType := Some (js "본교"); i_parentSchoolId := None;
     i_sidoName := Some (js "서울특별시"); i_sidoCode := Some (js "11");
     i_sigunguName := Some (js "서초구"); i_sigunguCode := Some (js "11220");
     i_address := None; i_isActive := true |}.

Definition guestBody (option_key : jsstr) : VoteBody :=
  {| topicId := js "popular-vote"; optionKey := option_key;
     guestToken := Some GUEST;
     profile := Some {| birthYear := 2008; gender := female; p_school := seoulItem |} |}.

Definition emptyLedger : Database :=
  {| schools := [RegionStatsSpec.seoulSchool]; users := [];
     vote_options := RegionStatsSpec.popularVoteOptions; votes := [] |}.

Definition firstFresh : Fresh :=
  {| newId := VOTE_1; now := 1; randomToken := RANDOM_1 |}.
Definition secondFresh : Fresh :=
  {| newId := VOTE_2; now := 2; randomToken := RANDOM_2 |}.

Definition firstVote : VoteRow :=
  {| v_id := VOTE_1; v_topic_id := js "popular-vote"; v_option_key := js "seoul";
     v_user_id := None; v_guest_token := Some GUEST;
     v_school_id := SCHOOL_1; v_aggregate_school_id := SCHOOL_1;
     v_birth_year := 2008; v_gender := female;
     v_sido_code := Some (js "11"); v_sigungu_code := Some (js "11220");
     v_merged_from_guest := false; v_created_at := 1 |}.

Definition oneVoteLedger : Database :=
  {| schools := [RegionStatsSpec.seoulSchool]; users := [];
     vote_options := RegionStatsSpec.popularVoteOptions; votes := [firstVote] |}.

End LedgerSpec.

(** ** Sample data: [ensureSchool] *)

Module SchoolsSpec.
Import Regions Ledger Schools.

(** A school as a client may name it in the profile of a vote: the province
    code is that of Seoul, the municipality code that of another
    province. *)
Definition clientItem : SchoolSearchItem :=
  {| i_id := None; i_source := nais; i_schoolCode := js "7010057";
     i_schoolName := js "서울고등학교"; i_schoolLevel := high;
     i_campusType := None; i_parentSchoolId := None;
     i_sidoName := Some (js "서울특별시"); i_sidoCode := Some (js "11");
     i_sigunguName := Some (js "서초구"); i_sigunguCode := Some (js "23030");
     i_address := Some (js "서울특별시 서초구 효령로 197"); i_isActive := true |}.

Definition clientRow : SchoolRow :=
  {| s_id := SCHOOL_1; s_source := nais; s_school_code := js "7010057";
     s_school_name := js "서울고등학교"; s_school_level := high;
     s_campus_type := None; s_parent_school_id := None;
     s_sido_name := Some (js "서울특별시"); s_sido_code := Some (js "11");
     s_sigungu_name := Some (js "서초구"); s_sigungu_code := Some (js "23030");
     s_address := Some (js "서울특별시 서초구 효령로 197"); s_is_active := true |}.

(** A school of Busan named without its province. *)
Definition busanItem : SchoolSearchItem :=
  {| i_id := None; i_source := nais; i_schoolCode := js "7150099";
     i_schoolName := js "부산남고등학교"; i_schoolLevel := high;
     i_campusType := None; i_parentSchoolId := None;
     i_sidoName := None; i_sidoCode := None;
     i_sigunguName := None; i_sigunguCode := None;
     i_address := Some (js "부산광역시 남구 수영로 309"); i_isActive := true |}.

(** The row stored for it: no province, the municipality of Incheon. *)
Definition busanRow : SchoolRow :=
  {| s_id := UNIV_1; s_source := nais; s_school_code := js "7150099";
     s_school_name := js "부산남고등학교"; s_school_level := high;
     s_campus_type := None; s_parent_school_id := None;
     s_sido_name := None; s_sido_code := None;
     s_sigungu_name := Some (js "남구"); s_sigungu_code := Some (js "23030");
     s_address := Some (js "부산광역시 남구 수영로 309"); s_is_active := true |}.

(** The code of a province lookup that is no inherited member. *)
Definition codeOf (l : sidoLookup) : option jsstr :=
  match l with SidoCode c => Some c | _ => None end.

(** The same three municipalities in the order of their codes, and an
    address of Incheon (province 23) named without its province. *)
Definition sortedGazetteer : MunicipalityCollection :=
  [ {| f_code := Some (js "21070"); f_name := Some (js "남구") |};
    {| f_code := Some (js "23010"); f_name := Some (js "중구") |};
    {| f_code := Some (js "23030"); f_name := Some (js "남구") |} ].

Definition incheonAddress : ResolveArgs :=
  {| sidoCode := None; sigunguName := None;
     address := Some (js "인천광역시 남구 인하로 100") |}.

Definition busanAddress : ResolveArgs :=
  {| sidoCode := None; sigunguName := None;
     address := Some (js "부산광역시 남구 수영로 309") |}.

End SchoolsSpec.

(** ** Vocabulary: the candidates of the region resolver *)

Module CandidatesSpec.
Import Regions.

(** A string without white space. *)
Definition noSpace (s : jsstr) : Prop := Forall (fun c => isSpace c = false) s.

(** The candidates an address yields, read off its tokens: the second
    token, then the second and third joined when the third ends in [구]. *)
Definition expectedCandidates (tokens : list jsstr) : list jsstr :=
  match tokens with
  | _ :: second :: rest =>
    second :: match rest with
              | third :: _ => if endsWith third GU then [second ++ third] else []
              | [] => []
              end
  | _ => []
  end.

Definition tokensOf (address : option jsstr) : list jsstr :=
  match address with Some a => addressTokens a | None => [] end.

End CandidatesSpec.

(** ** Vocabulary: the answers of the region statistics *)

Module StatsSpec.
Import RegionStats RegionStatsSpec.

Definition headOk (s : jsstr) : Prop :=
  match s with c :: _ => isSpace c = false | [] => True end.

(** A code as [normalizeCode] returns it: [null], or a string that is not
    empty and has no white space at either end. *)
Definition canonicalCode (o : option jsstr) : Prop :=
  match o with Some k => k ≠ [] ∧ trim k = k | None => True end.

Definition createdOrder (v w : VoteRow) : Prop := v_created_at v <= v_created_at w.

(** The sum of a column of the statistics over the regions. *)
Definition sumField (f : RegionVoteStat → N) (m : RegionVoteMap) : N :=
  map_fold (fun _ st acc => f st + acc) 0 m.

Definition isCounted (level : RegionLevel) (row : FetchedVote) : Prop :=
  countedUnder level row ≠ None.

(** The answer for a topic without votes. *)
Definition emptyAnswer : Response :=
  Ok200 ∅ {| totalVotes := 0; sumA := 0; sumB := 0 |}.

(** [position smallint not null check (position in (1, 2))] *)
Definition positionsChecked (db : Database) : Prop :=
  Forall (fun o => o_position o = 1 ∨ o_position o = 2) (vote_options db).

(** A row of the SQL function: a region that is not empty, a total that is
    the sum of the two counts, and at least one vote. *)
Definition wellFormedRow (row : RegionStatsRpcRow) : Prop :=
  ∃ r, region row = Some r ∧ r ≠ []
       ∧ rpc_total row = count_a row + count_b row
       ∧ 0 < rpc_total row.

End StatsSpec.

(** ** Vocabulary and sample data: the unlimited voter *)

Module SubmissionSpec.
Import Ledger.

(** The synthetic guest token of an unlimited voter. *)
Definition adminToken (u : AuthUser) (fresh : Fresh) : jsstr :=
  js "admin-" ++ au_id u ++ js "-" ++ randomToken fresh.

Definition adminUser : AuthUser :=
  {| au_id := USER; au_email := Some (js "skynkm0307@gmail.com") |}.

End SubmissionSpec.

(** ** Vocabulary and sample data: the backfill of vote regions *)

Module BackfillSpec.
Import RegionStats RegionStatsSpec BackfillVotes.

(** The codes the script wants on a vote: those of its school where the
    school has them, the vote's own otherwise. *)
Definition wantedSido (vote : VoteWithSchool) : option jsstr :=
  orElse (schoolOf vote ≫= sc_sido_code) (w_sido_code vote).

Definition wantedSigungu (vote : VoteWithSchool) : option jsstr :=
  orElse (schoolOf vote ≫= sc_sigungu_code) (w_sigungu_code vote).

Definition isUnresolved (vote : VoteWithSchool) : bool :=
  negb (truthyOpt (wantedSido vote)) || negb (truthyOpt (wantedSigungu vote)).

Definition needsUpdate (vote : VoteWithSchool) : bool :=
  negb (isUnresolved vote)
  && negb (bool_decide (w_sido_code vote = wantedSido vote)
           && bool_decide (w_sigungu_code vote = wantedSigungu vote)).

Definition withCodes (sido sigungu : option jsstr) (v : VoteRow) : VoteRow :=
  {| v_id := v_id v; v_topic_id := v_topic_id v; v_option_key := v_option_key v;
     v_user_id := v_user_id v; v_guest_token := v_guest_token v;
     v_school_id := v_school_id v; v_aggregate_school_id := v_aggregate_school_id v;
     v_birth_year := v_birth_year v; v_gender := v_gender v;
     v_sido_code := sido; v_sigungu_code := sigungu;
     v_merged_from_guest := v_merged_from_guest v; v_created_at := v_created_at v |}.

(** What becomes of a stored vote. *)
Definition backfilledRow (db : Database) (v : VoteRow) : VoteRow :=
  if isUnresolved (scanned db v) then v
  else withCodes (wantedSido (scanned db v)) (wantedSigungu (scanned db v)) v.

(** The primary key of [votes]. *)
Definition uniqueIds (T : list VoteRow) : Prop := NoDup (v_id <$> T).

(** What the loop does to a stored row for one fetched vote. *)
Definition applyVote (vote : VoteWithSchool) (v : VoteRow) : VoteRow :=
  if needsUpdate vote
  then setCodes (w_id vote) (wantedSido vote) (wantedSigungu vote) v
  else v.

(** A code that [normalizeCode] keeps as it is. *)
Definition usableCode (s : jsstr) : Prop := s ≠ [] ∧ trim s = s.

(** The school of a vote has both codes. *)
Definition schoolCarriesCodes (db : Database) (v : VoteRow) : Prop :=
  ∃ s g, schoolOf (scanned db v)
         = Some {| sc_sido_code := Some s; sc_sigungu_code := Some g |}
         ∧ usableCode s ∧ usableCode g.

(** The second vote of [mixedDb] after the backfill, and the report of the
    run on [mixedDb]. *)
Definition backfilledVote2 : VoteRow :=
  voteOf (VOTE_2) (js "busan") (GUEST_2) (Some (js "11")) (Some (js "11220")) 2.

Definition mixedReport : Report :=
  {| table := [ voteOf (VOTE_1) (js "seoul") (GUEST) (Some (js "11")) (Some (js "11220")) 1;
                backfilledVote2 ];
     updated := 1; unresolved := 0 |}.

End BackfillSpec.

(** ** Vocabulary: the optimistic update *)

Module ClientSpec.
Import RegionStats ClientStats.

(** A statistic of the server's answer, as the client holds it. *)
Definition received (st : RegionVoteStat) : ClientVoteStat :=
  {| c_winner := Some (winner st); c_total := Some (total st);
     c_countA := Some (countA st); c_countB := Some (countB st) |}.
End ClientSpec.

(** ** Vocabulary: school codes *)

Module ImportCellsSpec.
Import ImportCells.

(** The number a string of decimal digits denotes. *)
Definition decimal (s : jsstr) : N := foldl (fun acc c => 10 * acc + (c - 0x30)) 0 s.

Definition allDigits (s : jsstr) : Prop := forallb isDigit s = true.
End ImportCellsSpec.

(** ** Vocabulary: the designated parent *)

Module ParentsSpec.
Import ImportUniversities ImportSpec.

Definition baseNameOf (row : SchoolRow) : jsstr := normalizeBaseName (s_school_name row).

(** The first row of a base name that is tagged as main campus, and the
    first row of the base name. *)
Definition firstMainCampus (baseName : jsstr) (rows : list SchoolRow) : option SchoolRow :=
  List.find (fun row => eqb (baseNameOf row) baseName && isMainCampus row) rows.

Definition firstOfName (baseName : jsstr) (rows : list SchoolRow) : option SchoolRow :=
  List.find (fun row => eqb (baseNameOf row) baseName) rows.

Definition designatedParent (baseName : jsstr) (rows : list SchoolRow) : option SchoolRow :=
  orElse (firstMainCampus baseName rows) (firstOfName baseName rows).
End ParentsSpec.

(** ** Sample data: the merge route *)

Module MergeRouteSpec.
Import Ledger MergeSpec LedgerSpec.

Definition mergingUser : AuthUser := {| au_id := USER; au_email := None |}.

(** [oneVoteLedger] after the guest's vote was merged into the user's. *)
Definition mergedLedger : Database :=
  withVotes oneVoteLedger [reassigned USER firstVote].

End MergeRouteSpec.


(** ** Checks of the region resolver on a few inputs *)

Module RegionsTests.
Import Regions.

Example js_gu : js "구" = [0xAD6C].
Proof. reflexivity. Qed.

Example normalize_seoul :
  normalizeKorean (js "서울 (특별시)") = js "서울".
Proof. vm_compute. reflexivity. Qed.

Example sido_seoul :
  resolveSidoCode (Some (js "서울")) = SidoCode (js "11")
  /\ resolveSidoCode (Some (js "서울특별시")) = SidoCode (js "11")
  /\ resolveSidoCode (Some (js "인천")) = SidoCode (js "23").
Proof. vm_compute. auto. Qed.

Example split_leading : splitSpaces (js " a  b ") = [js ""; js "a"; js "b"; js ""].
Proof. vm_compute. reflexivity. Qed.

Example extract_two :
  extractSigunguCandidates (Some (js "경기 성남시 분당구 판교로")) = [js "성남시"; js "성남시분당구"].
Proof. vm_compute. reflexivity. Qed.

Example extract_single : extractSigunguCandidates (Some (js "서울")) = [].
Proof. vm_compute. reflexivity. Qed.

Example expand_inherited : expandSigunguAliases (js "constructor") = Throw.
Proof. vm_compute. reflexivity. Qed.
End RegionsTests.

(** ** Properties of the region resolver *)

Module RegionsProps.
Import Regions RegionsSpec.

Lemma eqb_true (a b : jsstr) : eqb a b = true ↔ a = b.
Proof. unfold eqb. apply bool_decide_eq_true. Qed.

Lemma find_elem_of {A} (f : A → bool) (l : list A) (x : A) :
  List.find f l = Some x → x ∈ l ∧ f x = true.
Proof.
  intros H. apply List.find_some in H as [Hin Hf].
  split; [by apply list_elem_of_In | done].
Qed.

Lemma find_none_elem_of {A} (f : A → bool) (l : list A) (x : A) :
  List.find f l = None → x ∈ l → f x = false.
Proof.
  intros H Hin. apply (List.find_none f l H). by apply list_elem_of_In.
Qed.

(** What the inner loop returns is an entry of the pool. *)
Lemma tryExpanded_found pool expandedCandidates r :
  tryExpanded pool expandedCandidates = Some r →
  ∃ m, m ∈ pool ∧ r = found m.
Proof.
  induction expandedCandidates as [|e rest IH]; simpl; [done|].
  destruct (List.find _ pool) as [exact|] eqn:Hexact.
  { intros H; injection H as <-. apply find_elem_of in Hexact as [Hin _]. eauto. }
  destruct (List.find (λ item, orb _ _) pool) as [suffixMatch|] eqn:Hsuffix.
  { intros H; injection H as <-. apply find_elem_of in Hsuffix as [Hin _]. eauto. }
  apply IH.
Qed.

Lemma tryCandidates_found pool fallback candidates r :
  tryCandidates pool fallback candidates = Normal r →
  r = fallback ∨ ∃ m, m ∈ pool ∧ r = found m.
Proof.
  induction candidates as [|c rest IH]; simpl.
  - intros H; injection H as <-. by left.
  - destruct (expandSigunguAliases c) as [ex|]; [|done].
    destruct (tryExpanded pool ex) as [r'|] eqn:Htry.
    + intros H; injection H as <-. right. by apply tryExpanded_found in Htry.
    + apply IH.
Qed.

Lemma elem_of_poolOf all sc m :
  m ∈ poolOf all sc ↔
  m ∈ all ∧ (negb (truthyOpt sc) || startsWith (code m) (default [] sc) = true).
Proof. unfold poolOf. rewrite list_elem_of_filter. tauto. Qed.

Lemma ownLookup_elem_of {V} (obj : list (jsstr * V)) (k : jsstr) (v : V) :
  ownLookup obj k = Some v → ∃ k', (k', v) ∈ obj.
Proof.
  induction obj as [|[k' v'] obj IH]; cbn [ownLookup]; [done|].
  destruct (eqb k' k).
  - intros H; injection H as <-. exists k'. left.
  - intros H. destruct (IH H) as [k'' Hin]. exists k''. by right.
Qed.

(** Every province code of the table has two characters. *)
Lemma SIDO_CODE_MAP_two (sidoName : option jsstr) (sc : jsstr) :
  resolveSidoCode sidoName = SidoCode sc → length sc = 2%nat.
Proof.
  assert (Hall : Forall (fun kv => length kv.2 = 2%nat) SIDO_CODE_MAP).
  { apply (bool_decide_unpack _). vm_compute. exact I. }
  unfold resolveSidoCode. destruct sidoName as [n|]; [|done].
  destruct (truthy n); [|done].
  destruct (ownLookup SIDO_CODE_MAP (normalizeKorean n)) as [c|] eqn:Hc.
  - intros H; injection H as <-.
    destruct (ownLookup_elem_of _ _ _ Hc) as [k' Hin].
    by apply (proj1 (Forall_forall _ _) Hall (k', c)).
  - by destruct (isInherited _).
Qed.

Lemma startsWith_take (s p : jsstr) :
  startsWith s p = true → take (length p) s = p.
Proof.
  revert s. induction p as [|a p IH]; intros s; [done|].
  destruct s as [|b s]; cbn [startsWith]; [done|].
  intros [Hab Hrest]%andb_true_iff. apply N.eqb_eq in Hab as ->.
  cbn. by rewrite IH.
Qed.

(** C10, as the code has it: what the resolver returns.  When
    [resolveSigunguCode] returns a non-null [sigunguCode], the returned code
    and name are those of one entry of the loaded gazetteer (the value of
    [readMunicipalities]); when a non-empty [sidoCode] was passed, the
    returned code starts with it; and when that [sidoCode] is a code that
    [resolveSidoCode] returned, as in the import and in the school search,
    it has two characters and they are the first two of the returned code.
    Nothing is said of the codes written to a school or vote row, which need
    not come from the resolver. *)
Theorem resolveSigunguCode_in_gazetteer
    (cache : option (list Municipality)) (parsed : MunicipalityCollection)
    (args : ResolveArgs) (r : Resolved) (c : jsstr) :
  (resolveSigunguCode cache parsed args).1 = Normal r →
  sigunguCode r = Some c →
  (∃ m, m ∈ (readMunicipalities cache parsed).1
        ∧ code m = c
        ∧ r_sigunguName r = Some (name m))
  ∧ (∀ sc, sidoCode args = Some sc → sc ≠ [] → startsWith c sc = true)
  ∧ (∀ sidoName sc, resolveSidoCode sidoName = SidoCode sc →
                    sidoCode args = Some sc →
                    length sc = 2%nat ∧ take 2 c = sc).
Proof.
  unfold resolveSigunguCode.
  destruct (readMunicipalities cache parsed) as [all cache'] eqn:Hread. simpl.
  destruct (candidatesOf args) as [|first rest] eqn:Hcand.
  - simpl. intros H; injection H as <-. done.
  - cbn [fst]. intros Hres Hcode.
    apply tryCandidates_found in Hres as [-> | (m & Hm & ->)]; [done|].
    simpl in Hcode. injection Hcode as <-.
    apply elem_of_poolOf in Hm as [Hall Hpre].
    assert (Hprefix : ∀ sc, sidoCode args = Some sc → sc ≠ [] →
                            startsWith (code m) sc = true).
    { intros sc Hsc Hne. rewrite Hsc in Hpre. simpl in Hpre.
      destruct sc; [done|]. simpl in Hpre. exact Hpre. }
    split_and!; [by exists m | done |].
    intros sidoName sc Hsido Hsc.
    pose proof (SIDO_CODE_MAP_two sidoName sc Hsido) as Hlen.
    split; [done|]. rewrite <- Hlen. apply startsWith_take, Hprefix; [done|].
    by destruct sc.
Qed.

Lemma resolveSigunguCode_in_gazetteer_witness :
  (∃ m, m ∈ (readMunicipalities None incheonGazetteer).1
        ∧ code m = js "23030"
        ∧ Some (js "남구") = Some (name m))
  ∧ take 2 (js "23030") = js "23".
Proof.
  destruct (resolveSigunguCode_in_gazetteer None incheonGazetteer michuholAddress
              {| sigunguCode := Some (js "23030"); r_sigunguName := Some (js "남구") |}
              (js "23030")) as (Hentry & _ & Hprovince).
  - vm_compute. reflexivity.
  - reflexivity.
  - split; [exact Hentry|].
    apply (Hprovince (Some (js "인천")) (js "23")); vm_compute; reflexivity.
Defined.

(** *** The alias table *)

Lemma readMunicipalities_cacheOf parsed cache :
  cacheOf parsed cache →
  readMunicipalities cache parsed
  = (loadMunicipalities parsed, Some (loadMunicipalities parsed)).
Proof. by intros [-> | ->]. Qed.

Lemma loadMunicipalities_norm parsed m :
  m ∈ loadMunicipalities parsed → norm m = normalizeKorean (name m).
Proof.
  unfold loadMunicipalities. rewrite list_elem_of_filter, list_elem_of_fmap.
  intros [_ (f & -> & _)]. reflexivity.
Qed.

Lemma setAdd_cons x a s : ∃ s', setAdd x (a :: s) = a :: s'.
Proof. unfold setAdd. case_bool_decide; simpl; eauto. Qed.

(** The second token, when it is not empty, is the first candidate. *)
Lemma candidatesOfTokens_second first second others :
  truthy second = true →
  ∃ more, candidatesOfTokens (first :: second :: others) = second :: more.
Proof.
  intros Hsecond. unfold candidatesOfTokens.
  change (length (first :: second :: others) <? 2)%nat with false.
  change (default [] ((first :: second :: others) !! 1%nat)) with second.
  set (third := default [] _). rewrite Hsecond.
  change (setAdd second []) with [second]. cbn [andb].
  destruct (setAdd_cons (second ++ third) second []) as [s2 Hs2].
  destruct (setAdd_cons (second ++ third) second s2) as [s3 Hs3].
  cbv zeta.
  destruct (truthy third && endsWith third GU);
    destruct (truthy third && (endsWith second GUN || endsWith second SI)
              && endsWith third GU);
    rewrite ?Hs2, ?Hs3; eauto.
Qed.

Lemma addressTokens_michuhol (tail : jsstr) :
  addressTokens (js "인천 미추홀구 " ++ tail)
  = js "인천" :: MICHUHOL_GU
    :: filter (λ token, truthy token = true) (trim <$> splitSpacesFrom [] true tail).
Proof.
  unfold addressTokens.
  replace (splitSpaces (js "인천 미추홀구 " ++ tail))
    with (js "인천" :: MICHUHOL_GU :: splitSpacesFrom [] true tail)
    by (vm_compute; reflexivity).
  rewrite !fmap_cons.
  replace (trim (js "인천")) with (js "인천") by (vm_compute; reflexivity).
  replace (trim MICHUHOL_GU) with MICHUHOL_GU by (vm_compute; reflexivity).
  rewrite (filter_cons_True _ (js "인천")) by (vm_compute; reflexivity).
  rewrite (filter_cons_True _ MICHUHOL_GU) by (vm_compute; reflexivity).
  reflexivity.
Qed.

Lemma extract_michuhol (tail : jsstr) :
  ∃ more, extractSigunguCandidates (Some (js "인천 미추홀구 " ++ tail))
          = MICHUHOL_GU :: more.
Proof.
  unfold extractSigunguCandidates.
  replace (truthy (js "인천 미추홀구 " ++ tail)) with true by (vm_compute; reflexivity).
  rewrite addressTokens_michuhol.
  apply candidatesOfTokens_second. vm_compute. reflexivity.
Qed.

Lemma candidatesOf_michuhol (tail : jsstr) :
  ∃ more, candidatesOf {| sidoCode := Some INCHEON; sigunguName := None;
                          address := Some (js "인천 미추홀구 " ++ tail) |}
          = MICHUHOL_GU :: more.
Proof.
  unfold candidatesOf. cbn [sigunguName address truthyOpt app].
  destruct (extract_michuhol tail) as [more ->].
  rewrite fmap_cons.
  replace (normalizeKorean MICHUHOL_GU) with MICHUHOL_GU by (vm_compute; reflexivity).
  rewrite filter_cons_True by (vm_compute; reflexivity). eauto.
Qed.

Lemma expand_michuhol : expandSigunguAliases MICHUHOL_GU = Normal [MICHUHOL_GU; NAM_GU].
Proof. vm_compute. reflexivity. Qed.

Lemma expand_namgu : expandSigunguAliases NAM_GU = Normal [NAM_GU].
Proof. vm_compute. reflexivity. Qed.

(** C6, as the code has it.  The table lists [남구] as an alias that is
    tried for a candidate [미추홀구]: when the loaded gazetteer carries
    municipality 23030 under the name [남구], no entry of the province
    equals or suffix-matches [미추홀구], and 23030 is the only entry of the
    province whose normalized name is [남구], then an address
    ["인천 미추홀구 ..."] with province code 23 and no explicit name resolves
    to code 23030. *)
Theorem alias_michuhol_to_namgu
    (cache : option (list Municipality)) (parsed : MunicipalityCollection)
    (tail : jsstr) :
  cacheOf parsed cache →
  (∃ m, m ∈ loadMunicipalities parsed ∧ code m = js "23030" ∧ name m = NAM_GU) →
  (∀ m, m ∈ loadMunicipalities parsed → startsWith (code m) INCHEON = true →
        suffixRelated (norm m) MICHUHOL_GU = false) →
  (∀ m, m ∈ loadMunicipalities parsed → startsWith (code m) INCHEON = true →
        norm m = NAM_GU → code m = js "23030") →
  ∃ r, (resolveSigunguCode cache parsed
          {| sidoCode := Some INCHEON; sigunguName := None;
             address := Some (js "인천 미추홀구 " ++ tail) |}).1 = Normal r
       ∧ sigunguCode r = Some (js "23030").
Proof.
  intros Hcache (m0 & Hm0 & Hcode0 & Hname0) Hnone Honly.
  unfold resolveSigunguCode.
  rewrite (readMunicipalities_cacheOf _ _ Hcache).
  destruct (candidatesOf_michuhol tail) as [more Hcand].
  rewrite Hcand. cbn [fst sidoCode].
  set (pool := poolOf (loadMunicipalities parsed) (Some INCHEON)).
  assert (Hpool : ∀ m, m ∈ pool ↔
            m ∈ loadMunicipalities parsed ∧ startsWith (code m) INCHEON = true).
  { intros m. unfold pool. rewrite elem_of_poolOf. reflexivity. }
  assert (Hm0p : m0 ∈ pool).
  { apply Hpool. split; [done|]. rewrite Hcode0. vm_compute. reflexivity. }
  cbn [tryCandidates]. rewrite expand_michuhol. cbn [tryExpanded].
  destruct (List.find (λ item, eqb (norm item) MICHUHOL_GU) pool) as [x|] eqn:Hx.
  { exfalso. apply find_elem_of in Hx as [Hin Heq]. apply eqb_true in Heq.
    apply Hpool in Hin as [Hin Hpre]. specialize (Hnone x Hin Hpre).
    rewrite Heq in Hnone. vm_compute in Hnone. discriminate. }
  destruct (List.find (λ item, orb _ _) pool) as [x|] eqn:Hx2.
  { exfalso. apply find_elem_of in Hx2 as [Hin Hs].
    apply Hpool in Hin as [Hin Hpre]. specialize (Hnone x Hin Hpre).
    unfold suffixRelated in Hnone. congruence. }
  destruct (List.find (λ item, eqb (norm item) NAM_GU) pool) as [x|] eqn:Hx3.
  { apply find_elem_of in Hx3 as [Hin Heq]. apply eqb_true in Heq.
    apply Hpool in Hin as [Hin Hpre].
    eexists. split; [reflexivity|]. simpl. f_equal. by apply Honly. }
  exfalso. apply (find_none_elem_of _ _ m0) in Hx3; [|done].
  cbv beta in Hx3. rewrite (loadMunicipalities_norm parsed m0 Hm0), Hname0 in Hx3.
  vm_compute in Hx3. discriminate.
Qed.

Lemma alias_michuhol_to_namgu_witness :
  ∃ r, (resolveSigunguCode None incheonGazetteer
          {| sidoCode := Some INCHEON; sigunguName := None;
             address := Some (js "인천 미추홀구 " ++ js "인하로 100") |}).1 = Normal r
       ∧ sigunguCode r = Some (js "23030").
Proof.
  apply (alias_michuhol_to_namgu None incheonGazetteer (js "인하로 100")).
  - left. reflexivity.
  - eexists {| code := js "23030"; name := NAM_GU; norm := NAM_GU |}.
    split; [|split]; [|reflexivity|reflexivity].
    vm_compute. apply list_elem_of_In. simpl. tauto.
  - intros m Hm Hpre.
    apply list_elem_of_In in Hm. vm_compute in Hm.
    destruct Hm as [<- | [<- | [<- | []]]]; vm_compute in Hpre |- *;
      first [reflexivity | discriminate].
  - intros m Hm Hpre Hnorm.
    apply list_elem_of_In in Hm. vm_compute in Hm.
    destruct Hm as [<- | [<- | [<- | []]]]; vm_compute in Hpre, Hnorm |- *;
      first [reflexivity | discriminate].
Defined.

(** C6, as the spec states it, fails: with the gazetteer naming 23030
    [미추홀구], an address ["인천 남구 ..."] yields the candidate [남구], for
    which the alias table has no entry; nothing of the province matches and
    the code is null. *)
Lemma alias_namgu_counterexample :
  (∃ m, m ∈ (readMunicipalities None michuholGazetteer).1
        ∧ code m = js "23030" ∧ name m = js "미추홀구")
  ∧ (resolveSigunguCode None michuholGazetteer
       {| sidoCode := Some (js "23"); sigunguName := None;
          address := Some (js "인천 남구 인하로 100") |}).1
    = Normal {| sigunguCode := None; r_sigunguName := Some (js "남구") |}.
Proof.
  split.
  - eexists {| code := js "23030"; name := js "미추홀구"; norm := js "미추홀구" |}.
    split; [|split]; [|reflexivity|reflexivity].
    vm_compute. apply list_elem_of_In. simpl. tauto.
  - vm_compute. reflexivity.
Qed.

End RegionsProps.

(** ** Properties of the region statistics *)

Module RegionStatsProps.
Import RegionStats RegionStatsSpec.

(** *** Pagination returns the whole ordered selection *)

Lemma pageSize_pos : (0 < pageSize)%nat.
Proof. unfold pageSize. lia. Qed.

Lemma fetchLoop_enough (fuel : nat) (q : list FetchedVote) :
  ∀ offset collected,
    (length q - offset < fuel)%nat →
    fetchLoop fuel q offset collected = Some (collected ++ drop offset q).
Proof.
  pose proof pageSize_pos as Hpos.
  induction fuel as [|fuel IH]; intros offset collected Hfuel; [lia|].
  - cbn [fetchLoop]. unfold range.
    destruct (Nat.ltb_spec (length (take pageSize (drop offset q))) pageSize) as [Hlt|Hge].
    + rewrite take_ge; [done|].
      rewrite length_take in Hlt. lia.
    + rewrite IH.
      * rewrite <- (assoc_L (++)). do 2 f_equal.
        rewrite <- (take_drop pageSize (drop offset q)) at 2.
        by rewrite drop_drop.
      * rewrite length_take, length_drop in Hge. lia.
Qed.

Lemma fetchAllVotesByTopic_total (db : Database) (topicId : jsstr) :
  fetchAllVotesByTopic db topicId = Some (selectVotes db topicId).
Proof.
  unfold fetchAllVotesByTopic. rewrite fetchLoop_enough by lia. done.
Qed.

(** *** The winner of a region *)

Lemma winnerOf_rule (st : RegionVoteStat) :
  winner st = winnerOf (countA st) (countB st) → winnerRule st.
Proof.
  intros H. unfold winnerRule. rewrite H. unfold winnerOf.
  destruct (N.ltb_spec (countB st) (countA st));
    destruct (N.ltb_spec (countA st) (countB st));
    repeat split; intros; try done; lia.
Qed.

Lemma consistent_empty : consistent ∅.
Proof. intros k st. by rewrite lookup_empty. Qed.

Lemma assign_lookup (m : RegionVoteMap) k v k' :
  assign m k v !! k' =
  if eqb k PROTO then m !! k' else if decide (k = k') then Some v else m !! k'.
Proof.
  unfold assign. destruct (eqb k PROTO); [done|].
  rewrite lookup_insert. by destruct (decide (k = k')).
Qed.

Lemma consistent_assign m k v :
  consistent m → winner v = winnerOf (countA v) (countB v) →
  consistent (assign m k v).
Proof.
  intros Hm Hv k' st. rewrite assign_lookup.
  destruct (eqb k PROTO); [apply Hm|].
  destruct (decide (k = k')); [|apply Hm].
  intros H; injection H as <-. done.
Qed.

Lemma buildStep_consistent level a b st row :
  consistent (statsByCode st) →
  consistent (statsByCode (buildStep level a b st row)).
Proof.
  intros Hst. unfold buildStep.
  destruct (normalizeCode (regionCodeRaw level row)) as [regionCode|]; [|done].
  destruct (eqb (option_key row) a); [|destruct (eqb (option_key row) b)];
    cbn [statsByCode]; by apply consistent_assign.
Qed.

Lemma foldl_buildStep_consistent level a b rows : ∀ st,
  consistent (statsByCode st) →
  consistent (statsByCode (foldl (buildStep level a b) st rows)).
Proof.
  induction rows as [|row rows IH]; intros st Hst; [done|].
  cbn [foldl]. by apply IH, buildStep_consistent.
Qed.

Lemma parseWinner_sql (ca cb : N) :
  parseWinner (if cb <? ca then js "A" else if ca <? cb then js "B" else js "TIE")
  = winnerOf ca cb.
Proof.
  unfold winnerOf. destruct (cb <? ca); [|destruct (ca <? cb)]; by vm_compute.
Qed.

Lemma get_region_vote_stats_rows db topic level :
  Forall sqlRow (get_region_vote_stats db topic level).
Proof.
  unfold get_region_vote_stats. apply Forall_fmap, Forall_forall.
  intros r _. unfold sqlRow. cbn [compose rpc_winner count_a count_b].
  apply parseWinner_sql.
Qed.

Lemma foldl_rpcStep_consistent rows : ∀ st,
  Forall sqlRow rows →
  consistent (statsByCode st) →
  consistent (statsByCode (foldl rpcStep st rows)).
Proof.
  induction rows as [|row rows IH]; intros st Hrows Hst; [done|].
  inversion Hrows as [|? ? Hrow Hrest]; subst.
  cbn [foldl]. apply IH; [done|].
  unfold rpcStep. destruct (truthy _); [|done].
  cbn [statsByCode]. by apply consistent_assign.
Qed.

Lemma slowStats_consistent rows level a b :
  consistent (buildStatsFromVoteRows rows level a b).1.
Proof. apply foldl_buildStep_consistent, consistent_empty. Qed.

Lemma fastStats_consistent db topic level :
  consistent (fastPath db topic level).1.
Proof.
  apply foldl_rpcStep_consistent;
    [apply get_region_vote_stats_rows | apply consistent_empty].
Qed.

(** C8.  In every per-region entry the handler returns, whether it comes
    from the rows of [get_region_vote_stats] or from
    [buildStatsFromVoteRows], the winner is A exactly when countA exceeds
    countB, B exactly when countB exceeds countA, and TIE exactly when the
    two are equal. *)
Theorem winner_tie_break (db : Database) (topicId : jsstr) (level : RegionLevel) :
  (∀ k st, (fastPath db topicId level).1 !! k = Some st → winnerRule st)
  ∧ (∀ rows optionA optionB k st,
        (buildStatsFromVoteRows rows level optionA optionB).1 !! k = Some st →
        winnerRule st)
  ∧ (∀ stats summary k st,
        GET db topicId level = Ok200 stats summary →
        stats !! k = Some st → winnerRule st).
Proof.
  split_and!.
  - intros k st H. by eapply winnerOf_rule, fastStats_consistent.
  - intros rows a b k st H. by eapply winnerOf_rule, slowStats_consistent.
  - intros stats summary k st. unfold GET.
    pose proof (fastStats_consistent db topicId level) as Hfast.
    destruct (fastPath db topicId level) as [fs fsum]. cbn [fst] in Hfast.
    destruct (0 <? size fs)%nat.
    + intros H; injection H as <- <-. intros Hk. by eapply winnerOf_rule, Hfast.
    + unfold slowPath.
      destruct (optionAt db topicId 1) as [oa|]; [|done].
      destruct (optionAt db topicId 2) as [ob|]; [|done].
      destruct (truthy oa && truthy ob); [|done].
      rewrite fetchAllVotesByTopic_total.
      pose proof (slowStats_consistent (selectVotes db topicId) level oa ob) as Hslow.
      destruct (buildStatsFromVoteRows _ level oa ob) as [ss ssum]. cbn [fst] in Hslow.
      intros H; injection H as <- <-. intros Hk. by eapply winnerOf_rule, Hslow.
Qed.

Lemma winner_tie_break_witness :
  winnerRule {| winner := A; total := 1; countA := 1; countB := 0 |}.
Proof.
  apply (proj2 (proj2 (winner_tie_break mixedDb (js "popular-vote") sido))
           {[ js "11" := {| winner := A; total := 1; countA := 1; countB := 0 |} ]}
           {| totalVotes := 1; sumA := 1; sumB := 0 |}
           (js "11")).
  - vm_compute. reflexivity.
  - vm_compute. reflexivity.
Defined.

(** *** Which rows the slow path counts, and where *)

Lemma regionCodeRaw_selected level row :
  regionCodeRaw level row = selectedCode level row.
Proof.
  unfold regionCodeRaw, selectedCode, directCode, linkedCode, orElse.
  destruct level; [destruct (sido_code row) | destruct (sigungu_code row)]; try done;
    by destruct (resolveSchoolCode (school row) ≫= _).
Qed.

Lemma normalizeCode_None (value : option jsstr) :
  normalizeCode value = None ↔ value = None ∨ ∃ s, value = Some s ∧ trim s = [].
Proof.
  unfold normalizeCode. destruct value as [[|c r]|].
  - split; [|done]. intros _. right. by exists [].
  - cbn [truthy]. destruct (trim (c :: r)) as [|t ts] eqn:Htrim; cbn.
    + split; [|done]. intros _. right. by exists (c :: r).
    + split; [done|]. intros [|(s & Hs & Hblank)]; [done|].
      injection Hs as <-. congruence.
  - split; [|done]. by left.
Qed.

Lemma normalizeCode_Some (value : option jsstr) (k : jsstr) :
  normalizeCode value = Some k ↔ ∃ s, value = Some s ∧ trim s = k ∧ k ≠ [].
Proof.
  unfold normalizeCode. destruct value as [[|c r]|].
  - split; [done|]. intros (s & Hs & Htrim & Hk). injection Hs as <-.
    by vm_compute in Htrim.
  - cbn [truthy]. destruct (trim (c :: r)) as [|t ts] eqn:Htrim; cbn.
    + split; [done|]. intros (s & Hs & Hk & Hne). injection Hs as <-. congruence.
    + split.
      * intros H; injection H as <-. exists (c :: r). by rewrite Htrim.
      * intros (s & Hs & Hk & _). injection Hs as <-. congruence.
  - split; [done|]. by intros (s & ? & _).
Qed.

Lemma eqb_PROTO_false k : k ≠ PROTO → eqb k PROTO = false.
Proof. intros H. unfold eqb. by apply bool_decide_eq_false. Qed.

Lemma statAt_assign_eq m k v : k ≠ PROTO → statAt (assign m k v) k = v.
Proof.
  intros Hk. unfold statAt. rewrite assign_lookup, (eqb_PROTO_false k Hk).
  by rewrite decide_True.
Qed.

Lemma statAt_assign_ne m k k' v : k ≠ k' → statAt (assign m k v) k' = statAt m k'.
Proof.
  intros Hk. unfold statAt. rewrite assign_lookup.
  destruct (eqb k PROTO); [done|]. by rewrite decide_False.
Qed.

Lemma statsByCode_buildStep level a b st row :
  statsByCode (buildStep level a b st row) =
  match countedUnder level row with
  | None => statsByCode st
  | Some regionCode =>
    let current := statAt (statsByCode st) regionCode in
    let nextA := countA current + indicator (eqb (option_key row) a) in
    let nextB := countB current + indicator (eqb (option_key row) b) in
    assign (statsByCode st) regionCode
      {| countA := nextA; countB := nextB; total := total current + 1;
         winner := winnerOf nextA nextB |}
  end.
Proof.
  unfold buildStep, countedUnder.
  destruct (normalizeCode (regionCodeRaw level row)) as [regionCode|]; [|done].
  by destruct (eqb (option_key row) a); [|destruct (eqb (option_key row) b)].
Qed.

Lemma buildStep_statAt level a b st row k :
  k ≠ PROTO →
  let s0 := statAt (statsByCode st) k in
  let s1 := statAt (statsByCode (buildStep level a b st row)) k in
  let '(t, ca, cb) := contribution level a b k row in
  total s1 = total s0 + t ∧ countA s1 = countA s0 + ca ∧ countB s1 = countB s0 + cb.
Proof.
  intros Hk. cbv zeta. rewrite statsByCode_buildStep. unfold contribution.
  destruct (countedUnder level row) as [regionCode|].
  - case_bool_decide as Hc.
    + injection Hc as ->. rewrite statAt_assign_eq by done. cbn. done.
    + rewrite statAt_assign_ne by congruence. lia.
  - rewrite bool_decide_eq_false_2 by done. lia.
Qed.

Lemma foldl_buildStep_statAt level a b k rows : ∀ st,
  k ≠ PROTO →
  let s0 := statAt (statsByCode st) k in
  let s1 := statAt (statsByCode (foldl (buildStep level a b) st rows)) k in
  let '(t, ca, cb) := sumContributions level a b k rows in
  total s1 = total s0 + t ∧ countA s1 = countA s0 + ca ∧ countB s1 = countB s0 + cb.
Proof.
  induction rows as [|row rows IH]; intros st Hk; cbn [foldl sumContributions].
  - lia.
  - specialize (IH (buildStep level a b st row) Hk). cbv zeta in IH.
    pose proof (buildStep_statAt level a b st row k Hk) as Hstep. cbv zeta in Hstep.
    destruct (contribution level a b k row) as [[t ca] cb].
    destruct (sumContributions level a b k rows) as [[t' ca'] cb'].
    lia.
Qed.

Lemma sumContributions_total level a b k rows :
  (sumContributions level a b k rows).1.1
  = countWhere (fun row => countedUnder level row = Some k) rows.
Proof.
  unfold countWhere. induction rows as [|row rows IH]; [done|].
  cbn [sumContributions]. unfold contribution at 1.
  destruct (sumContributions level a b k rows) as [[t' ca'] cb']. cbn in IH. subst t'.
  rewrite filter_cons. case_bool_decide as Hc.
  - rewrite decide_True by done. cbn [fst length]. lia.
  - rewrite decide_False by done. cbn [fst]. lia.
Qed.

(** Keys that no row is counted under never appear; [__proto__] never does. *)
Lemma foldl_buildStep_absent level a b k rows : ∀ st,
  statsByCode st !! k = None →
  (k = PROTO ∨ Forall (fun row => countedUnder level row ≠ Some k) rows) →
  statsByCode (foldl (buildStep level a b) st rows) !! k = None.
Proof.
  induction rows as [|row rows IH]; intros st Hst Hrows; [done|].
  cbn [foldl]. apply IH.
  - rewrite statsByCode_buildStep.
    destruct (countedUnder level row) as [regionCode|] eqn:Hc; [|done].
    cbv zeta. rewrite assign_lookup.
    destruct (eqb regionCode PROTO) eqn:Hp; [done|].
    destruct (decide (regionCode = k)) as [->|]; [|done].
    destruct Hrows as [-> | Hall].
    + unfold eqb in Hp. by apply bool_decide_eq_false in Hp.
    + by inversion Hall.
  - destruct Hrows as [|Hall]; [by left | right; by inversion Hall].
Qed.

(** C7, as the code has it (slow path).  A fetched row is skipped exactly
    when the code selected for the level, the row's own code if that is not
    null and otherwise the code of its linked school, is null or consists of
    white space only; every other row is counted once, under the trimmed
    selected code, so that the total of a region (other than the property
    name [__proto__], which never becomes an entry) is the number of rows
    counted under it.  In particular a row without a code of its own whose
    school carries a usable code is counted under the school's code. *)
Theorem slow_path_counts (rows : list FetchedVote) (level : RegionLevel)
    (optionA optionB : jsstr) :
  (∀ row, countedUnder level row = None ↔
          selectedCode level row = None
          ∨ ∃ s, selectedCode level row = Some s ∧ trim s = [])
  ∧ (∀ row k, countedUnder level row = Some k ↔
              ∃ s, selectedCode level row = Some s ∧ trim s = k ∧ k ≠ [])
  ∧ (∀ k, k ≠ PROTO →
          total (statAt (buildStatsFromVoteRows rows level optionA optionB).1 k)
          = countWhere (fun row => countedUnder level row = Some k) rows)
  ∧ (∀ row s, directCode level row = None → linkedCode level row = Some s →
              trim s ≠ [] → countedUnder level row = Some (trim s)).
Proof.
  split_and!.
  - intros row. unfold countedUnder. rewrite regionCodeRaw_selected.
    apply normalizeCode_None.
  - intros row k. unfold countedUnder. rewrite regionCodeRaw_selected.
    apply normalizeCode_Some.
  - intros k Hk. unfold buildStatsFromVoteRows. cbn [fst].
    pose proof (foldl_buildStep_statAt level optionA optionB k rows
                  {| statsByCode := ∅; totalA := 0; totalB := 0 |} Hk) as H.
    cbv zeta in H. rewrite <- (sumContributions_total level optionA optionB).
    destruct (sumContributions level optionA optionB k rows) as [[t ca] cb].
    destruct H as [-> _]. cbn [statsByCode fst]. unfold statAt.
    rewrite lookup_empty. cbn. lia.
  - intros row s Hdirect Hlinked Hs. unfold countedUnder.
    rewrite regionCodeRaw_selected. apply normalizeCode_Some.
    exists s. unfold selectedCode. rewrite Hdirect. done.
Qed.

Lemma slow_path_counts_witness :
  total (statAt (buildStatsFromVoteRows [ownCodeRow; schoolOnlyRow] sido
                   (js "seoul") (js "busan")).1 (js "11")) = 2
  ∧ countedUnder sido schoolOnlyRow = Some (js "11").
Proof.
  pose proof (slow_path_counts [ownCodeRow; schoolOnlyRow] sido (js "seoul") (js "busan"))
    as (_ & _ & Htotal & Hschool).
  split.
  - rewrite (Htotal (js "11")); [vm_compute; reflexivity|].
    vm_compute. discriminate.
  - apply (Hschool schoolOnlyRow (js "11")); [reflexivity | reflexivity|].
    vm_compute. discriminate.
Defined.

(** C7, as the spec states it, fails on both paths.  Slow path: a row whose
    own code is the empty string is skipped although its school carries a
    usable code, and a row whose own code is a blank is skipped although it
    is neither null nor empty.  Fast path: the row without a code of its own
    is not counted under the code of its school. *)
Lemma exclusion_counterexample :
  (directCode sido emptyOwnCodeRow = Some []
   ∧ linkedCode sido emptyOwnCodeRow = Some (js "11")
   ∧ (buildStatsFromVoteRows [emptyOwnCodeRow] sido (js "seoul") (js "busan")).1 = ∅)
  ∧ (directCode sido blankOwnCodeRow = Some (js " ")
     ∧ (buildStatsFromVoteRows [blankOwnCodeRow] sido (js "seoul") (js "busan")).1 = ∅)
  ∧ (selectVotes mixedDb (js "popular-vote") !! 1%nat
       = Some {| option_key := js "busan"; sido_code := None; sigungu_code := None;
                 school := SchoolObject {| sc_sido_code := Some (js "11");
                                           sc_sigungu_code := Some (js "11220") |} |}
     ∧ (fastPath mixedDb (js "popular-vote") sido).1
       = {[ js "11" := {| winner := A; total := 1; countA := 1; countB := 0 |} ]}).
Proof. vm_compute. repeat split; reflexivity. Qed.

(** *** The two paths on the same votes *)

(** When every vote of the topic carries a usable code of its own and is
    joined with exactly one option, the rows of [get_region_vote_stats] and
    [buildStatsFromVoteRows] give the same answer. *)

Lemma countWhere_fmap {S T} (f : S → T) (P : T → Prop) `{∀ x, Decision (P x)} (l : list S) :
  countWhere P (f <$> l) = countWhere (fun x => P (f x)) l.
Proof.
  unfold countWhere. f_equal. induction l as [|x l IH]; [done|].
  rewrite fmap_cons, !filter_cons. destruct (decide (P (f x))); cbn [length]; by rewrite IH.
Qed.

Lemma countWhere_ext_in {T} (P Q : T → Prop) `{∀ x, Decision (P x)} `{∀ x, Decision (Q x)}
    (l : list T) :
  (∀ x, x ∈ l → P x ↔ Q x) → countWhere P l = countWhere Q l.
Proof.
  unfold countWhere. intros Hext. f_equal. induction l as [|x l IH]; [done|].
  rewrite !filter_cons.
  assert (length (filter P l) = length (filter Q l)) as Hl.
  { apply IH. intros y Hy. apply Hext. by right. }
  pose proof (Hext x (list_elem_of_here _ _)) as Hx.
  destruct (decide (P x)), (decide (Q x)); cbn [length]; try tauto; by rewrite Hl.
Qed.

Lemma countWhere_perm {T} (P : T → Prop) `{∀ x, Decision (P x)} (l l' : list T) :
  l ≡ₚ l' → countWhere P l = countWhere P l'.
Proof. intros Hp. unfold countWhere. by rewrite Hp. Qed.

Lemma countWhere_filter {T} (P Q : T → Prop) `{∀ x, Decision (P x)} `{∀ x, Decision (Q x)}
    (l : list T) :
  countWhere Q (filter P l) = countWhere (fun x => Q x ∧ P x) l.
Proof. unfold countWhere. by rewrite list_filter_filter. Qed.

Lemma countWhere_zero {T} (P : T → Prop) `{∀ x, Decision (P x)} (l : list T) :
  countWhere P l = 0 ↔ ∀ x, x ∈ l → ¬ P x.
Proof.
  unfold countWhere. split.
  - intros H0 x Hx HP.
    assert (x ∈ filter P l) as Hin by by apply list_elem_of_filter.
    destruct (filter P l); [by apply elem_of_nil in Hin | done].
  - intros Hall. destruct (filter P l) as [|x r] eqn:Hf; [done|].
    assert (x ∈ filter P l) as Hin by (rewrite Hf; left).
    apply list_elem_of_filter in Hin as [HP Hx]. by destruct (Hall x Hx).
Qed.

Lemma insertByCreatedAt_perm v l : insertByCreatedAt v l ≡ₚ v :: l.
Proof.
  induction l as [|w r IH]; [done|]. cbn [insertByCreatedAt].
  destruct (v_created_at v <? v_created_at w); [done|].
  rewrite IH. apply perm_swap.
Qed.

Lemma orderByCreatedAt_perm l : orderByCreatedAt l ≡ₚ l.
Proof.
  unfold orderByCreatedAt. induction l as [|v l IH]; [done|].
  cbn [foldr]. by rewrite insertByCreatedAt_perm, IH.
Qed.

Lemma sumContributions_counts level a b k rows :
  sumContributions level a b k rows
  = (countWhere (fun row => countedUnder level row = Some k) rows,
     countWhere (fun row => option_key row = a ∧ countedUnder level row = Some k) rows,
     countWhere (fun row => option_key row = b ∧ countedUnder level row = Some k) rows).
Proof.
  unfold countWhere. induction rows as [|row rows IH]; [done|].
  cbn [sumContributions]. rewrite IH. unfold contribution, eqb, indicator.
  rewrite !filter_cons.
  destruct (decide (countedUnder level row = Some k)) as [Hc|Hc].
  - rewrite (bool_decide_eq_true_2 _ Hc).
    destruct (decide (option_key row = a)) as [Ha|Ha],
             (decide (option_key row = b)) as [Hb|Hb];
      repeat first [rewrite (bool_decide_eq_true_2 _ Ha) | rewrite (bool_decide_eq_false_2 _ Ha)
                   | rewrite (bool_decide_eq_true_2 _ Hb) | rewrite (bool_decide_eq_false_2 _ Hb)];
      repeat first [rewrite decide_True by done | rewrite decide_False by tauto];
      cbn [length]; first [done | f_equal; [f_equal|..]; lia].
  - rewrite (bool_decide_eq_false_2 _ Hc).
    rewrite !(decide_False (P := _ ∧ _)) by tauto. done.
Qed.

Lemma slow_lookup rows level a b k :
  (buildStatsFromVoteRows rows level a b).1 !! k =
  let t := countWhere (fun row => countedUnder level row = Some k) rows in
  let ca := countWhere (fun row => option_key row = a ∧ countedUnder level row = Some k) rows in
  let cb := countWhere (fun row => option_key row = b ∧ countedUnder level row = Some k) rows in
  if decide (k ≠ PROTO ∧ t ≠ 0)
  then Some {| winner := winnerOf ca cb; total := t; countA := ca; countB := cb |}
  else None.
Proof.
  cbv zeta. unfold buildStatsFromVoteRows. cbn [fst].
  set (st0 := {| statsByCode := ∅; totalA := 0; totalB := 0 |}).
  destruct (decide (k = PROTO)) as [Hk|Hk].
  { rewrite decide_False by tauto. apply foldl_buildStep_absent; [done | by left]. }
  pose proof (foldl_buildStep_statAt level a b k rows st0 Hk) as H. cbv zeta in H.
  rewrite sumContributions_counts in H.
  pose proof (foldl_buildStep_consistent level a b rows st0 consistent_empty k) as Hcons.
  unfold statAt in H. cbn [statsByCode st0] in H. rewrite lookup_empty in H.
  cbn [default zeroStat total countA countB] in H. rewrite !N.add_0_l in H.
  destruct (decide (countWhere (fun row => countedUnder level row = Some k) rows = 0))
    as [Hz|Hz].
  - rewrite decide_False by tauto.
    apply foldl_buildStep_absent; [done|]. right. apply Forall_forall.
    intros row Hrow. exact (proj1 (countWhere_zero _ rows) Hz row Hrow).
  - rewrite decide_True by tauto.
    destruct (statsByCode (foldl (buildStep level a b) st0 rows) !! k) as [st|].
    + specialize (Hcons st eq_refl). destruct st as [w t ca cb]. cbn in *.
      destruct H as (-> & -> & ->). by rewrite Hcons.
    + cbn in H. destruct H as [H _]. by rewrite <- H in Hz.
Qed.

Lemma foldl_rpcStep_lookup (mk : jsstr → RegionStatsRpcRow) (regions : list jsstr) k :
  (∀ r, region (mk r) = Some r) →
  (∀ r, r ∈ regions → r ≠ [] ∧ trim r = r) →
  ∀ st, statsByCode (foldl rpcStep st (mk <$> regions)) !! k
        = if decide (k ∈ regions ∧ k ≠ PROTO) then Some (statOfRow (mk k))
          else statsByCode st !! k.
Proof.
  intros Hmk. induction regions as [|r rs IH]; intros Hrs st.
  - cbn. rewrite (decide_False (P := _ ∧ _)); [done|]. intros [H _]. by apply elem_of_nil in H.
  - rewrite fmap_cons. cbn [foldl]. rewrite IH by (intros; apply Hrs; by right).
    destruct (Hrs r (list_elem_of_here _ _)) as [Hne Htrim].
    destruct (decide (k ∈ rs ∧ k ≠ PROTO)) as [[Hin Hk]|Hn].
    + rewrite (decide_True (P := _ ∧ _)); [done|]. split; [by right | done].
    + unfold rpcStep. rewrite Hmk. change (default [] (Some r)) with r. rewrite Htrim.
      destruct r as [|c r']; [done|]. cbn [truthy statsByCode].
      rewrite assign_lookup. fold (statOfRow (mk (c :: r'))).
      destruct (eqb (c :: r') PROTO) eqn:Hp.
      * unfold eqb in Hp. apply bool_decide_eq_true in Hp.
        rewrite (decide_False (P := _ ∧ _)); [done|]. intros [Hin Hk].
        apply elem_of_cons in Hin as [->|Hin]; [done|]. tauto.
      * unfold eqb in Hp. apply bool_decide_eq_false in Hp. case_decide as Heq.
        -- subst k. rewrite (decide_True (P := _ ∧ _)); [done|]. split; [left | done].
        -- rewrite (decide_False (P := _ ∧ _)); [done|]. intros [Hin Hk].
           apply elem_of_cons in Hin as [->|Hin]; [done|]. tauto.
Qed.

Lemma bind_singleton {S T} (f : S → list T) (g : S → T) (l : list S) :
  (∀ x, x ∈ l → f x = [g x]) → l ≫= f = g <$> l.
Proof.
  induction l as [|x l IH]; intros Hf; [done|].
  rewrite bind_cons, fmap_cons, (Hf x (list_elem_of_here _ _)), IH; [done|].
  intros y Hy. apply Hf. by right.
Qed.

Lemma selectVotes_fetched db topic :
  selectVotes db topic = fetched db <$> orderByCreatedAt (topicVotes db topic).
Proof. reflexivity. Qed.

Lemma countedUnder_fetched db level v :
  usableOwnCode level v → countedUnder level (fetched db v) = ownCode level v.
Proof.
  intros (s & Hs & Hne & Htrim). rewrite Hs. unfold countedUnder.
  rewrite regionCodeRaw_selected. apply normalizeCode_Some. exists s.
  split; [|by rewrite Htrim].
  unfold selectedCode, directCode, ownCode, fetched in *.
  destruct level; cbn [sido_code sigungu_code]; by rewrite Hs.
Qed.

Lemma sumOver_ext {T} (f g : T → N) (l : list T) :
  (∀ r, r ∈ l → f r = g r) → sumOver f l = sumOver g l.
Proof.
  induction l as [|r l IH]; intros Hfg; [done|]. cbn [sumOver foldr].
  rewrite (Hfg r (list_elem_of_here _ _)). fold (sumOver f l) (sumOver g l).
  rewrite IH; [done|]. intros y Hy. apply Hfg. by right.
Qed.

Lemma countWhere_cons {T} (P : T → Prop) `{∀ x, Decision (P x)} (x : T) (l : list T) :
  countWhere P (x :: l) = (if decide (P x) then 1 else 0) + countWhere P l.
Proof.
  unfold countWhere. rewrite filter_cons. destruct (decide (P x)); cbn [length]; lia.
Qed.

Lemma countWhere_or {T} (P Q : T → Prop) `{∀ x, Decision (P x)} `{∀ x, Decision (Q x)}
    (l : list T) :
  (∀ x, x ∈ l → P x → Q x → False) →
  countWhere P l + countWhere Q l = countWhere (fun x => P x ∨ Q x) l.
Proof.
  induction l as [|x l IH]; intros Hdis; [done|].
  rewrite !countWhere_cons, <- IH by (intros y Hy; apply Hdis; by right).
  pose proof (Hdis x (list_elem_of_here _ _)) as Hx.
  destruct (decide (P x)), (decide (Q x)), (decide (P x ∨ Q x)); try tauto; lia.
Qed.

Lemma sumOver_countWhere {S K} `{EqDecision K} (key : S → option K) (P : S → Prop)
    `{∀ x, Decision (P x)} (V : list S) (R : list K) :
  NoDup R →
  sumOver (fun r => countWhere (fun v => P v ∧ key v = Some r) V) R
  = countWhere (fun v => P v ∧ key v ∈ Some <$> R) V.
Proof.
  induction 1 as [|r R Hr Hnd IH].
  - cbn. symmetry. apply countWhere_zero. intros v _ [_ Hin]. by apply elem_of_nil in Hin.
  - cbn [sumOver foldr]. fold (sumOver (fun r => countWhere (fun v => P v ∧ key v = Some r) V) R).
    rewrite IH, countWhere_or.
    + apply countWhere_ext_in. intros v _. rewrite fmap_cons, elem_of_cons. tauto.
    + intros v _ [_ Hk] [_ Hin]. rewrite Hk in Hin.
      apply list_elem_of_fmap in Hin as (r' & Heq & Hin). congruence.
Qed.

Lemma foldl_rpcStep_totals (mk : jsstr → RegionStatsRpcRow) (regions : list jsstr) :
  (∀ r, region (mk r) = Some r) →
  (∀ r, r ∈ regions → r ≠ [] ∧ trim r = r) →
  ∀ st, totalA (foldl rpcStep st (mk <$> regions))
        = totalA st + sumOver (fun r => count_a (mk r)) regions
      ∧ totalB (foldl rpcStep st (mk <$> regions))
        = totalB st + sumOver (fun r => count_b (mk r)) regions.
Proof.
  intros Hmk. induction regions as [|r rs IH]; intros Hrs st.
  - cbn. lia.
  - rewrite fmap_cons. cbn [foldl sumOver foldr].
    fold (sumOver (fun r => count_a (mk r)) rs) (sumOver (fun r => count_b (mk r)) rs).
    destruct (IH (fun r' Hr' => Hrs r' (list_elem_of_further _ _ _ Hr')) (rpcStep st (mk r)))
      as [-> ->].
    destruct (Hrs r (list_elem_of_here _ _)) as [Hne Htrim].
    unfold rpcStep. rewrite Hmk. change (default [] (Some r)) with r. rewrite Htrim.
    destruct r as [|c r']; [done|]. cbn [truthy totalA totalB]. unfold normalizeInt. lia.
Qed.

Lemma foldl_buildStep_totals level a b rows : ∀ st,
  totalA (foldl (buildStep level a b) st rows)
  = totalA st
    + countWhere (fun row => option_key row = a ∧ countedUnder level row ≠ None) rows
  ∧ totalB (foldl (buildStep level a b) st rows)
    = totalB st
      + countWhere (fun row => (option_key row ≠ a ∧ option_key row = b)
                               ∧ countedUnder level row ≠ None) rows.
Proof.
  induction rows as [|row rows IH]; intros st.
  - unfold countWhere. rewrite !filter_nil. cbn [length foldl]. lia.
  - cbn [foldl]. destruct (IH (buildStep level a b st row)) as [-> ->].
    rewrite !countWhere_cons. unfold buildStep. fold (countedUnder level row).
    destruct (countedUnder level row) as [regionCode|].
    + unfold eqb.
      destruct (decide (option_key row = a)) as [Ha|Ha].
      * rewrite (bool_decide_eq_true_2 _ Ha). cbn [totalA totalB].
        rewrite (decide_True (P := _ = a ∧ _)) by done.
        rewrite (decide_False (P := (_ ∧ _) ∧ _)) by tauto. lia.
      * rewrite (bool_decide_eq_false_2 _ Ha).
        destruct (decide (option_key row = b)) as [Hb|Hb].
        -- rewrite (bool_decide_eq_true_2 _ Hb). cbn [totalA totalB].
           rewrite (decide_False (P := _ = a ∧ _)) by tauto.
           rewrite (decide_True (P := (_ ∧ _) ∧ _)) by done. lia.
        -- rewrite (bool_decide_eq_false_2 _ Hb). cbn [totalA totalB].
           rewrite (decide_False (P := _ = a ∧ _)) by tauto.
           rewrite (decide_False (P := (_ ∧ _) ∧ _)) by tauto. lia.
    + rewrite (decide_False (P := _ = a ∧ _)) by tauto.
      rewrite (decide_False (P := (_ ∧ _) ∧ _)) by tauto. lia.
Qed.

Lemma foldl_rpcStep_totalA (mk : jsstr → RegionStatsRpcRow) (regions : list jsstr) st :
  (∀ r, region (mk r) = Some r) →
  (∀ r, r ∈ regions → r ≠ [] ∧ trim r = r) →
  totalA (foldl rpcStep st (mk <$> regions))
  = totalA st + sumOver (fun r => count_a (mk r)) regions.
Proof. intros Hmk Hrs. apply (foldl_rpcStep_totals mk regions Hmk Hrs st). Qed.

Lemma foldl_rpcStep_totalB (mk : jsstr → RegionStatsRpcRow) (regions : list jsstr) st :
  (∀ r, region (mk r) = Some r) →
  (∀ r, r ∈ regions → r ≠ [] ∧ trim r = r) →
  totalB (foldl rpcStep st (mk <$> regions))
  = totalB st + sumOver (fun r => count_b (mk r)) regions.
Proof. intros Hmk Hrs. apply (foldl_rpcStep_totals mk regions Hmk Hrs st). Qed.

Section Agreement.
Context (db : Database) (topic : jsstr) (level : RegionLevel) (a b : jsstr).
Hypothesis Hden : denormalized db topic level a b.

Lemma topicVotes_denormalized v :
  v ∈ topicVotes db topic → usableOwnCode level v ∧ joinedOnce db a b v.
Proof. intros Hv. apply list_elem_of_filter in Hv as [Ht Hv]. by apply Hden. Qed.

Lemma positionOf_denormalized v :
  v ∈ topicVotes db topic →
  (positionOf db v = 1 ↔ v_option_key v = a) ∧ (positionOf db v = 2 ↔ v_option_key v = b).
Proof.
  intros Hv. destruct (topicVotes_denormalized v Hv) as [_ (o & Ho & Ha & Hb)].
  unfold positionOf. rewrite Ho. done.
Qed.

Lemma scoped_denormalized :
  scoped db topic level = scopedPair db level <$> topicVotes db topic.
Proof.
  unfold scoped. apply bind_singleton. intros v Hv.
  destruct (topicVotes_denormalized v Hv) as [(s & Hs & Hne & _) (o & Ho & _)].
  change (filter _ (vote_options db)) with (optionsOf db v).
  unfold scopedPair, positionOf. rewrite Ho, Hs. cbn.
  unfold ownCode in Hs. destruct level; rewrite Hs; by destruct s.
Qed.

Lemma slow_total_denormalized k :
  countWhere (fun row => countedUnder level row = Some k) (selectVotes db topic)
  = countWhere (fun v => ownCode level v = Some k) (topicVotes db topic).
Proof.
  rewrite selectVotes_fetched, countWhere_fmap.
  rewrite (countWhere_perm _ _ _ (orderByCreatedAt_perm _)).
  apply countWhere_ext_in. intros v Hv.
  rewrite countedUnder_fetched; [done|]. by apply topicVotes_denormalized.
Qed.

Lemma slow_count_denormalized key k :
  countWhere (fun row => option_key row = key ∧ countedUnder level row = Some k)
    (selectVotes db topic)
  = countWhere (fun v => v_option_key v = key ∧ ownCode level v = Some k)
      (topicVotes db topic).
Proof.
  rewrite selectVotes_fetched, countWhere_fmap.
  rewrite (countWhere_perm _ _ _ (orderByCreatedAt_perm _)).
  apply countWhere_ext_in. intros v Hv.
  rewrite countedUnder_fetched; [done|]. by apply topicVotes_denormalized.
Qed.

Lemma fast_total_denormalized k :
  countWhere (fun x : option jsstr * N => x.1 = Some k) (scoped db topic level)
  = countWhere (fun v => ownCode level v = Some k) (topicVotes db topic).
Proof. rewrite scoped_denormalized, countWhere_fmap. done. Qed.

Lemma fast_countA_denormalized k :
  countWhere (fun x : option jsstr * N => x.2 = 1)
    (filter (fun x : option jsstr * N => x.1 = Some k) (scoped db topic level))
  = countWhere (fun v => v_option_key v = a ∧ ownCode level v = Some k)
      (topicVotes db topic).
Proof.
  rewrite countWhere_filter, scoped_denormalized, countWhere_fmap.
  apply countWhere_ext_in. intros v Hv. cbn [scopedPair fst snd].
  destruct (positionOf_denormalized v Hv) as [Ha _]. by rewrite Ha.
Qed.

Lemma fast_countB_denormalized k :
  countWhere (fun x : option jsstr * N => x.2 = 2)
    (filter (fun x : option jsstr * N => x.1 = Some k) (scoped db topic level))
  = countWhere (fun v => v_option_key v = b ∧ ownCode level v = Some k)
      (topicVotes db topic).
Proof.
  rewrite countWhere_filter, scoped_denormalized, countWhere_fmap.
  apply countWhere_ext_in. intros v Hv. cbn [scopedPair fst snd].
  destruct (positionOf_denormalized v Hv) as [_ Hb]. by rewrite Hb.
Qed.

Lemma regions_denormalized k :
  k ∈ remove_dups (omap fst (scoped db topic level))
  ↔ countWhere (fun v => ownCode level v = Some k) (topicVotes db topic) ≠ 0.
Proof.
  rewrite elem_of_remove_dups, list_elem_of_omap, <- fast_total_denormalized.
  split.
  - intros (x & Hx & Hk) Hz.
    exact (proj1 (countWhere_zero _ _) Hz x Hx Hk).
  - intros Hnz.
    destruct (decide (k ∈ omap fst (scoped db topic level))) as [Hin|Hout].
    + by apply list_elem_of_omap in Hin.
    + destruct Hnz. apply countWhere_zero. intros x Hx Hk.
      apply Hout, list_elem_of_omap. by exists x.
Qed.

Lemma regions_usable r :
  r ∈ remove_dups (omap fst (scoped db topic level)) → r ≠ [] ∧ trim r = r.
Proof.
  rewrite elem_of_remove_dups, list_elem_of_omap, scoped_denormalized.
  intros (x & Hx & Hr). apply list_elem_of_fmap in Hx as (v & -> & Hv).
  destruct (topicVotes_denormalized v Hv) as [(s & Hs & Hne & Htrim) _].
  unfold scopedPair in Hr. cbn [fst] in Hr.
  assert (s = r) as -> by congruence. done.
Qed.

Lemma stats_agree_denormalized :
  (fastPath db topic level).1
  = (buildStatsFromVoteRows (selectVotes db topic) level a b).1.
Proof.
  apply map_eq. intros k. rewrite slow_lookup. cbv zeta.
  rewrite slow_total_denormalized, !slow_count_denormalized.
  unfold fastPath, statsFromRpc, get_region_vote_stats. cbn [fst]. cbv zeta.
  rewrite foldl_rpcStep_lookup; [|done|apply regions_usable].
  cbn [statsByCode]. rewrite lookup_empty.
  unfold statOfRow, normalizeInt. cbn [count_a count_b rpc_total rpc_winner].
  rewrite parseWinner_sql, fast_countA_denormalized, fast_countB_denormalized.
  change (N.of_nat (length (filter (fun x : option jsstr * N => x.1 = Some k)
                              (scoped db topic level))))
    with (countWhere (fun x : option jsstr * N => x.1 = Some k) (scoped db topic level)).
  rewrite fast_total_denormalized.
  destruct (decide (k ≠ PROTO ∧ _)) as [[Hk Hnz]|Hn].
  - rewrite (decide_True (P := _ ∧ _)); [done|]. split; [|done].
    by apply regions_denormalized.
  - rewrite (decide_False (P := _ ∧ _)); [done|]. intros [Hin Hk].
    apply Hn. split; [done|]. by apply regions_denormalized.
Qed.

Lemma ownCode_in_regions v :
  v ∈ topicVotes db topic →
  ownCode level v ∈ Some <$> remove_dups (omap fst (scoped db topic level)).
Proof.
  intros Hv.
  destruct (topicVotes_denormalized v Hv) as [(s & Hs & _) _].
  rewrite Hs. apply list_elem_of_fmap_2.
  rewrite elem_of_remove_dups, list_elem_of_omap. exists (scopedPair db level v).
  split; [|done]. rewrite (scoped_denormalized).
  by apply list_elem_of_fmap_2.
Qed.

Lemma fast_sumA_denormalized :
  sumOver (fun r => countWhere (fun x : option jsstr * N => x.2 = 1)
                      (filter (fun x : option jsstr * N => x.1 = Some r)
                         (scoped db topic level)))
    (remove_dups (omap fst (scoped db topic level)))
  = countWhere (fun v => v_option_key v = a) (topicVotes db topic).
Proof.
  rewrite (sumOver_ext _ _ _
             (fun r _ => fast_countA_denormalized r)).
  rewrite sumOver_countWhere by apply NoDup_remove_dups.
  apply countWhere_ext_in. intros v Hv.
  pose proof (ownCode_in_regions v Hv). tauto.
Qed.

Lemma fast_sumB_denormalized :
  sumOver (fun r => countWhere (fun x : option jsstr * N => x.2 = 2)
                      (filter (fun x : option jsstr * N => x.1 = Some r)
                         (scoped db topic level)))
    (remove_dups (omap fst (scoped db topic level)))
  = countWhere (fun v => v_option_key v = b) (topicVotes db topic).
Proof.
  rewrite (sumOver_ext _ _ _
             (fun r _ => fast_countB_denormalized r)).
  rewrite sumOver_countWhere by apply NoDup_remove_dups.
  apply countWhere_ext_in. intros v Hv.
  pose proof (ownCode_in_regions v Hv). tauto.
Qed.

Lemma counted_denormalized v :
  v ∈ topicVotes db topic → countedUnder level (fetched db v) ≠ None.
Proof.
  intros Hv.
  destruct (topicVotes_denormalized v Hv) as [Hu _].
  rewrite (countedUnder_fetched db level v Hu). destruct Hu as (s & -> & _). done.
Qed.

Lemma slow_sumA_denormalized :
  countWhere (fun row => option_key row = a ∧ countedUnder level row ≠ None)
    (selectVotes db topic)
  = countWhere (fun v => v_option_key v = a) (topicVotes db topic).
Proof.
  rewrite selectVotes_fetched, countWhere_fmap.
  rewrite (countWhere_perm _ _ _ (orderByCreatedAt_perm _)).
  apply countWhere_ext_in. intros v Hv. pose proof (counted_denormalized v Hv).
  cbn [fetched option_key]. tauto.
Qed.

Lemma slow_sumB_denormalized :
  countWhere (fun row => (option_key row ≠ a ∧ option_key row = b)
                         ∧ countedUnder level row ≠ None)
    (selectVotes db topic)
  = countWhere (fun v => v_option_key v = b) (topicVotes db topic).
Proof.
  rewrite selectVotes_fetched, countWhere_fmap.
  rewrite (countWhere_perm _ _ _ (orderByCreatedAt_perm _)).
  apply countWhere_ext_in. intros v Hv. pose proof (counted_denormalized v Hv).
  destruct (positionOf_denormalized v Hv) as [Ha Hb].
  cbn [fetched option_key]. split; [tauto|]. intros Hkb. split_and!; [|done..].
  intros Hka. apply Ha in Hka. apply Hb in Hkb. congruence.
Qed.

Lemma summary_agree_denormalized :
  (fastPath db topic level).2
  = (buildStatsFromVoteRows (selectVotes db topic) level a b).2.
Proof.
  unfold fastPath, statsFromRpc, buildStatsFromVoteRows, get_region_vote_stats.
  cbn [snd]. cbv zeta.
  destruct (foldl_buildStep_totals level a b (selectVotes db topic)
              {| statsByCode := ∅; totalA := 0; totalB := 0 |}) as [-> ->].
  rewrite slow_sumA_denormalized, slow_sumB_denormalized.
  rewrite foldl_rpcStep_totalA; [|done|apply regions_usable].
  rewrite foldl_rpcStep_totalB; [|done|apply regions_usable].
  cbn [count_a count_b]. by rewrite fast_sumA_denormalized, fast_sumB_denormalized.
Qed.

(** Per-region entries and summary alike. *)
Lemma paths_agree_denormalized :
  fastPath db topic level = buildStatsFromVoteRows (selectVotes db topic) level a b.
Proof.
  rewrite (surjective_pairing (fastPath db topic level)),
          (surjective_pairing (buildStatsFromVoteRows _ level a b)).
  f_equal; [by apply stats_agree_denormalized | apply summary_agree_denormalized].
Qed.

End Agreement.

(** On such votes the handler answers the same whichever path it takes. *)
Lemma slowPath_agrees_with_fastPath db topic level a b :
  denormalized db topic level a b →
  optionAt db topic 1 = Some a → optionAt db topic 2 = Some b →
  truthy a = true → truthy b = true →
  slowPath db topic level
  = Ok200 (fastPath db topic level).1 (fastPath db topic level).2.
Proof.
  intros Hden Ha Hb Hta Htb. unfold slowPath.
  rewrite Ha, Hb, Hta, Htb, fetchAllVotesByTopic_total. cbn [andb].
  rewrite <- (paths_agree_denormalized db topic level a b Hden).
  by destruct (fastPath db topic level).
Qed.

Lemma backfilledDb_denormalized :
  denormalized backfilledDb (js "popular-vote") sido (js "seoul") (js "busan").
Proof.
  intros v Hv _. cbn [votes backfilledDb] in Hv.
  repeat (apply elem_of_cons in Hv as [->|Hv]); [..|by apply elem_of_nil in Hv].
  - split.
    + exists (js "11"). split_and!; [reflexivity | discriminate | reflexivity].
    + eexists. split; [vm_compute; reflexivity|].
      split; (split; intros H; vm_compute in H; first [discriminate H | reflexivity]).
  - split.
    + exists (js "11"). split_and!; [reflexivity | discriminate | reflexivity].
    + eexists. split; [vm_compute; reflexivity|].
      split; (split; intros H; vm_compute in H; first [discriminate H | reflexivity]).
Qed.

(** The agreement at work on [backfilledDb]. *)
Example slowPath_agrees_on_backfilledDb :
  slowPath backfilledDb (js "popular-vote") sido
  = Ok200 {[ js "11" := {| winner := TIE; total := 2; countA := 1; countB := 1 |} ]}
      {| totalVotes := 2; sumA := 1; sumB := 1 |}
  ∧ fastPath backfilledDb (js "popular-vote") sido
    = ({[ js "11" := {| winner := TIE; total := 2; countA := 1; countB := 1 |} ]},
       {| totalVotes := 2; sumA := 1; sumB := 1 |}).
Proof.
  assert (fastPath backfilledDb (js "popular-vote") sido
          = ({[ js "11" := {| winner := TIE; total := 2; countA := 1; countB := 1 |} ]},
             {| totalVotes := 2; sumA := 1; sumB := 1 |})) as Hfast
    by (vm_compute; reflexivity).
  split; [|exact Hfast].
  rewrite (slowPath_agrees_with_fastPath backfilledDb (js "popular-vote") sido
             (js "seoul") (js "busan") backfilledDb_denormalized);
    [by rewrite Hfast | reflexivity..].
Qed.

(** C2 fails on the code.  The SQL function groups by the code stored on
    the vote alone, while [buildStatsFromVoteRows] falls back to the code of
    the linked school.  On [mixedDb] the region 11 has one vote and winner A
    on the fast path, two votes and a tie on the slow path. *)
Lemma fast_slow_disagree :
  (fastPath mixedDb (js "popular-vote") sido).1
  = {[ js "11" := {| winner := A; total := 1; countA := 1; countB := 0 |} ]}
  ∧ slowPath mixedDb (js "popular-vote") sido
    = Ok200 {[ js "11" := {| winner := TIE; total := 2; countA := 1; countB := 1 |} ]}
        {| totalVotes := 2; sumA := 1; sumB := 1 |}.
Proof. vm_compute. split; reflexivity. Qed.

End RegionStatsProps.

(** ** Properties of the parent reconciliation *)

Module ImportProps.
Import ImportUniversities ImportSpec.

Lemma linkStep_planned P st row :
  linkStep P st row =
  match plannedLink P row with
  | None => st
  | Some link => {| schoolsTable := applyLink (schoolsTable st) link;
                    updatedParentLinks := S (updatedParentLinks st) |}
  end.
Proof.
  unfold linkStep, plannedLink. destruct (isMainCampus row); [done|].
  destruct (P !! _) as [parentId|]; [|done].
  by destruct (negb (truthy parentId) || eqb parentId (s_id row)).
Qed.

Lemma foldl_linkStep P rows : ∀ st,
  foldl (linkStep P) st rows =
  {| schoolsTable := foldl applyLink (schoolsTable st) (omap (plannedLink P) rows);
     updatedParentLinks := updatedParentLinks st + length (omap (plannedLink P) rows) |}.
Proof.
  induction rows as [|row rows IH]; intros st; cbn [foldl omap list_omap].
  - destruct st. cbn. f_equal. lia.
  - rewrite IH, linkStep_planned. destruct (plannedLink P row) as [link|]; cbn.
    + f_equal. lia.
    + done.
Qed.

Lemma foldl_applyLink links : ∀ t,
  foldl applyLink t links = (fun s => foldl applyLinkRow s links) <$> t.
Proof.
  induction links as [|link links IH]; intros t; cbn [foldl].
  - by rewrite list_fmap_id.
  - rewrite IH. unfold applyLink. rewrite <- list_fmap_compose. done.
Qed.

Lemma setParent_key id p s : sameKey (setParent id p s) s.
Proof. unfold setParent, sameKey. by case_bool_decide. Qed.

Lemma applyLinkRow_key links : ∀ s, sameKey (foldl applyLinkRow s links) s.
Proof.
  induction links as [|link links IH]; intros s; cbn [foldl]; [done|].
  destruct (IH (applyLinkRow s link)) as (? & ? & ? & ?).
  destruct (setParent_key link.1 link.2 s) as (? & ? & ? & ?).
  unfold applyLinkRow in *. unfold sameKey. split_and!; congruence.
Qed.

Lemma sameKey_filter t t' :
  Forall2 sameKey t t' →
  Forall2 sameKey (filter (fun s => s_source s = local_xls) t)
                  (filter (fun s => s_source s = local_xls) t').
Proof.
  induction 1 as [|a b t t' Hab _ IH]; [constructor|].
  rewrite !filter_cons. destruct Hab as (Hid & Hsrc & Hname & Hcampus).
  rewrite Hsrc. destruct (decide (s_source b = local_xls)); [|done].
  constructor; [|done]. done.
Qed.

Lemma isMainCampus_key a b : sameKey a b → isMainCampus a = isMainCampus b.
Proof. intros (_ & _ & _ & Hc). unfold isMainCampus. by rewrite Hc. Qed.

Lemma foldl_markMain_key rows rows' : Forall2 sameKey rows rows' →
  ∀ P, foldl markMain P rows = foldl markMain P rows'.
Proof.
  induction 1 as [|a b t t' Hab _ IH]; intros P; [done|]. cbn [foldl].
  rewrite IH. f_equal. unfold markMain.
  rewrite (isMainCampus_key a b Hab). destruct Hab as (-> & _ & -> & _). done.
Qed.

Lemma foldl_markAny_key rows rows' : Forall2 sameKey rows rows' →
  ∀ P, foldl markAny P rows = foldl markAny P rows'.
Proof.
  induction 1 as [|a b t t' Hab _ IH]; intros P; [done|]. cbn [foldl].
  rewrite IH. f_equal. unfold markAny. destruct Hab as (-> & _ & -> & _). done.
Qed.

Lemma buildParents_key rows rows' :
  Forall2 sameKey rows rows' → buildParents rows = buildParents rows'.
Proof.
  intros H. unfold buildParents.
  by rewrite (foldl_markMain_key _ _ H), (foldl_markAny_key _ _ H).
Qed.

Lemma plannedLink_key P a b : sameKey a b → plannedLink P a = plannedLink P b.
Proof.
  intros Hab. unfold plannedLink. rewrite (isMainCampus_key a b Hab).
  destruct Hab as (-> & _ & -> & _). done.
Qed.

Lemma omap_plannedLink_key P rows rows' :
  Forall2 sameKey rows rows' →
  omap (plannedLink P) rows = omap (plannedLink P) rows'.
Proof.
  induction 1 as [|a b t t' Hab _ IH]; [done|]. cbn [omap list_omap].
  by rewrite (plannedLink_key P a b Hab), IH.
Qed.

Lemma withParent_same s : withParent s (s_parent_school_id s) = s.
Proof. by destruct s. Qed.

Lemma applyLinkRow_withParent links : ∀ s parent,
  foldl applyLinkRow (withParent s parent) links
  = withParent s (finalParent (s_id s) links parent).
Proof.
  induction links as [|link links IH]; intros s parent; [done|].
  cbn [foldl]. unfold applyLinkRow at 2, setParent. cbn [s_id withParent].
  unfold finalParent. cbn [foldl].
  case_bool_decide as H.
  - apply (IH s (Some link.2)).
  - apply (IH s parent).
Qed.

Lemma finalParent_snoc id links link parent :
  finalParent id (links ++ [link]) parent
  = if bool_decide (id = link.1) then Some link.2 else finalParent id links parent.
Proof. unfold finalParent. by rewrite foldl_app. Qed.

Lemma finalParent_idem id links : ∀ parent,
  finalParent id links (finalParent id links parent) = finalParent id links parent.
Proof.
  induction links as [|link links IH] using rev_ind; intros parent; [done|].
  rewrite !finalParent_snoc. case_bool_decide; [done|]. apply IH.
Qed.

Lemma applyLinks_idem links t :
  foldl applyLink (foldl applyLink t links) links = foldl applyLink t links.
Proof.
  rewrite !foldl_applyLink, <- list_fmap_compose.
  apply list_fmap_ext. intros _ s _. cbn [compose].
  rewrite <- (withParent_same s) at 1 2.
  rewrite !applyLinkRow_withParent. cbn [s_id withParent].
  by rewrite finalParent_idem.
Qed.

Lemma applyLinks_key links t : Forall2 sameKey (foldl applyLink t links) t.
Proof.
  rewrite foldl_applyLink. apply Forall2_fmap_l, Forall_Forall2_diag, Forall_forall.
  intros s _. apply applyLinkRow_key.
Qed.

Lemma length_omap_is_Some {X Y} (f : X → option Y) (l : list X) :
  length (omap f l) = length (filter (fun x => is_Some (f x)) l).
Proof.
  induction l as [|x l IH]; [done|]. cbn [omap list_omap]. rewrite filter_cons.
  destruct (f x) as [y|].
  - rewrite decide_True by eauto. cbn [length]. by rewrite IH.
  - rewrite decide_False by (by intros [??]). done.
Qed.

Lemma reconcileParents_planned rows table :
  let links := omap (plannedLink (buildParents rows)) rows in
  reconcileParents rows table
  = {| schoolsTable := foldl applyLink table links;
       updatedParentLinks := length links |}.
Proof. cbv zeta. unfold reconcileParents. by rewrite foldl_linkStep. Qed.

(** Reading the rows in table order on both runs is one way to read them
    in the same order. *)
Lemma table_order_fetch (table : list SchoolRow) :
  let rows := filter (fun s => s_source s = local_xls) table in
  let first := reconcileParents rows table in
  let rows' := filter (fun s => s_source s = local_xls) (schoolsTable first) in
  selected table rows ∧ selected (schoolsTable first) rows' ∧ Forall2 sameKey rows' rows.
Proof.
  cbv zeta. unfold selected. split_and!; [reflexivity | reflexivity |].
  rewrite reconcileParents_planned. cbn [schoolsTable].
  apply sameKey_filter, applyLinks_key.
Qed.




(** The condition on the order is needed: a second run that reads the two
    campuses in the other order designates the other one as parent, and
    leaves each campus the parent of the other. *)
Lemma reconcile_fetch_order_example :
  selected linkedOnce (reverse linkedOnce)
  ∧ linkedOnce = [campusA None; campusB (Some UNIV_1)]
  ∧ schoolsTable (reconcileParents (reverse linkedOnce) linkedOnce)
    = [campusA (Some UNIV_2); campusB (Some UNIV_1)]
  ∧ updatedParentLinks (reconcileParents (reverse linkedOnce) linkedOnce) = 1%nat.
Proof.
  split; [|by vm_compute].
  unfold selected.
  replace (filter _ linkedOnce) with linkedOnce by (by vm_compute).
  apply reverse_Permutation.
Qed.

End ImportProps.

(** ** Properties of the constraints of the table [votes] *)

Module VotesProps.
Import Ledger VotesSpec.

Lemma eqb_refl (a : jsstr) : eqb a a = true.
Proof. by apply RegionsProps.eqb_true. Qed.

Lemma eqb_sym (a b : jsstr) : eqb a b = eqb b a.
Proof.
  unfold eqb. destruct (decide (a = b)) as [->|Hne]; [done|].
  rewrite !bool_decide_eq_false_2; congruence.
Qed.

Lemma eqb_false (a b : jsstr) : eqb a b = false ↔ a ≠ b.
Proof. unfold eqb. apply bool_decide_eq_false. Qed.

Lemma collides_sym v w : collides v w = collides w v.
Proof.
  unfold collides.
  rewrite (eqb_sym (v_id v)), (eqb_sym (v_topic_id v)).
  destruct (v_user_id v) as [a|], (v_user_id w) as [b|],
           (v_guest_token v) as [c|], (v_guest_token w) as [d|];
    rewrite ?(eqb_sym a b), ?(eqb_sym c d); done.
Qed.

Lemma collides_refl v : collides v v = true.
Proof. unfold collides. by rewrite eqb_refl. Qed.

(** What a collision is. *)
Lemma collides_spec v w :
  collides v w = true ↔
  v_id v = v_id w
  ∨ (v_topic_id v = v_topic_id w ∧ ∃ u, v_user_id v = Some u ∧ v_user_id w = Some u)
  ∨ (v_topic_id v = v_topic_id w
     ∧ ∃ g, v_guest_token v = Some g ∧ v_guest_token w = Some g).
Proof.
  unfold collides. rewrite !orb_true_iff, !andb_true_iff, !RegionsProps.eqb_true.
  split.
  - intros [[Hid | [Ht Hu]] | [Ht Hg]].
    + by left.
    + right; left. split; [done|].
      destruct (v_user_id v) as [a|], (v_user_id w) as [b|]; try done.
      apply RegionsProps.eqb_true in Hu as ->. eauto.
    + right; right. split; [done|].
      destruct (v_guest_token v) as [a|], (v_guest_token w) as [b|]; try done.
      apply RegionsProps.eqb_true in Hg as ->. eauto.
  - intros [Hid | [[Ht (u & -> & ->)] | [Ht (g & -> & ->)]]].
    + by left; left.
    + left; right. by rewrite eqb_refl.
    + right. by rewrite eqb_refl.
Qed.

Lemma existsb_false_elem_of {T} (f : T → bool) (l : list T) (x : T) :
  existsb f l = false → x ∈ l → f x = false.
Proof.
  intros H Hin. destruct (f x) eqn:Hfx; [|done].
  assert (existsb f l = true); [|congruence].
  apply existsb_exists. exists x. split; [by apply list_elem_of_In | done].
Qed.

Lemma existsb_false_intro {T} (f : T → bool) (l : list T) :
  (∀ x, x ∈ l → f x = false) → existsb f l = false.
Proof.
  intros H. destruct (existsb f l) eqn:Hex; [|done].
  apply existsb_exists in Hex as (x & Hin & Hfx).
  apply list_elem_of_In in Hin. rewrite (H x Hin) in Hfx. done.
Qed.

(** Two rows of a table that satisfies its indexes collide only when they
    are the same row. *)
Lemma pairwiseOk_collide T :
  pairwiseOk T = true →
  ∀ v w, v ∈ T → w ∈ T → collides v w = true → v = w.
Proof.
  induction T as [|x rest IH]; intros Hok v w Hv Hw Hc.
  - by apply elem_of_nil in Hv.
  - cbn [pairwiseOk] in Hok. apply andb_true_iff in Hok as [Hx Hrest].
    apply negb_true_iff in Hx.
    apply elem_of_cons in Hv as [-> | Hv]; apply elem_of_cons in Hw as [-> | Hw].
    + done.
    + rewrite (existsb_false_elem_of _ _ w Hx Hw) in Hc. done.
    + rewrite collides_sym in Hc.
      rewrite (existsb_false_elem_of _ _ v Hx Hv) in Hc. done.
    + by apply IH.
Qed.

Lemma pairwiseOk_NoDup T : pairwiseOk T = true → NoDup T.
Proof.
  induction T as [|x rest IH]; intros Hok; [constructor|].
  cbn [pairwiseOk] in Hok. apply andb_true_iff in Hok as [Hx Hrest].
  apply negb_true_iff in Hx. constructor; [|by apply IH].
  intros Hin.
  pose proof (collides_refl x) as Hr.
  rewrite (existsb_false_elem_of _ _ x Hx Hin) in Hr. done.
Qed.

Lemma pairwiseOk_intro T :
  NoDup T →
  (∀ v w, v ∈ T → w ∈ T → collides v w = true → v = w) →
  pairwiseOk T = true.
Proof.
  induction 1 as [|x rest Hx Hnd IH]; intros Hc; [done|].
  cbn [pairwiseOk]. apply andb_true_iff. split.
  - apply negb_true_iff, existsb_false_intro. intros w Hw.
    destruct (collides x w) eqn:Hxw; [|done].
    assert (x = w) as -> by (apply Hc; [left | by right | done]). done.
  - apply IH. intros v w Hv Hw. apply Hc; by right.
Qed.

Lemma pairwiseOk_filter (P : VoteRow → Prop) `{∀ v, Decision (P v)} T :
  pairwiseOk T = true → pairwiseOk (filter P T) = true.
Proof.
  intros Hok. apply pairwiseOk_intro.
  - by apply NoDup_filter, pairwiseOk_NoDup.
  - intros v w [_ Hv]%list_elem_of_filter [_ Hw]%list_elem_of_filter.
    by apply (pairwiseOk_collide T Hok).
Qed.

Lemma pairwiseOk_snoc T v :
  pairwiseOk T = true → existsb (collides v) T = false →
  pairwiseOk (T ++ [v]) = true.
Proof.
  intros Hok Hv. apply pairwiseOk_intro.
  - apply NoDup_app. split_and!; [by apply pairwiseOk_NoDup| |apply NoDup_singleton].
    intros x Hx Hx'. apply list_elem_of_singleton in Hx' as ->.
    pose proof (existsb_false_elem_of _ _ v Hv Hx) as Hc.
    by rewrite collides_refl in Hc.
  - intros a b Ha Hb Hc.
    apply elem_of_app in Ha as [Ha | ->%list_elem_of_singleton];
      apply elem_of_app in Hb as [Hb | ->%list_elem_of_singleton].
    + by apply (pairwiseOk_collide T).
    + rewrite collides_sym in Hc.
      by rewrite (existsb_false_elem_of _ _ a Hv Ha) in Hc.
    + by rewrite (existsb_false_elem_of _ _ b Hv Hb) in Hc.
    + done.
Qed.

Lemma length_le_1_of_equal {T} (l : list T) :
  NoDup l → (∀ x y, x ∈ l → y ∈ l → x = y) → (length l ≤ 1)%nat.
Proof.
  intros Hnd Heq. destruct l as [|a [|b l]]; cbn; [lia | lia |].
  exfalso. apply NoDup_cons in Hnd as [Hab _]. apply Hab.
  rewrite (Heq a b); [left | left | right; left].
Qed.

(** [votes_topic_user_uidx]: a user has at most one row on a topic. *)
Lemma userVotesOn_le_1 user topic T :
  pairwiseOk T = true → (length (userVotesOn user topic T) ≤ 1)%nat.
Proof.
  intros Hok. apply length_le_1_of_equal.
  - by apply NoDup_filter, pairwiseOk_NoDup.
  - intros v w [[Htv Huv] Hv]%list_elem_of_filter [[Htw Huw] Hw]%list_elem_of_filter.
    apply (pairwiseOk_collide T Hok); [done..|].
    apply collides_spec. right; left. split; [congruence|]. eauto.
Qed.

(** [votes_topic_guest_uidx]: a guest token has at most one row on a topic. *)
Lemma guestVotesOn_le_1 token topic T :
  pairwiseOk T = true → (length (guestVotesOn token topic T) ≤ 1)%nat.
Proof.
  intros Hok. apply length_le_1_of_equal.
  - by apply NoDup_filter, pairwiseOk_NoDup.
  - intros v w [[Htv Huv] Hv]%list_elem_of_filter [[Htw Huw] Hw]%list_elem_of_filter.
    apply (pairwiseOk_collide T Hok); [done..|].
    apply collides_spec. right; right. split; [congruence|]. eauto.
Qed.

Lemma length_filter_pos {T} (P : T → Prop) `{∀ x, Decision (P x)} (l : list T) (x : T) :
  x ∈ l → P x → (0 < length (filter P l))%nat.
Proof.
  intros Hx HP. assert (Hin : x ∈ filter P l) by by apply list_elem_of_filter.
  destruct (filter P l); [by apply elem_of_nil in Hin | cbn; lia].
Qed.

End VotesProps.

(** ** Properties of the guest merge *)

Module MergeProps.
Import Merge MergeSpec.

Lemma reassign_not_guest token user v : ¬ isGuestRow token (reassign user v).
Proof. by intros [? _]. Qed.

Lemma mergeStep_pending auth token user st st' r rest :
  mergeStep auth user st r = Normal st' →
  (∀ v, v ∈ table st → isGuestRow token v → v_id v ∈ (v_id <$> r :: rest)) →
  ∀ v, v ∈ table st' → isGuestRow token v → v_id v ∈ (v_id <$> rest).
Proof.
  unfold mergeStep. intros Hstep Hpending v Hv Hguest.
  destruct (userHasVote user (v_topic_id r) (table st)).
  - injection Hstep as <-. cbn [table] in Hv.
    apply list_elem_of_filter in Hv as [Hne Hv].
    specialize (Hpending v Hv Hguest). rewrite fmap_cons in Hpending.
    apply elem_of_cons in Hpending as [|]; [done|done].
  - destruct (userIndexHolds _ _ _ && userKeyHolds _ _ _ _); [|done].
    injection Hstep as <-. cbn [table] in Hv.
    apply list_elem_of_fmap in Hv as (w & -> & Hw).
    case_bool_decide as Hid.
    + by apply reassign_not_guest in Hguest.
    + specialize (Hpending w Hw Hguest). rewrite fmap_cons in Hpending.
      apply elem_of_cons in Hpending as [|]; [done|done].
Qed.

(** When the loop ends, no row is left under the guest token. *)
Lemma mergeLoop_no_guest auth token user rs : ∀ st st',
  mergeLoop auth user st rs = Normal st' →
  (∀ v, v ∈ table st → isGuestRow token v → v_id v ∈ (v_id <$> rs)) →
  ∀ v, v ∈ table st' → ¬ isGuestRow token v.
Proof.
  induction rs as [|r rest IH]; intros st st' Hloop Hpending v Hv Hguest.
  - injection Hloop as <-. specialize (Hpending v Hv Hguest).
    by apply elem_of_nil in Hpending.
  - cbn [mergeLoop] in Hloop.
    destruct (mergeStep auth user st r) as [st1|] eqn:Hstep; [|done].
    eapply (IH st1 st' Hloop); [|done..].
    by eapply mergeStep_pending.
Qed.

Lemma guestRows_spec token T v : v ∈ guestRows token T ↔ isGuestRow token v ∧ v ∈ T.
Proof. unfold guestRows. by rewrite list_elem_of_filter. Qed.

Lemma guestRows_nil token T :
  (∀ v, v ∈ T → ¬ isGuestRow token v) → guestRows token T = [].
Proof.
  intros H. unfold guestRows. apply elem_of_nil_inv. intros v Hv.
  apply list_elem_of_filter in Hv as [Hguest Hv]. by apply (H v).
Qed.

Lemma withVotes_votes db : Ledger.withVotes db (votes db) = db.
Proof. by destruct db. Qed.

(** C5.  After a run of [merge_guest_votes_to_user] that returned, a second
    run with the same guest token and user changes no row and returns
    moved = 0 and skipped = 0, whatever the rows of [auth.users] are by
    then. *)
Theorem merge_idempotent (auth_users auth_users' : list uuid) (db db' : Database)
    (token : option jsstr) (user : option uuid) (result : MergeResult) :
  merge_guest_votes_to_user auth_users db token user = Normal (result, db') →
  merge_guest_votes_to_user auth_users' db' token user
  = Normal ({| moved := 0; skipped := 0 |}, db').
Proof.
  unfold merge_guest_votes_to_user.
  destruct token as [token|]; [|done]. destruct user as [user|]; [|done].
  destruct (eqb (btrim token) []); [done|].
  destruct (mergeLoop auth_users user _ (guestRows token (votes db)))
    as [st|] eqn:Hloop; [|done].
  intros H; injection H as <- <-.
  cbn [votes Ledger.withVotes].
  rewrite (guestRows_nil token (table st)).
  - cbn [mergeLoop v_moved v_skipped table].
    do 2 f_equal.
  - eapply mergeLoop_no_guest; [exact Hloop|].
    cbn [table]. intros v Hv Hguest.
    apply list_elem_of_fmap. exists v. split; [done|]. by apply guestRows_spec.
Qed.

(** *** The table the loop leaves *)

Import VotesProps VotesSpec.

Lemma bool_ext (a b : bool) : (a = true ↔ b = true) → a = b.
Proof. destruct a, b; intros [H1 H2]; try done; [by rewrite H1 | by rewrite H2]. Qed.

Lemma omap_filter_skip {X Y} (f : X → option Y) (P : X → Prop)
    `{∀ x, Decision (P x)} (l : list X) :
  (∀ x, x ∈ l → ¬ P x → f x = None) → omap f (filter P l) = omap f l.
Proof.
  induction l as [|x l IH]; intros Hskip; [done|].
  rewrite filter_cons. cbn [omap list_omap].
  rewrite <- IH by (intros y Hy; apply Hskip; by right).
  destruct (decide (P x)) as [HP|HP]; [done|].
  rewrite (Hskip x) by (done || left). done.
Qed.

Lemma omap_ext_in {X Y} (f g : X → option Y) (l : list X) :
  (∀ x, x ∈ l → f x = g x) → omap f l = omap g l.
Proof.
  induction l as [|x l IH]; intros Hfg; [done|]. cbn [omap list_omap].
  rewrite (Hfg x) by left. rewrite IH by (intros y Hy; apply Hfg; by right). done.
Qed.

Lemma omap_fmap {X Y Z} (g : X → Y) (f : Y → option Z) (l : list X) :
  omap f (g <$> l) = omap (fun x => f (g x)) l.
Proof. induction l as [|x l IH]; [done|]. cbn. by rewrite IH. Qed.

Lemma filter_ext_in {X} (P Q : X → Prop) `{∀ x, Decision (P x)} `{∀ x, Decision (Q x)}
    (l : list X) :
  (∀ x, x ∈ l → P x ↔ Q x) → filter P l = filter Q l.
Proof.
  induction l as [|x l IH]; intros HPQ; [done|]. rewrite !filter_cons.
  rewrite IH by (intros y Hy; apply HPQ; by right).
  destruct (decide (P x)) as [HP|HP], (decide (Q x)) as [HQ|HQ]; try done.
  - exfalso. apply HQ, (HPQ x); [left | done].
  - exfalso. apply HP, (HPQ x); [left | done].
Qed.

Lemma filter_all {X} (P : X → Prop) `{∀ x, Decision (P x)} (l : list X) :
  (∀ x, x ∈ l → P x) → filter P l = l.
Proof.
  induction l as [|x l IH]; intros HP; [done|].
  rewrite filter_cons_True by (apply HP; left).
  rewrite IH by (intros y Hy; apply HP; by right). done.
Qed.

Lemma filter_comm {X} (P Q : X → Prop) `{∀ x, Decision (P x)} `{∀ x, Decision (Q x)}
    (l : list X) :
  filter P (filter Q l) = filter Q (filter P l).
Proof.
  induction l as [|x l IH]; [done|]. rewrite !filter_cons.
  destruct (decide (Q x)) as [HQ|HQ], (decide (P x)) as [HP|HP];
    rewrite ?filter_cons, ?decide_True, ?decide_False by done; by rewrite ?IH.
Qed.

Lemma userHasVote_spec user topic T :
  userHasVote user topic T = true ↔
  ∃ v, v ∈ T ∧ v_topic_id v = topic ∧ v_user_id v = Some user.
Proof.
  unfold userHasVote. rewrite existsb_exists. split.
  - intros (v & Hin & Hv). apply andb_true_iff in Hv as [Ht Hu].
    apply RegionsProps.eqb_true in Ht. apply bool_decide_eq_true in Hu.
    exists v. by rewrite list_elem_of_In.
  - intros (v & Hin & Ht & Hu). exists v. rewrite <- list_elem_of_In.
    split; [done|]. apply andb_true_iff. split.
    + by apply RegionsProps.eqb_true.
    + by apply bool_decide_eq_true.
Qed.

Lemma guestRows_head token T r rest :
  guestRows token T = r :: rest → r ∈ T ∧ isGuestRow token r.
Proof.
  intros H. assert (Hr : r ∈ guestRows token T) by (rewrite H; left).
  apply guestRows_spec in Hr. tauto.
Qed.

Lemma guestRows_tail token T r rest :
  pairwiseOk T = true → guestRows token T = r :: rest →
  ∀ v, v ∈ rest →
    v ∈ T ∧ isGuestRow token v ∧ v_id v ≠ v_id r ∧ v_topic_id v ≠ v_topic_id r.
Proof.
  intros Hok H v Hv.
  destruct (guestRows_head _ _ _ _ H) as [Hr [Hrg Hru]].
  assert (Hvg : v ∈ guestRows token T) by (rewrite H; by right).
  apply guestRows_spec in Hvg as [[Hg Hu] HvT].
  assert (Hne : v ≠ r).
  { assert (Hnd : NoDup (guestRows token T))
      by (apply NoDup_filter, pairwiseOk_NoDup, Hok).
    rewrite H in Hnd. apply NoDup_cons in Hnd as [Hnotin _]. congruence. }
  split_and!; [done | done | |].
  - intros Hid. apply Hne, (pairwiseOk_collide T Hok); [done..|].
    apply collides_spec. by left.
  - intros Ht. apply Hne, (pairwiseOk_collide T Hok); [done..|].
    apply collides_spec. right; right. eauto.
Qed.

Lemma same_id T r v :
  pairwiseOk T = true → r ∈ T → v ∈ T → v_id v = v_id r → v = r.
Proof.
  intros Hok Hr Hv Hid. apply (pairwiseOk_collide T Hok); [done..|].
  apply collides_spec. by left.
Qed.

Lemma identity_spec T :
  forallb Ledger.votes_identity_check T = true ↔
  ∀ v, v ∈ T → Ledger.votes_identity_check v = true.
Proof.
  rewrite forallb_forall. split; intros H v Hv; apply H; by apply list_elem_of_In.
Qed.

Lemma reassignId_id user rid v : v_id (reassignId user rid v) = v_id v.
Proof. unfold reassignId. by case_bool_decide. Qed.

Lemma reassignId_topic user rid v : v_topic_id (reassignId user rid v) = v_topic_id v.
Proof. unfold reassignId. by case_bool_decide. Qed.

Lemma reassignId_other user rid v : v_id v ≠ rid → reassignId user rid v = v.
Proof. intros H. unfold reassignId. by rewrite bool_decide_eq_false_2. Qed.

Lemma reassignId_eq user rid v : v_id v = rid → reassignId user rid v = reassign user v.
Proof. intros H. unfold reassignId. by rewrite bool_decide_eq_true_2. Qed.

Lemma reassignId_same user v : reassignId user (v_id v) v = reassign user v.
Proof. unfold reassignId. by rewrite bool_decide_eq_true_2. Qed.

Lemma userKeyHolds_registered auth user rid T :
  user ∈ auth → userKeyHolds auth user rid T = true.
Proof.
  intros Hin. unfold userKeyHolds. apply forallb_forall. intros v _.
  apply orb_true_iff. right. by apply bool_decide_eq_true.
Qed.

Lemma reassign_reassigned user v : reassign user v = reassigned user v.
Proof. reflexivity. Qed.

Section Step.

Variables (token : jsstr) (user : uuid) (T : list VoteRow) (r : VoteRow)
          (rest : list VoteRow).
Hypothesis Hwf : constraintsHold T.
Hypothesis Hrows : guestRows token T = r :: rest.

Let Hok : pairwiseOk T = true := proj1 Hwf.

Lemma r_in_T : r ∈ T.
Proof. by destruct (guestRows_head _ _ _ _ Hrows). Qed.

Lemma r_guest : isGuestRow token r.
Proof. by destruct (guestRows_head _ _ _ _ Hrows). Qed.

Lemma guest_in_rest v :
  v ∈ T → isGuestRow token v → v_id v ≠ v_id r → v ∈ rest.
Proof.
  intros Hv Hg Hid.
  assert (Hin : v ∈ guestRows token T) by by apply guestRows_spec.
  rewrite Hrows in Hin. apply elem_of_cons in Hin as [->|]; done.
Qed.

Lemma rest_after_filter :
  filter (fun v => v_id v ≠ v_id r) (guestRows token T) = rest.
Proof.
  rewrite Hrows, filter_cons_False by (intros H; by apply H).
  apply filter_all. intros v Hv.
  by destruct (guestRows_tail _ _ _ _ Hok Hrows v Hv) as (_ & _ & ? & _).
Qed.

(** **** The guest row is deleted *)

Lemma userHasVote_afterDelete topic :
  userHasVote user topic (afterDelete T r) = userHasVote user topic T.
Proof.
  apply bool_ext. rewrite !userHasVote_spec. split.
  - intros (v & [_ Hv]%list_elem_of_filter & Ht & Hu). eauto.
  - intros (v & Hv & Ht & Hu). exists v. split_and!; [|done..].
    apply list_elem_of_filter. split; [|done]. intros Hid.
    rewrite (same_id T r v Hok r_in_T Hv Hid) in Hu.
    destruct r_guest as [_ Hnone]. congruence.
Qed.

Lemma constraintsHold_afterDelete : constraintsHold (afterDelete T r).
Proof.
  pose proof (proj2 Hwf) as Hid. split.
  - by apply pairwiseOk_filter.
  - apply identity_spec. intros v [_ Hv]%list_elem_of_filter.
    by apply (proj1 (identity_spec T) Hid).
Qed.

Lemma guestRows_afterDelete : guestRows token (afterDelete T r) = rest.
Proof.
  unfold guestRows, afterDelete. rewrite filter_comm. apply rest_after_filter.
Qed.

Lemma mergedTable_afterDelete :
  userHasVote user (v_topic_id r) T = true →
  mergedTable token user (afterDelete T r) = mergedTable token user T.
Proof.
  intros Hhas. unfold mergedTable.
  rewrite (omap_ext_in _ (mergedRow token user T)).
  - apply omap_filter_skip. intros v Hv Hid.
    assert (v = r) as -> by (apply (same_id T r v Hok r_in_T Hv); by destruct (decide (v_id v = v_id r))).
    unfold mergedRow. rewrite decide_True by apply r_guest. by rewrite Hhas.
  - intros v _. unfold mergedRow. by rewrite userHasVote_afterDelete.
Qed.

Lemma counts_afterDelete :
  userHasVote user (v_topic_id r) T = true →
  movedCount token user (afterDelete T r) = movedCount token user T
  ∧ skippedCount token user T = skippedCount token user (afterDelete T r) + 1.
Proof.
  intros Hhas. unfold movedCount, skippedCount.
  rewrite guestRows_afterDelete, Hrows.
  rewrite filter_cons_False by congruence.
  rewrite (filter_cons_True (fun x => userHasVote user (v_topic_id x) T = true)) by done.
  rewrite (filter_ext_in (fun x => userHasVote user (v_topic_id x) (afterDelete T r) = false)
             (fun x => userHasVote user (v_topic_id x) T = false))
    by (intros; by rewrite userHasVote_afterDelete).
  rewrite (filter_ext_in (fun x => userHasVote user (v_topic_id x) (afterDelete T r) = true)
             (fun x => userHasVote user (v_topic_id x) T = true))
    by (intros; by rewrite userHasVote_afterDelete).
  cbn [length]. lia.
Qed.

(** **** The guest row is reassigned *)

Hypothesis Hfree : userHasVote user (v_topic_id r) T = false.

Lemma no_user_vote v :
  v ∈ T → v_topic_id v = v_topic_id r → v_user_id v ≠ Some user.
Proof.
  intros Hv Ht Hu.
  assert (userHasVote user (v_topic_id r) T = true); [|congruence].
  apply userHasVote_spec. eauto.
Qed.

Lemma userHasVote_afterUpdate topic :
  userHasVote user topic (afterUpdate user T r)
  = userHasVote user topic T || eqb (v_topic_id r) topic.
Proof.
  apply bool_ext. rewrite orb_true_iff, !userHasVote_spec, RegionsProps.eqb_true. split.
  - intros (v' & (w & -> & Hw)%list_elem_of_fmap & Ht & Hu).
    rewrite reassignId_topic in Ht.
    destruct (decide (v_id w = v_id r)) as [Hid|Hid].
    + right. by rewrite <- (same_id T r w Hok r_in_T Hw Hid).
    + left. rewrite reassignId_other in Hu by done. eauto.
  - intros [(w & Hw & Ht & Hu) | Ht].
    + exists w. split_and!; [|done..].
      apply list_elem_of_fmap. exists w. split; [|done].
      rewrite reassignId_other; [done|]. intros Hid.
      rewrite (same_id T r w Hok r_in_T Hw Hid) in Hu.
      destruct r_guest as [_ Hnone]. congruence.
    + exists (reassign user r). split_and!; [|done..].
      apply list_elem_of_fmap. exists r. split; [|apply r_in_T].
      by rewrite reassignId_same.
Qed.

Lemma collides_afterUpdate v w :
  v ∈ T → w ∈ T →
  Ledger.collides (reassignId user (v_id r) v) (reassignId user (v_id r) w) = true →
  v = w.
Proof.
  intros Hv Hw Hc. apply (pairwiseOk_collide T Hok); [done..|].
  apply collides_spec. apply collides_spec in Hc.
  rewrite !reassignId_id, !reassignId_topic in Hc.
  destruct Hc as [Hid | [[Ht (u & Hu1 & Hu2)] | [Ht (g & Hg1 & Hg2)]]]; [by left | |].
  - destruct (decide (v_id v = v_id r)) as [Hvr|Hvr],
             (decide (v_id w = v_id r)) as [Hwr|Hwr].
    + left. congruence.
    + exfalso. rewrite reassignId_other in Hu2 by done.
      rewrite (same_id T r v Hok r_in_T Hv Hvr) in *.
      rewrite reassignId_same in Hu1. cbn in Hu1.
      apply (no_user_vote w Hw); congruence.
    + exfalso. rewrite reassignId_other in Hu1 by done.
      rewrite (same_id T r w Hok r_in_T Hw Hwr) in *.
      rewrite reassignId_same in Hu2. cbn in Hu2.
      apply (no_user_vote v Hv); congruence.
    + rewrite !reassignId_other in Hu1, Hu2 by done. right; left. eauto.
  - destruct (decide (v_id v = v_id r)) as [Hvr|Hvr].
    { rewrite <- Hvr, reassignId_same in Hg1. done. }
    destruct (decide (v_id w = v_id r)) as [Hwr|Hwr].
    { rewrite <- Hwr, reassignId_same in Hg2. done. }
    rewrite !reassignId_other in Hg1, Hg2 by done. right; right. eauto.
Qed.

Lemma constraintsHold_afterUpdate : constraintsHold (afterUpdate user T r).
Proof.
  pose proof (proj2 Hwf) as Hid. split.
  - apply pairwiseOk_intro.
    + apply NoDup_fmap_2_strong; [|by apply pairwiseOk_NoDup].
      intros v w Hv Hw Heq. apply collides_afterUpdate; [done..|].
      rewrite Heq. apply collides_refl.
    + intros v' w' (v & -> & Hv)%list_elem_of_fmap (w & -> & Hw)%list_elem_of_fmap Hc.
      by rewrite (collides_afterUpdate v w Hv Hw Hc).
  - apply identity_spec. intros v' (v & -> & Hv)%list_elem_of_fmap.
    unfold reassignId. case_bool_decide; [done|].
    by apply (proj1 (identity_spec T) Hid).
Qed.

Lemma userIndexHolds_afterUpdate : userIndexHolds user (v_id r) (afterUpdate user T r) = true.
Proof.
  unfold userIndexHolds. apply forallb_forall. intros v _.
  apply orb_true_iff. right. apply Nat.leb_le.
  apply (userVotesOn_le_1 user (v_topic_id v) (afterUpdate user T r)).
  apply constraintsHold_afterUpdate.
Qed.

Lemma guestRows_fmap_reassignId (l : list VoteRow) :
  guestRows token (reassignId user (v_id r) <$> l)
  = filter (fun v => v_id v ≠ v_id r) (guestRows token l).
Proof.
  unfold guestRows. induction l as [|x l IH]; [done|].
  rewrite fmap_cons. destruct (decide (v_id x = v_id r)) as [Hid|Hid].
  - rewrite (reassignId_eq user (v_id r) x Hid).
    rewrite filter_cons_False by apply reassign_not_guest.
    rewrite IH, (filter_cons _ x). destruct (decide _); [|done].
    by rewrite filter_cons_False by (intros H; by apply H).
  - rewrite reassignId_other by done. rewrite !(filter_cons _ x), IH.
    destruct (decide _); [|done]. by rewrite filter_cons_True.
Qed.

Lemma guestRows_afterUpdate : guestRows token (afterUpdate user T r) = rest.
Proof. unfold afterUpdate. rewrite guestRows_fmap_reassignId. apply rest_after_filter. Qed.

Lemma userHasVote_rest v :
  v ∈ rest →
  userHasVote user (v_topic_id v) (afterUpdate user T r) = userHasVote user (v_topic_id v) T.
Proof.
  intros Hv. rewrite userHasVote_afterUpdate.
  destruct (guestRows_tail _ _ _ _ Hok Hrows v Hv) as (_ & _ & _ & Ht).
  rewrite (proj2 (eqb_false (v_topic_id r) (v_topic_id v))) by congruence.
  apply orb_false_r.
Qed.

Lemma mergedTable_afterUpdate :
  mergedTable token user (afterUpdate user T r) = mergedTable token user T.
Proof.
  unfold mergedTable, afterUpdate. rewrite omap_fmap.
  apply omap_ext_in. intros w Hw.
  destruct (decide (v_id w = v_id r)) as [Hid|Hid].
  - rewrite (same_id T r w Hok r_in_T Hw Hid), reassignId_same.
    unfold mergedRow.
    rewrite decide_False by apply reassign_not_guest.
    rewrite decide_True by apply r_guest. by rewrite Hfree.
  - rewrite reassignId_other by done. unfold mergedRow.
    destruct (decide (isGuestRow token w)) as [Hg|]; [|done].
    fold (afterUpdate user T r). by rewrite (userHasVote_rest w (guest_in_rest w Hw Hg Hid)).
Qed.

Lemma counts_afterUpdate :
  movedCount token user T = movedCount token user (afterUpdate user T r) + 1
  ∧ skippedCount token user (afterUpdate user T r) = skippedCount token user T.
Proof.
  unfold movedCount, skippedCount.
  rewrite guestRows_afterUpdate, Hrows.
  rewrite (filter_cons_True (fun x => userHasVote user (v_topic_id x) T = false)) by done.
  rewrite (filter_cons_False (fun x => userHasVote user (v_topic_id x) T = true))
    by congruence.
  rewrite (filter_ext_in (fun x => userHasVote user (v_topic_id x) (afterUpdate user T r) = false)
             (fun x => userHasVote user (v_topic_id x) T = false))
    by (intros x Hx; by rewrite userHasVote_rest).
  rewrite (filter_ext_in (fun x => userHasVote user (v_topic_id x) (afterUpdate user T r) = true)
             (fun x => userHasVote user (v_topic_id x) T = true))
    by (intros x Hx; by rewrite userHasVote_rest).
  cbn [length]. lia.
Qed.

End Step.

Lemma omap_Some {X} (f : X → option X) (l : list X) :
  (∀ x, x ∈ l → f x = Some x) → omap f l = l.
Proof.
  induction l as [|x l IH]; intros Hf; [done|]. cbn [omap list_omap].
  rewrite (Hf x) by left. rewrite IH by (intros y Hy; apply Hf; by right). done.
Qed.

Lemma mergedTable_no_guest token user T :
  guestRows token T = [] → mergedTable token user T = T.
Proof.
  intros Hnil. apply omap_Some. intros v Hv. unfold mergedRow.
  rewrite decide_False; [done|]. intros Hg.
  assert (Hin : v ∈ guestRows token T) by by apply guestRows_spec.
  rewrite Hnil in Hin. by apply elem_of_nil in Hin.
Qed.

(** The loop, run on a table that satisfies its constraints, ends without
    raising and leaves [mergedTable]. *)
Lemma mergeLoop_closed auth token user rs : user ∈ auth → ∀ T m s,
  constraintsHold T → guestRows token T = rs →
  ∃ st, mergeLoop auth user {| table := T; v_moved := m; v_skipped := s |} rs = Normal st
        ∧ table st = mergedTable token user T
        ∧ v_moved st = m + movedCount token user T
        ∧ v_skipped st = s + skippedCount token user T
        ∧ constraintsHold (table st).
Proof.
  intros Hauth. induction rs as [|r rest IH]; intros T m s Hwf Hrows.
  - eexists. split; [reflexivity|]. cbn [table v_moved v_skipped].
    unfold movedCount, skippedCount. rewrite Hrows, mergedTable_no_guest by done.
    cbn. split_and!; [done | lia | lia | done].
  - cbn [mergeLoop]. unfold mergeStep. cbn [table v_moved v_skipped].
    destruct (userHasVote user (v_topic_id r) T) eqn:Hhas.
    + change (filter (fun v => v_id v ≠ v_id r) T) with (afterDelete T r).
      destruct (IH (afterDelete T r) m (s + 1)
                  (constraintsHold_afterDelete T r Hwf)
                  (guestRows_afterDelete token T r rest Hwf Hrows))
        as (st & Hloop & Htable & Hm & Hs & Hwf').
      destruct (counts_afterDelete token user T r rest Hwf Hrows Hhas) as [Hcm Hcs].
      exists st. split_and!; [done | | | | done].
      * by rewrite Htable, (mergedTable_afterDelete token user T r rest Hwf Hrows Hhas).
      * rewrite Hm. lia.
      * rewrite Hs. lia.
    + change ((fun v => if bool_decide (v_id v = v_id r) then reassign user v else v) <$> T)
        with (afterUpdate user T r).
      rewrite (userIndexHolds_afterUpdate token user T r rest Hwf Hrows Hhas).
      rewrite (userKeyHolds_registered auth user _ _ Hauth). cbn [andb].
      destruct (IH (afterUpdate user T r) (m + 1) s
                  (constraintsHold_afterUpdate token user T r rest Hwf Hrows Hhas)
                  (guestRows_afterUpdate token user T r rest Hwf Hrows))
        as (st & Hloop & Htable & Hm & Hs & Hwf').
      destruct (counts_afterUpdate token user T r rest Hwf Hrows Hhas) as [Hcm Hcs].
      exists st. split_and!; [done | | | | done].
      * by rewrite Htable, (mergedTable_afterUpdate token user T r rest Hwf Hrows Hhas).
      * rewrite Hm. lia.
      * rewrite Hs. lia.
Qed.

Lemma mergedRow_id token user T w v : mergedRow token user T w = Some v → v_id v = v_id w.
Proof.
  unfold mergedRow. destruct (decide _); [destruct (userHasVote _ _ _)|];
    intros H; by simplify_eq.
Qed.

Lemma identity_guest v token :
  Ledger.votes_identity_check v = true → v_guest_token v = Some token →
  v_user_id v = None.
Proof.
  unfold Ledger.votes_identity_check. intros H Hg. rewrite Hg in H.
  by destruct (v_user_id v).
Qed.

(** C4.  On a table that satisfies its constraints, with a guest token
    that is not blank and a user registered in [auth.users],
    [merge_guest_votes_to_user] returns.  Every row stored under the guest
    token is deleted, and counted in [skipped], when the user already has a
    vote on its topic; otherwise it is counted in [moved] and the table
    holds, under its id, a row with [user_id] the user, [guest_token] null
    and [merged_from_guest] true whose other columns are those of the guest
    row.  The rows not stored under the token stay, and so do the other
    tables.  Afterwards no row is stored under the guest token and the user
    has exactly one vote on every topic the guest had voted on. *)
Theorem merge_guest_votes_correct (auth_users : list uuid) (db : Database)
    (token : jsstr) (user : uuid) :
  constraintsHold (votes db) →
  btrim token ≠ [] →
  user ∈ auth_users →
  ∃ result db',
    merge_guest_votes_to_user auth_users db (Some token) (Some user)
    = Normal (result, db')
    ∧ votes db' = mergedTable token user (votes db)
    ∧ moved result = movedCount token user (votes db)
    ∧ skipped result = skippedCount token user (votes db)
    ∧ (∀ g, g ∈ votes db → v_guest_token g = Some token →
            if userHasVote user (v_topic_id g) (votes db)
            then ∀ v, v ∈ votes db' → v_id v ≠ v_id g
            else ∃ v, v ∈ votes db'
                      ∧ v_id v = v_id g
                      ∧ v_user_id v = Some user
                      ∧ v_guest_token v = None
                      ∧ v_merged_from_guest v = true
                      ∧ v_topic_id v = v_topic_id g
                      ∧ v_option_key v = v_option_key g
                      ∧ v_school_id v = v_school_id g
                      ∧ v_aggregate_school_id v = v_aggregate_school_id g
                      ∧ v_birth_year v = v_birth_year g
                      ∧ v_gender v = v_gender g
                      ∧ v_sido_code v = v_sido_code g
                      ∧ v_sigungu_code v = v_sigungu_code g
                      ∧ v_created_at v = v_created_at g)
    ∧ (∀ v, v ∈ votes db → v_guest_token v ≠ Some token → v ∈ votes db')
    ∧ (∀ v, v ∈ votes db' → v_guest_token v ≠ Some token)
    ∧ (∀ g, g ∈ votes db → v_guest_token g = Some token →
            length (userVotesOn user (v_topic_id g) (votes db')) = 1%nat)
    ∧ constraintsHold (votes db')
    ∧ schools db' = schools db
    ∧ users db' = users db
    ∧ vote_options db' = vote_options db.
Proof.
  intros Hwf Hblank Hauth. unfold merge_guest_votes_to_user.
  rewrite (proj2 (eqb_false (btrim token) [])) by done.
  destruct (mergeLoop_closed auth_users token user _ Hauth (votes db) 0 0 Hwf eq_refl)
    as (st & -> & Htable & Hm & Hs & Hwf').
  eexists _, _. split; [reflexivity|].
  cbn [votes schools users vote_options Ledger.withVotes moved skipped].
  pose proof (proj2 Hwf) as Hident.
  assert (Hguest : ∀ g, g ∈ votes db → v_guest_token g = Some token →
                        isGuestRow token g).
  { intros g Hg Htok. split; [done|].
    apply (identity_guest g token); [|done].
    by apply (proj1 (identity_spec _) Hident). }
  assert (Hin : ∀ v, v ∈ table st ↔
                     ∃ w, w ∈ votes db ∧ mergedRow token user (votes db) w = Some v).
  { intros v. rewrite Htable. unfold mergedTable. apply list_elem_of_omap. }
  split_and!; [done | rewrite Hm; lia | rewrite Hs; lia | | | | | done | done..].
  - intros g Hg Htok. destruct (userHasVote user (v_topic_id g) (votes db)) eqn:Hhas.
    + intros v (w & Hw & Hrow)%Hin Hid.
      rewrite (mergedRow_id _ _ _ _ _ Hrow) in Hid.
      rewrite (same_id (votes db) g w (proj1 Hwf) Hg Hw Hid) in Hrow.
      unfold mergedRow in Hrow.
      rewrite decide_True, Hhas in Hrow by by apply Hguest. done.
    + exists (reassigned user g). split; [|by split_and!].
      apply Hin. exists g. split; [done|]. unfold mergedRow.
      rewrite decide_True, Hhas by by apply Hguest. done.
  - intros v Hv Htok. apply Hin. exists v. split; [done|]. unfold mergedRow.
    rewrite decide_False; [done|]. by intros [? _].
  - intros v (w & Hw & Hrow)%Hin Htok. unfold mergedRow in Hrow.
    destruct (decide (isGuestRow token w)) as [Hg|Hg].
    + destruct (userHasVote _ _ _); [done|]. by simplify_eq.
    + simplify_eq. by apply Hg, Hguest.
  - intros g Hg Htok.
    pose proof (userVotesOn_le_1 user (v_topic_id g) (table st) (proj1 Hwf')) as Hle.
    enough (0 < length (userVotesOn user (v_topic_id g) (table st)))%nat by lia.
    destruct (userHasVote user (v_topic_id g) (votes db)) eqn:Hhas.
    + apply userHasVote_spec in Hhas as (u0 & Hu0 & Ht & Hu).
      apply (length_filter_pos _ _ u0); [|done].
      apply Hin. exists u0. split; [done|]. unfold mergedRow.
      rewrite decide_False; [done|]. intros [_ Hnone]. congruence.
    + apply (length_filter_pos _ _ (reassigned user g)); [|done].
      apply Hin. exists g. split; [done|]. unfold mergedRow.
      rewrite decide_True, Hhas by by apply Hguest. done.
Qed.

Lemma userKeyHolds_unregistered auth user rid T v :
  user ∉ auth → v ∈ T → v_id v = rid → userKeyHolds auth user rid T = false.
Proof.
  intros Hauth Hv Hid. unfold userKeyHolds.
  apply not_true_is_false. intros Hall.
  pose proof (proj1 (forallb_forall _ _) Hall v (proj1 (list_elem_of_In _ _) Hv)) as Hcheck.
  cbn beta in Hcheck. rewrite bool_decide_eq_true_2 in Hcheck by done. cbn in Hcheck.
  by apply bool_decide_eq_true in Hcheck.
Qed.

Lemma mergeLoop_unregistered auth token user rs : user ∉ auth → ∀ T m s,
  constraintsHold T → guestRows token T = rs →
  (∃ g, g ∈ rs ∧ userHasVote user (v_topic_id g) T = false) →
  mergeLoop auth user {| table := T; v_moved := m; v_skipped := s |} rs = Throw.
Proof.
  intros Hauth. induction rs as [|r rest IH]; intros T m s Hwf Hrows (g & Hg & Hfree).
  - by apply elem_of_nil in Hg.
  - cbn [mergeLoop]. unfold mergeStep. cbn [table v_moved v_skipped].
    destruct (userHasVote user (v_topic_id r) T) eqn:Hhas.
    + change (filter (fun v => v_id v ≠ v_id r) T) with (afterDelete T r).
      apply (IH (afterDelete T r) m (s + 1)
               (constraintsHold_afterDelete T r Hwf)
               (guestRows_afterDelete token T r rest Hwf Hrows)).
      exists g. split.
      * apply elem_of_cons in Hg as [->|Hg]; [congruence | done].
      * by rewrite (userHasVote_afterDelete token user T r rest Hwf Hrows).
    + change ((fun v => if bool_decide (v_id v = v_id r) then reassign user v else v) <$> T)
        with (afterUpdate user T r).
      rewrite (userKeyHolds_unregistered auth user (v_id r) _ (reassignId user (v_id r) r)).
      * by rewrite andb_false_r.
      * done.
      * apply list_elem_of_fmap. exists r. split; [done|].
        apply (r_in_T token T r rest Hrows).
      * apply reassignId_id.
Qed.

(** X23.  Without the registration the update is refused: when a row
    stored under the token has to be reassigned to a user that [auth.users]
    does not hold, the function raises, and the transaction leaves the
    tables as they were. *)
Lemma merge_unregistered_user_raises (auth_users : list uuid) (db : Database)
    (token : jsstr) (user : uuid) (g : VoteRow) :
  constraintsHold (votes db) →
  user ∉ auth_users →
  g ∈ votes db → v_guest_token g = Some token →
  userHasVote user (v_topic_id g) (votes db) = false →
  merge_guest_votes_to_user auth_users db (Some token) (Some user) = Throw.
Proof.
  intros Hwf Hauth Hg Htok Hfree. unfold merge_guest_votes_to_user.
  destruct (eqb (btrim token) []); [done|].
  rewrite (mergeLoop_unregistered auth_users token user _ Hauth (votes db) 0 0 Hwf eq_refl);
    [done|].
  exists g. split; [|done]. apply guestRows_spec. split; [|done].
  split; [done|]. apply (identity_guest g token); [|done].
  by apply (proj1 (identity_spec _) (proj2 Hwf)).
Qed.

(** *** On a guest who voted on two topics and a user who voted on one *)

Lemma merge_idempotent_witness :
  merge_guest_votes_to_user authUsers afterMerge (Some GUEST) (Some USER)
  = Normal ({| moved := 0; skipped := 0 |}, afterMerge).
Proof.
  apply (merge_idempotent authUsers authUsers beforeMerge afterMerge (Some GUEST)
           (Some USER) {| moved := 1; skipped := 1 |}).
  vm_compute. reflexivity.
Defined.

Lemma merge_guest_votes_correct_witness :
  ∃ result db',
    merge_guest_votes_to_user authUsers beforeMerge (Some GUEST) (Some USER)
    = Normal (result, db')
    ∧ votes db' = mergedTable GUEST USER (votes beforeMerge)
    ∧ (∃ v, v ∈ votes db' ∧ v_id v = v_id guestVoteB ∧ v_user_id v = Some USER
            ∧ v_guest_token v = None ∧ v_merged_from_guest v = true)
    ∧ length (userVotesOn USER (js "popular-vote") (votes db')) = 1%nat
    ∧ length (userVotesOn USER (js "school-lunch") (votes db')) = 1%nat.
Proof.
  destruct (merge_guest_votes_correct authUsers beforeMerge GUEST USER)
    as (result & db' & Hrun & Htable & _ & _ & Hrow & _ & _ & Hone & _).
  - split; vm_compute; reflexivity.
  - vm_compute. discriminate.
  - by left.
  - assert (HA : guestVoteA ∈ votes beforeMerge)
      by (apply list_elem_of_In; vm_compute; tauto).
    assert (HB : guestVoteB ∈ votes beforeMerge)
      by (apply list_elem_of_In; vm_compute; tauto).
    exists result, db'. split_and!; [done | done | | |].
    + specialize (Hrow guestVoteB HB eq_refl).
      change (userHasVote USER (v_topic_id guestVoteB) (votes beforeMerge))
        with false in Hrow.
      destruct Hrow as (v & Hv & Hid & Hu & Hg & Hm & _). eauto 10.
    + apply (Hone guestVoteA); [done | reflexivity].
    + apply (Hone guestVoteB); [done | reflexivity].
Defined.

(** [guestVoteB] has to be reassigned, and [auth.users] is empty. *)
Lemma merge_unregistered_user_raises_witness :
  merge_guest_votes_to_user [] beforeMerge (Some GUEST) (Some USER) = Throw.
Proof.
  apply (merge_unregistered_user_raises [] beforeMerge GUEST USER guestVoteB).
  - split; vm_compute; reflexivity.
  - apply not_elem_of_nil.
  - apply list_elem_of_In. vm_compute. tauto.
  - reflexivity.
  - vm_compute. reflexivity.
Defined.

End MergeProps.

(** ** Properties of the vote submission handler *)

Module LedgerProps.
Import Ledger VotesProps VotesSpec LedgerSpec.

Lemma votes_identity_check_spec v :
  votes_identity_check v = true ↔ exactlyOneIdentity v.
Proof.
  unfold votes_identity_check, exactlyOneIdentity.
  destruct (v_user_id v) as [u|], (v_guest_token v) as [g|]; split; intros Hv;
    try done; try (by destruct Hv as [[[? ?] ?] | [? [? ?]]]).
  - left. eauto.
  - right. eauto.
Qed.

Lemma insertVote_inserted db v db' :
  insertVote db v = inr db' →
  db' = withVotes db (votes db ++ [v])
  ∧ votes_identity_check v = true
  ∧ existsb (collides v) (votes db) = false.
Proof.
  unfold insertVote.
  destruct (votes_identity_check v && birth_year_check v) eqn:Hc; [|done]. cbn [negb].
  destruct (existsb (collides v) (votes db)) eqn:Hu; [done|].
  destruct (references_ok db v); [|done]. cbn [negb].
  intros H; injection H as <-. apply andb_true_iff in Hc as [? _]. done.
Qed.

(** The storage layer on its own refuses a second row of an identity on a
    topic: it answers with a uniqueness violation (or, for a row that fails
    a check constraint, with that). *)
Lemma insertVote_duplicate db v w :
  w ∈ votes db → collides v w = true →
  insertVote db v = inl unique_violation ∨ insertVote db v = inl check_violation.
Proof.
  intros Hw Hc. unfold insertVote.
  destruct (votes_identity_check v && birth_year_check v); [|by right]. cbn [negb].
  assert (Hex : existsb (collides v) (votes db) = true).
  { apply existsb_exists. exists w. split; [by apply list_elem_of_In | done]. }
  rewrite Hex. by left.
Qed.

Lemma constraintsHold_insert db v db' :
  constraintsHold (votes db) → insertVote db v = inr db' → constraintsHold (votes db').
Proof.
  intros [Hok Hid] (-> & Hcheck & Hfree)%insertVote_inserted. cbn [votes withVotes].
  split; [by apply pairwiseOk_snoc|].
  rewrite forallb_app, Hid. cbn. by rewrite Hcheck.
Qed.

Section Handler.

Context `{collaborators : Collaborators}.

Lemma gatherDemographics_tables db user body d db1 :
  gatherDemographics db user body = inr (d, db1) →
  votes db1 = votes db ∧ vote_options db1 = vote_options db.
Proof.
  unfold Ledger.gatherDemographics.
  repeat case_match; intros ?; simplify_eq; done.
Qed.

(** Either the handler leaves the votes as they are and does not answer
    201, or it passed every test and the insert of its row succeeded. *)
Lemma POST_cases fresh db user body response db' :
  POST fresh db user body = (response, db') →
  (votes db' = votes db ∧ ∀ row, response ≠ Created row)
  ∨ ∃ d dbg,
      validBody body = true
      ∧ registeredOption db (topicId body) (optionKey body)
      ∧ negb (truthyOpt (voterUserIdOf user))
        && negb (truthyOpt (guestTokenOf user body)) = false
      ∧ preCheck db user body = None
      ∧ gatherDemographics db user body = inr (d, dbg)
      ∧ response = Created (voteRowOf (isUnlimitedAdmin user) fresh user body d)
      ∧ insertVote dbg (voteRowOf (isUnlimitedAdmin user) fresh user body d) = inr db'.
Proof.
  unfold Ledger.POST.
  destruct (validBody body) eqn:Hvalid; cbn [negb];
    [|intros H; injection H as <- <-; by left].
  destruct (negb (truthyOpt (voterUserIdOf user))
            && negb (truthyOpt (guestTokenOf user body))) eqn:Hident;
    [intros H; injection H as <- <-; by left|].
  destruct (maybeSingle _) as [|o|] eqn:Hoption;
    [intros H; injection H as <- <-; by left | |intros H; injection H as <- <-; by left].
  assert (Hreg : registeredOption db (topicId body) (optionKey body)).
  { unfold maybeSingle in Hoption. unfold registeredOption.
    destruct (filter _ (vote_options db)) as [|o' [|]]; simplify_eq. eauto. }
  destruct (preCheck db user body) as [r|] eqn:Hpre.
  { intros H; injection H as <- <-. left. split; [done|].
    intros row ->. unfold Ledger.preCheck in Hpre. repeat case_match; simplify_eq. }
  destruct (gatherDemographics db user body) as [r|[d dbg]] eqn:Hgather.
  { intros H; injection H as <- <-. left. split; [done|].
    intros row ->. unfold Ledger.gatherDemographics in Hgather.
    repeat case_match; simplify_eq. }
  destruct (gatherDemographics_tables _ _ _ _ _ Hgather) as [Hvotes _].
  destruct (isUnlimitedAdmin user) eqn:Hadmin; cbv zeta;
    (destruct (insertVote dbg _) as [[]|db2] eqn:Hinsert;
     intros H; injection H as <- <-; try (left; by split);
     right; exists d, dbg; split_and!; try done; exact Hinsert).
Qed.

(** The constraints of [votes] hold in every state the handler leaves. *)
Lemma constraintsHold_POST fresh db user body :
  constraintsHold (votes db) →
  constraintsHold (votes (POST fresh db user body).2).
Proof.
  intros Hwf. destruct (POST fresh db user body) as [response db'] eqn:Hpost.
  cbn [snd]. apply POST_cases in Hpost
    as [[-> _] | (d & dbg & _ & _ & _ & _ & Hgather & _ & Hinsert)]; [done|].
  destruct (gatherDemographics_tables _ _ _ _ _ Hgather) as [Hvotes _].
  eapply (constraintsHold_insert dbg); [by rewrite Hvotes | exact Hinsert].
Qed.

Lemma mergeLoop_identity auth user rs : ∀ st st',
  Merge.mergeLoop auth user st rs = Normal st' →
  Forall exactlyOneIdentity (Merge.table st) →
  Forall exactlyOneIdentity (Merge.table st').
Proof.
  induction rs as [|r rest IH]; intros st st'; cbn [Merge.mergeLoop].
  - intros H; by injection H as <-.
  - destruct (Merge.mergeStep auth user st r) as [st1|] eqn:Hstep; [|done].
    intros Hloop Hst. apply (IH st1 st' Hloop).
    unfold Merge.mergeStep in Hstep.
    destruct (Merge.userHasVote _ _ _).
    + injection Hstep as <-. cbn [Merge.table].
      apply Forall_forall. intros v [_ Hv]%list_elem_of_filter.
      by apply (proj1 (Forall_forall _ _) Hst).
    + destruct (Merge.userIndexHolds _ _ _ && Merge.userKeyHolds _ _ _ _); [|done].
      injection Hstep as <-. cbn [Merge.table].
      apply Forall_fmap. eapply Forall_impl; [exact Hst|].
      intros v Hv. cbn. case_bool_decide; [|done]. left. by eauto.
Qed.

(** C3.  Every stored vote has exactly one of [user_id] and [guest_token]:
    the property holds of the empty table and is kept by every submission
    (of a user, of a guest, of an unlimited voter, whose row carries a
    synthetic guest token and no user) and by the guest merge. *)
Theorem identity_exclusive :
  Forall exactlyOneIdentity []
  ∧ (∀ fresh db user body,
        Forall exactlyOneIdentity (votes db) →
        Forall exactlyOneIdentity (votes (POST fresh db user body).2))
  ∧ (∀ fresh db user body row db',
        POST fresh db user body = (Created row, db') →
        exactlyOneIdentity row
        ∧ (if isUnlimitedAdmin user
           then v_user_id row = None
                ∧ v_guest_token row
                  = Some (js "admin-" ++ default (js "null") (voterUserIdOf user)
                          ++ js "-" ++ randomToken fresh)
           else v_user_id row = voterUserIdOf user
                ∧ v_guest_token row = guestTokenOf user body))
  ∧ (∀ auth_users db token user result db',
        Forall exactlyOneIdentity (votes db) →
        Merge.merge_guest_votes_to_user auth_users db token user = Normal (result, db') →
        Forall exactlyOneIdentity (votes db')).
Proof.
  split_and!.
  - constructor.
  - intros fresh db user body Hdb.
    destruct (POST fresh db user body) as [response db'] eqn:Hpost. cbn [snd].
    apply POST_cases in Hpost
      as [[-> _] | (d & dbg & _ & _ & _ & _ & Hgather & _ & Hinsert)]; [done|].
    apply insertVote_inserted in Hinsert as (-> & Hcheck & _). cbn [votes withVotes].
    destruct (gatherDemographics_tables _ _ _ _ _ Hgather) as [-> _].
    apply Forall_app. split; [done|]. constructor; [|constructor].
    by apply votes_identity_check_spec.
  - intros fresh db user body row db' Hpost.
    apply POST_cases in Hpost
      as [[_ Hno] | (d & dbg & _ & _ & _ & _ & _ & Hresp & Hinsert)];
      [by destruct (Hno row)|].
    injection Hresp as ->.
    apply insertVote_inserted in Hinsert as (_ & Hcheck & _).
    split; [by apply votes_identity_check_spec|].
    by destruct (isUnlimitedAdmin user).
  - intros auth_users db token user result db' Hdb.
    unfold Merge.merge_guest_votes_to_user.
    destruct token as [token|]; [|done]. destruct user as [user|]; [|done].
    destruct (eqb (Merge.btrim token) []); [done|].
    destruct (Merge.mergeLoop _ _ _) as [st|] eqn:Hloop; [|done].
    intros H; injection H as <- <-. cbn [votes withVotes].
    by apply (mergeLoop_identity _ _ _ _ _ Hloop).
Qed.

(** C1.  When a submission of an identity that is not an unlimited voter
    was stored (201), a further well-formed submission of the same identity
    for the same topic, with any registered option, is answered with the
    conflict (409) by the pre-check and changes nothing; the table then
    holds exactly one vote of that identity on the topic; and the unique
    indexes by themselves refuse any further row of that identity on the
    topic with a uniqueness violation, which the handler turns into the
    same conflict. *)
Theorem vote_uniqueness (fresh1 fresh2 : Fresh) (db db1 : Database)
    (user : option AuthUser) (body1 body2 : VoteBody) (row : VoteRow) :
  constraintsHold (votes db) →
  isUnlimitedAdmin user = false →
  POST fresh1 db user body1 = (Created row, db1) →
  validBody body2 = true →
  topicId body2 = topicId body1 →
  guestTokenOf user body2 = guestTokenOf user body1 →
  registeredOption db1 (topicId body2) (optionKey body2) →
  POST fresh2 db1 user body2 = (Conflict, db1)
  ∧ v_user_id row = voterUserIdOf user
  ∧ v_guest_token row = guestTokenOf user body1
  ∧ (∀ uid, v_user_id row = Some uid →
            length (userVotesOn uid (topicId body1) (votes db1)) = 1%nat)
  ∧ (∀ g, v_guest_token row = Some g →
          length (guestVotesOn g (topicId body1) (votes db1)) = 1%nat)
  ∧ (∀ v, v_topic_id v = topicId body1 →
          v_user_id v = v_user_id row → v_guest_token v = v_guest_token row →
          votes_identity_check v && birth_year_check v = true →
          insertVote db1 v = inl unique_violation).
Proof.
  intros Hwf Hadmin Hpost Hvalid2 Htopic Hguest Hreg2.
  apply POST_cases in Hpost
    as [[_ Hno] | (d & dbg & _ & _ & Hident & _ & Hgather & Hresp & Hinsert)];
    [by destruct (Hno row)|].
  injection Hresp as ->. rewrite Hadmin in *.
  set (row := voteRowOf false fresh1 user body1 d) in *.
  destruct (gatherDemographics_tables _ _ _ _ _ Hgather) as [Hvotes _].
  assert (Hwf1 : constraintsHold (votes db1)).
  { apply (constraintsHold_insert dbg row); [by rewrite Hvotes | done]. }
  apply insertVote_inserted in Hinsert as (Hdb1 & Hcheck & Hfree).
  assert (Hrow : row ∈ votes db1).
  { rewrite Hdb1. cbn [votes withVotes]. apply elem_of_app. right. left. }
  assert (Huser : ∀ uid, v_user_id row = Some uid →
            ∃ x, userVotesOn uid (topicId body1) (votes db1) = [x]).
  { intros uid Hu.
    pose proof (userVotesOn_le_1 uid (topicId body1) (votes db1) (proj1 Hwf1)) as Hle.
    pose proof (length_filter_pos
                  (fun v => v_topic_id v = topicId body1 ∧ v_user_id v = Some uid)
                  (votes db1) row Hrow (conj eq_refl Hu)) as Hpos.
    unfold userVotesOn in *.
    destruct (filter _ (votes db1)) as [|x [|y l]]; cbn in *; [lia | eauto | lia]. }
  assert (Hguestrow : ∀ g, v_guest_token row = Some g →
            ∃ x, guestVotesOn g (topicId body1) (votes db1) = [x]).
  { intros g Hg.
    pose proof (guestVotesOn_le_1 g (topicId body1) (votes db1) (proj1 Hwf1)) as Hle.
    pose proof (length_filter_pos
                  (fun v => v_topic_id v = topicId body1 ∧ v_guest_token v = Some g)
                  (votes db1) row Hrow (conj eq_refl Hg)) as Hpos.
    unfold guestVotesOn in *.
    destruct (filter _ (votes db1)) as [|x [|y l]]; cbn in *; [lia | eauto | lia]. }
  split_and!; [| done | done | | |].
  - unfold Ledger.POST. rewrite Hvalid2. cbn [negb]. rewrite Hguest, Hident.
    destruct Hreg2 as [o ->]. cbn [maybeSingle].
    unfold Ledger.preCheck. rewrite Hadmin, Htopic, Hguest. cbn [negb].
    apply andb_false_iff in Hident.
    destruct (voterUserIdOf user) as [uid|] eqn:Hvoter.
    + destruct (truthy uid) eqn:Huid; cbn [truthyOpt andb].
      * rewrite Huid. cbn [andb].
        destruct (Huser uid Hvoter) as [x Hx]. unfold userVotesOn in Hx.
        rewrite Hx. done.
      * rewrite Huid. cbn [andb].
        destruct Hident as [Hi|Hi]; [cbn [truthyOpt] in Hi; by rewrite Huid in Hi|].
        apply negb_false_iff in Hi. rewrite Hi.
        (* a user id that is empty and a guest token: the identity check
           of the first insert rules this out *)
        exfalso. unfold votes_identity_check, row in Hcheck.
        cbn [v_user_id v_guest_token voteRowOf] in Hcheck.
        rewrite Hvoter in Hcheck.
        destruct (guestTokenOf user body1); [done | done].
    + cbn [truthyOpt andb]. destruct Hident as [Hi|Hi]; [done|].
      apply negb_false_iff in Hi. rewrite Hi.
      destruct (guestTokenOf user body1) as [g|] eqn:Hg; [|done].
      destruct (Hguestrow g Hg) as [x Hx]. unfold guestVotesOn in Hx.
      rewrite Hx. done.
  - intros uid Hu. destruct (Huser uid Hu) as [x ->]. done.
  - intros g Hg. destruct (Hguestrow g Hg) as [x ->]. done.
  - intros v Ht Hu Hg Hchecks. unfold insertVote. rewrite Hchecks. cbn [negb].
    assert (Hex : existsb (collides v) (votes db1) = true); [|by rewrite Hex].
    apply existsb_exists. exists row. split; [by apply list_elem_of_In|].
    apply collides_spec. right.
    apply votes_identity_check_spec in Hcheck as [[[uid Huid] _] | [_ [g Hgt]]].
    + left. split; [done|]. exists uid. split; congruence.
    + right. split; [done|]. exists g. split; congruence.
Qed.

(** X24.  The vote of a stored submission with a profile carries the
    school and the region codes of the row [ensureSchool] returned, as they
    are. *)
Lemma POST_copies_school_codes fresh db user body p row db' :
  POST fresh db user body = (Created row, db') →
  profile body = Some p →
  ∃ ensuredSchool schools',
    ensureSchool (schools db) (p_school p) = Normal (ensuredSchool, schools')
    ∧ v_school_id row = schoolId ensuredSchool
    ∧ v_sido_code row = s_sido_code (schoolRow ensuredSchool)
    ∧ v_sigungu_code row = s_sigungu_code (schoolRow ensuredSchool).
Proof.
  intros Hpost Hprofile.
  apply POST_cases in Hpost
    as [[_ Hno] | (d & dbg & _ & _ & _ & _ & Hgather & Hresp & _)];
    [by destruct (Hno row)|].
  injection Hresp as ->. unfold gatherDemographics in Hgather.
  rewrite Hprofile in Hgather.
  destruct (ensureSchool (schools db) (p_school p)) as [[ensuredSchool schools']|];
    [|done].
  exists ensuredSchool, schools'. split; [done|].
  destruct (voterUserIdOf user) as [id|]; [destruct (truthy id)|];
    injection Hgather as <- _; done.
Qed.
End Handler.

(** *** On a guest who submits twice *)

Lemma vote_uniqueness_witness :
  POST (collaborators := knownSchool) secondFresh oneVoteLedger None (guestBody (js "busan"))
  = (Conflict, oneVoteLedger)
  ∧ length (guestVotesOn GUEST (js "popular-vote") (votes oneVoteLedger)) = 1%nat.
Proof.
  destruct (vote_uniqueness (collaborators := knownSchool) firstFresh secondFresh
              emptyLedger oneVoteLedger None
              (guestBody (js "seoul")) (guestBody (js "busan")) firstVote)
    as (Hsecond & _ & _ & _ & Hone & _).
  - split; reflexivity.
  - reflexivity.
  - vm_compute. reflexivity.
  - reflexivity.
  - reflexivity.
  - reflexivity.
  - eexists. vm_compute. reflexivity.
  - split; [exact Hsecond|]. by apply Hone.
Defined.

Lemma identity_exclusive_witness :
  Forall exactlyOneIdentity
    (votes (POST (collaborators := knownSchool) secondFresh oneVoteLedger
              (Some {| au_id := USER; au_email := None |})
              (guestBody (js "busan"))).2).
Proof.
  apply (proj1 (proj2 (identity_exclusive (collaborators := knownSchool)))).
  constructor; [|constructor]. right. split; [reflexivity | by eexists].
Defined.

Lemma POST_copies_school_codes_witness :
  ∃ ensuredSchool schools',
    ensureSchool (Collaborators := knownSchool) (schools emptyLedger)
      (p_school {| birthYear := 2008; gender := female; p_school := seoulItem |})
    = Normal (ensuredSchool, schools')
    ∧ v_school_id firstVote = schoolId ensuredSchool
    ∧ v_sido_code firstVote = s_sido_code (schoolRow ensuredSchool)
    ∧ v_sigungu_code firstVote = s_sigungu_code (schoolRow ensuredSchool).
Proof.
  apply (POST_copies_school_codes (collaborators := knownSchool) firstFresh emptyLedger
           None (guestBody (js "seoul"))
           {| birthYear := 2008; gender := female; p_school := seoulItem |}
           firstVote oneVoteLedger).
  - vm_compute. reflexivity.
  - reflexivity.
Defined.

End LedgerProps.

(** ** Properties of [ensureSchool] *)

Module SchoolsProps.
Import Regions Ledger Schools RegionsSpec SchoolsSpec.

Lemma maybeSingle_OneRow {T} (l : list T) (x : T) : maybeSingle l = OneRow x → l = [x].
Proof. destruct l as [|a [|b l]]; cbn; intros H; by simplify_eq. Qed.

Lemma maybeSingle_NoRow {T} (l : list T) : maybeSingle l = NoRow → l = [].
Proof. destruct l as [|a [|b l]]; cbn; intros H; by simplify_eq. Qed.

Lemma orResolveSidoCode_given code sidoName c :
  code = Some c → orResolveSidoCode code sidoName = SidoCode c.
Proof. by intros ->. Qed.

Lemma ensureNew_returned cache parsed newId schools item e schools' :
  (ensureNew cache parsed newId schools item).1 = Returned (e, schools') →
  ∃ resolved,
    e = ensured (schoolRow e)
    ∧ schools' = schools ++ [schoolRow e]
    ∧ s_id (schoolRow e) = newId
    ∧ s_source (schoolRow e) = i_source item
    ∧ s_school_code (schoolRow e) = i_schoolCode item
    ∧ s_sido_code (schoolRow e)
      = codeOf (orResolveSidoCode (i_sidoCode item) (i_sidoName item))
    ∧ s_sigungu_code (schoolRow e) = orElse (i_sigunguCode item) (sigunguCode resolved).
Proof.
  unfold ensureNew.
  destruct (orResolveSidoCode _ _) as [c| |k] eqn:Hsido; [| |done].
  all: destruct (resolveSigunguCode _ _ _) as [[resolved|] cache'] eqn:Hres; [|done].
  all: destruct (existsb _ schools || negb _); [done|].
  all: cbn [fst]; intros H; injection H as <- <-; exists resolved; done.
Qed.

Lemma single_updated (f : SchoolRow → SchoolRow) (id : uuid) (schools : list SchoolRow)
    (existing updated : SchoolRow) :
  filter (fun s => s_id s = id) (f <$> schools) = [updated] →
  existing ∈ schools → s_id (f existing) = id → updated = f existing.
Proof.
  intros Hupd Hex Hid.
  assert (f existing ∈ filter (fun s => s_id s = id) (f <$> schools)) as Hin
    by (apply list_elem_of_filter; split; [done | by apply list_elem_of_fmap_2]).
  rewrite Hupd in Hin. by apply list_elem_of_singleton in Hin.
Qed.

Lemma ensureExisting_returned cache parsed schools item existing e schools' :
  existing ∈ schools →
  (ensureExisting cache parsed schools item existing).1 = Returned (e, schools') →
  ∃ resolved,
    e = ensured (schoolRow e)
    ∧ schoolRow e ∈ schools'
    ∧ length schools' = length schools
    ∧ s_id (schoolRow e) = s_id existing
    ∧ s_source (schoolRow e) = s_source existing
    ∧ s_school_code (schoolRow e) = s_school_code existing
    ∧ s_sido_code (schoolRow e)
      = codeOf (orResolveSidoCode (orElse (s_sido_code existing) (i_sidoCode item))
                  (orElse (i_sidoName item) (s_sido_name existing)))
    ∧ s_sigungu_code (schoolRow e)
      = orElse (orElse (s_sigungu_code existing) (i_sigunguCode item))
          (sigunguCode resolved).
Proof.
  intros Hex. unfold ensureExisting.
  destruct (orResolveSidoCode _ _) as [c| |k] eqn:Hsido; [| |done].
  all: destruct (resolveSigunguCode _ _ _) as [[resolved|] cache'] eqn:Hres; [|done].
  all: cbv zeta.
  all: match goal with |- context [if ?b then _ else _] => destruct b eqn:Hneeds end.
  all: try (destruct (filter _ (_ <$> schools)) as [|updated [|]] eqn:Hupd; [done| |done];
            apply (single_updated _ _ _ existing) in Hupd as Hin;
              [|done|cbn beta; by rewrite bool_decide_eq_true_2];
            cbn beta in Hin; rewrite bool_decide_eq_true_2 in Hin by done;
            assert (updated ∈ filter (fun s => s_id s = s_id existing)
                      ((fun s => if bool_decide (s_id s = s_id existing)
                                 then withRegion s _ _ _ else s) <$> schools)) as Hmem
              by (rewrite Hupd; left);
            apply list_elem_of_filter in Hmem as [_ Hmem];
            subst updated).
  all: cbn [fst]; intros H; injection H as <- <-; exists resolved;
       cbn [schoolRow ensured withRegion s_id s_source s_school_code s_sido_code
              s_sigungu_code codeOf].
  all: try (split_and!; [done | exact Hmem | by rewrite length_fmap | done..]).
  all: apply orb_false_iff in Hneeds as [[H1 H2]%orb_false_iff H3].
  all: apply negb_false_iff, bool_decide_eq_true in H1, H2, H3.
  all: split_and!; done.
Qed.

(** X25.  What [ensureSchool] returns is a row of the table it leaves, with
    the source and the school code of the request.  A school that was
    stored keeps its id and every region code it had, and a municipality
    code it lacked is taken from the request when the request has one; a
    school that was not stored is appended under the fresh id with the
    codes of the request when it has them.  In neither case is a code of
    the request compared with anything. *)
Theorem ensureSchool_stores_codes (cache : option (list Municipality))
    (parsed : MunicipalityCollection) (newId : uuid) (schools : list SchoolRow)
    (item : SchoolSearchItem) (e : EnsuredSchool) (schools' : list SchoolRow) :
  (Schools.ensureSchool cache parsed newId schools item).1 = Returned (e, schools') →
  schoolRow e ∈ schools'
  ∧ s_source (schoolRow e) = i_source item
  ∧ s_school_code (schoolRow e) = i_schoolCode item
  ∧ schoolId e = s_id (schoolRow e)
  ∧ aggregateSchoolId e = default (s_id (schoolRow e)) (s_parent_school_id (schoolRow e))
  ∧ (∀ existing,
       existing ∈ schools → s_source existing = i_source item →
       s_school_code existing = i_schoolCode item →
       s_id (schoolRow e) = s_id existing
       ∧ length schools' = length schools
       ∧ (∀ c, s_sido_code existing = Some c → s_sido_code (schoolRow e) = Some c)
       ∧ (∀ c, s_sigungu_code existing = Some c → s_sigungu_code (schoolRow e) = Some c)
       ∧ (∀ c, s_sido_code existing = None → i_sidoCode item = Some c →
               s_sido_code (schoolRow e) = Some c)
       ∧ (∀ c, s_sigungu_code existing = None → i_sigunguCode item = Some c →
               s_sigungu_code (schoolRow e) = Some c))
  ∧ ((∀ s, s ∈ schools → ¬ (s_source s = i_source item
                             ∧ s_school_code s = i_schoolCode item)) →
     schools' = schools ++ [schoolRow e]
     ∧ s_id (schoolRow e) = newId
     ∧ (∀ c, i_sidoCode item = Some c → s_sido_code (schoolRow e) = Some c)
     ∧ (∀ c, i_sigunguCode item = Some c → s_sigungu_code (schoolRow e) = Some c)).
Proof.
  unfold Schools.ensureSchool.
  set (matching := filter _ schools).
  assert (Hmatching : ∀ x, x ∈ matching ↔
            (s_source x = i_source item ∧ s_school_code x = i_schoolCode item) ∧ x ∈ schools)
    by (intros x; unfold matching; by rewrite list_elem_of_filter).
  destruct (maybeSingle matching) as [|existing|] eqn:Hsingle; [| |done].
  - apply maybeSingle_NoRow in Hsingle. intros Hnew.
    apply ensureNew_returned in Hnew
      as (resolved & He & -> & Hid & Hsrc & Hcode & Hsido & Hsigungu).
    split_and!; [apply elem_of_app; right; left | done | done
                | by rewrite He | by rewrite He | |].
    + intros existing Hin Hs Hc. exfalso.
      assert (existing ∈ matching) as Hf by (by apply Hmatching).
      rewrite Hsingle in Hf. by apply elem_of_nil in Hf.
    + intros _. split_and!; [done | done | |].
      * intros c Hc. by rewrite Hsido, (orResolveSidoCode_given _ _ c Hc).
      * intros c Hc. by rewrite Hsigungu, Hc.
  - apply maybeSingle_OneRow in Hsingle.
    assert (existing ∈ matching) as Hex by (rewrite Hsingle; left).
    apply Hmatching in Hex as [[Hsrc Hcode] Hex]. intros Hold.
    apply (ensureExisting_returned _ _ _ _ _ _ _ Hex) in Hold
      as (resolved & He & Hin & Hlen & Hid & Hsrc' & Hcode' & Hsido & Hsigungu).
    split_and!; [done | congruence | congruence | by rewrite He | by rewrite He | |].
    + intros x Hx Hxs Hxc.
      assert (x ∈ matching) as Hxm by (by apply Hmatching).
      rewrite Hsingle in Hxm. apply list_elem_of_singleton in Hxm as ->.
      split_and!; [done | done | | | |].
      * intros c Hc. by rewrite Hsido, Hc.
      * intros c Hc. by rewrite Hsigungu, Hc.
      * intros c Hnone Hc. by rewrite Hsido, Hnone, Hc.
      * intros c Hnone Hc. by rewrite Hsigungu, Hnone, Hc.
    + intros Hnone. exfalso. by apply (Hnone existing Hex).
Qed.

Lemma ensureSchool_stores_codes_witness :
  clientRow ∈ [clientRow]
  ∧ s_sido_code clientRow = Some (js "11")
  ∧ s_sigungu_code clientRow = Some (js "23030").
Proof.
  destruct (ensureSchool_stores_codes None incheonGazetteer SCHOOL_1 [] clientItem
              (ensured clientRow) [clientRow])
    as (Hin & _ & _ & _ & _ & _ & Hnew).
  - vm_compute. reflexivity.
  - destruct Hnew as (_ & _ & Hsido & Hsigungu).
    + intros s Hs. by apply elem_of_nil in Hs.
    + split_and!; [exact Hin | by apply Hsido | by apply Hsigungu].
Defined.

(** C10, as the spec states it, fails for the rows that are written.
    [ensureSchool] stores the codes a client names in the profile of a vote
    as they are: the row inserted for [clientItem] has the province code 11
    and the municipality code 23030, which does not start with 11.  And
    where no province is known the resolver searches the whole gazetteer:
    for an address in Busan (province 21) it returns municipality 23030,
    the first [남구] of the list, and [ensureSchool] stores it; with the
    list in the order of the codes it is an address in Incheon (province
    23) that gets the [남구] of Busan, 21070. *)
Lemma stored_code_counterexample :
  (Schools.ensureSchool None incheonGazetteer SCHOOL_1 [] clientItem).1
  = Returned (ensured clientRow, [clientRow])
  ∧ s_sido_code clientRow = Some (js "11")
  ∧ s_sigungu_code clientRow = Some (js "23030")
  ∧ startsWith (js "23030") (js "11") = false
  ∧ (resolveSigunguCode None incheonGazetteer busanAddress).1
    = Normal {| sigunguCode := Some (js "23030"); r_sigunguName := Some (js "남구") |}
  ∧ resolveSidoCode (Some (js "부산광역시")) = SidoCode (js "21")
  ∧ startsWith (js "23030") (js "21") = false
  ∧ (Schools.ensureSchool None incheonGazetteer UNIV_1 [] busanItem).1
    = Returned (ensured busanRow, [busanRow])
  ∧ (resolveSigunguCode None sortedGazetteer incheonAddress).1
    = Normal {| sigunguCode := Some (js "21070"); r_sigunguName := Some (js "남구") |}
  ∧ resolveSidoCode (Some (js "인천광역시")) = SidoCode (js "23")
  ∧ startsWith (js "21070") (js "23") = false.
Proof. split_and!; vm_compute; reflexivity. Qed.
End SchoolsProps.

(** ** Properties of the candidates of the region resolver *)

Module CandidatesProps.
Import Regions RegionsSpec RegionsProps CandidatesSpec.

Lemma trimStart_noSpace s : noSpace s → trimStart s = s.
Proof. intros H. destruct H as [|c r Hc _]; [done|]. cbn. by rewrite Hc. Qed.

Lemma trim_noSpace s : noSpace s → trim s = s.
Proof.
  intros H. unfold trim. rewrite (trimStart_noSpace s H).
  rewrite trimStart_noSpace; [apply reverse_involutive|].
  unfold noSpace. by rewrite Forall_reverse.
Qed.

Lemma removeSpaces_noSpace s : noSpace (removeSpaces s).
Proof.
  unfold noSpace, removeSpaces. apply Forall_forall. intros c Hc.
  by apply list_elem_of_filter in Hc as [Hc _].
Qed.


Lemma addressTokens_truthy a : Forall (fun t => truthy t = true) (addressTokens a).
Proof.
  unfold addressTokens. apply Forall_forall. intros t Ht.
  by apply list_elem_of_filter in Ht as [Ht _].
Qed.

Lemma app_ne_self (s t : list N) : truthy t = true → s ++ t ≠ s.
Proof.
  intros Ht Heq. apply (f_equal length) in Heq. rewrite length_app in Heq.
  destruct t; [done|]. cbn in Heq. revert Heq. generalize (length s). intros k Hk. lia.
Qed.

Lemma setAdd_new x s : x ∉ s → setAdd x s = s ++ [x].
Proof. intros H. unfold setAdd. by rewrite bool_decide_eq_false_2. Qed.

Lemma setAdd_old x s : x ∈ s → setAdd x s = s.
Proof. intros H. unfold setAdd. by rewrite bool_decide_eq_true_2. Qed.

Lemma candidatesOfTokens_expected tokens :
  Forall (fun t => truthy t = true) tokens →
  candidatesOfTokens tokens = expectedCandidates tokens.
Proof.
  intros Hall. destruct tokens as [|first [|second rest]]; [done..|].
  apply Forall_cons in Hall as [_ Hall]. apply Forall_cons in Hall as [Hsecond Hrest].
  unfold candidatesOfTokens, expectedCandidates.
  change (length (first :: second :: rest) <? 2)%nat with false. cbv iota.
  change (default [] ((first :: second :: rest) !! 1%nat)) with second.
  change (default [] ((first :: second :: rest) !! 2%nat)) with (default [] (rest !! 0%nat)).
  cbv zeta. rewrite Hsecond. cbn [andb].
  rewrite (setAdd_new second []) by apply not_elem_of_nil. cbn [app].
  destruct rest as [|third rest']; [done|].
  apply Forall_cons in Hrest as [Hthird _].
  change (default [] ((third :: rest') !! 0%nat)) with third. rewrite Hthird. cbn [andb].
  destruct (endsWith third GU).
  - rewrite (setAdd_new (second ++ third) [second]).
    + rewrite andb_true_r. cbn [app].
      destruct (endsWith second GUN || endsWith second SI); [|done].
      apply setAdd_old. right. left.
    + intros Hin. apply list_elem_of_singleton in Hin. by apply app_ne_self in Hin.
  - by rewrite andb_false_r.
Qed.

(** X2.  The candidates [extractSigunguCandidates] takes from an address
    are read off its tokens (the pieces between white space, empty ones
    dropped): none when there are fewer than two tokens; otherwise the
    second token, followed by the second and third joined when the third
    ends in [구].  The third rule of the function (second token ending in
    [군] or [시]) never adds a candidate of its own, and there are never more
    than two candidates. *)
Theorem extractSigunguCandidates_shape (address : option jsstr) :
  extractSigunguCandidates address = expectedCandidates (tokensOf address)
  ∧ (length (extractSigunguCandidates address) <= 2)%nat.
Proof.
  assert (extractSigunguCandidates address = expectedCandidates (tokensOf address)) as Heq.
  { destruct address as [a|]; [|done]. cbn [extractSigunguCandidates tokensOf].
    destruct a as [|c r]; [done|]. cbn [truthy].
    apply candidatesOfTokens_expected, addressTokens_truthy. }
  split; [done|]. rewrite Heq. unfold expectedCandidates.
  destruct (tokensOf address) as [|first [|second [|third rest]]]; cbn [length]; try lia.
  destruct (endsWith third GU); cbn [length]; lia.
Qed.

Lemma inherited_fixed k :
  isInherited k = true →
  normalizeKorean k = k ∧ ownLookup SIGUNGU_ALIAS_MAP k = None ∧ truthy k = true.
Proof.
  unfold isInherited. intros H. apply bool_decide_eq_true in H.
  unfold inheritedKeys in H.
  repeat (apply elem_of_cons in H as [->|H]; [vm_compute; done|]).
  by apply elem_of_nil in H.
Qed.

Lemma resolveSigunguCode_candidates cache parsed args first rest :
  candidatesOf args = first :: rest →
  (resolveSigunguCode cache parsed args).1
  = tryCandidates (poolOf (readMunicipalities cache parsed).1 (sidoCode args))
      {| sigunguCode := None;
         r_sigunguName := orElse (sigunguName args) (Some first) |}
      (first :: rest).
Proof.
  intros Hcand. unfold resolveSigunguCode.
  destruct (readMunicipalities cache parsed) as [all cache']. rewrite Hcand.
  cbn [fst]. by destruct (sigunguName args).
Qed.

(** X5.  When the first candidate of a request is the name of a member of
    [Object.prototype], [resolveSigunguCode] throws instead of returning a
    result. *)
Theorem resolveSigunguCode_inherited_name_throws
    (cache : option (list Municipality)) (parsed : MunicipalityCollection)
    (args : ResolveArgs) (first : jsstr) (rest : list jsstr) :
  candidatesOf args = first :: rest →
  isInherited first = true →
  (resolveSigunguCode cache parsed args).1 = Throw.
Proof.
  intros Hcand Hin. rewrite (resolveSigunguCode_candidates _ _ _ _ _ Hcand).
  destruct (inherited_fixed first Hin) as (Hnorm & Hown & _).
  cbn [tryCandidates]. unfold expandSigunguAliases. cbv zeta.
  by rewrite Hnorm, Hown, Hin.
Qed.

Lemma resolveSigunguCode_inherited_name_throws_witness :
  (resolveSigunguCode None incheonGazetteer
     {| sidoCode := Some (js "23"); sigunguName := None;
        address := Some (js "인천 constructor 1") |}).1 = Throw.
Proof.
  apply (resolveSigunguCode_inherited_name_throws None incheonGazetteer _
           (js "constructor") []).
  - vm_compute. reflexivity.
  - vm_compute. reflexivity.
Defined.

(** X4.  A municipality name that is given, is not empty after
    normalisation and is no member name of [Object.prototype] is tried
    first: when an entry of the pool has exactly that normalised name, the
    first such entry is returned, whatever the address says. *)
Theorem resolveSigunguCode_exact_name
    (cache : option (list Municipality)) (parsed : MunicipalityCollection)
    (args : ResolveArgs) (sigunguName_ : jsstr) (m : Municipality) :
  sigunguName args = Some sigunguName_ →
  normalizeKorean sigunguName_ ≠ [] →
  isInherited (normalizeKorean (normalizeKorean sigunguName_)) = false →
  List.find (fun item => eqb (norm item) (normalizeKorean (normalizeKorean sigunguName_)))
    (poolOf (readMunicipalities cache parsed).1 (sidoCode args)) = Some m →
  (resolveSigunguCode cache parsed args).1
  = Normal {| sigunguCode := Some (code m); r_sigunguName := Some (name m) |}.
Proof.
  intros Hname Hne Hin Hfind.
  assert (truthy sigunguName_ = true) as Htruthy.
  { destruct sigunguName_; [|done]. by vm_compute in Hne. }
  assert (∃ rest, candidatesOf args = normalizeKorean sigunguName_ :: rest) as [rest Hcand].
  { unfold candidatesOf. rewrite Hname. cbn [truthyOpt]. rewrite Htruthy.
    change (default [] (Some sigunguName_)) with sigunguName_.
    cbn [app fmap list_fmap]. rewrite filter_cons_True; [eauto|].
    by destruct (normalizeKorean sigunguName_). }
  rewrite (resolveSigunguCode_candidates _ _ _ _ _ Hcand).
  cbn [tryCandidates]. unfold expandSigunguAliases. cbv zeta.
  destruct (ownLookup SIGUNGU_ALIAS_MAP _) as [aliases|];
    [|rewrite Hin]; cbn [tryExpanded]; by rewrite Hfind.
Qed.

Lemma resolveSigunguCode_exact_name_witness :
  (resolveSigunguCode None incheonGazetteer
     {| sidoCode := Some (js "23"); sigunguName := Some (js "남 구 (南區)");
        address := None |}).1
  = Normal {| sigunguCode := Some (js "23030"); r_sigunguName := Some (js "남구") |}.
Proof.
  apply (resolveSigunguCode_exact_name None incheonGazetteer _ (js "남 구 (南區)")
           {| code := js "23030"; name := js "남구"; norm := js "남구" |}).
  - reflexivity.
  - vm_compute. discriminate.
  - vm_compute. reflexivity.
  - vm_compute. reflexivity.
Defined.

Lemma tryCandidates_unresolved pool fallback candidates r :
  sigunguCode fallback = None →
  tryCandidates pool fallback candidates = Normal r →
  sigunguCode r = None → r = fallback.
Proof.
  intros Hfb Hres Hr.
  apply tryCandidates_found in Hres as [-> | (m & _ & ->)]; [done|]. done.
Qed.

(** X3.  When [resolveSigunguCode] returns without a code, the name it
    returns is the municipality name of the request if there is one, and
    otherwise the first candidate (none when there is no candidate). *)
Theorem resolveSigunguCode_unresolved
    (cache : option (list Municipality)) (parsed : MunicipalityCollection)
    (args : ResolveArgs) (r : Resolved) :
  (resolveSigunguCode cache parsed args).1 = Normal r →
  sigunguCode r = None →
  r_sigunguName r = orElse (sigunguName args) (head (candidatesOf args)).
Proof.
  destruct (candidatesOf args) as [|first rest] eqn:Hcand.
  - unfold resolveSigunguCode.
    destruct (readMunicipalities cache parsed) as [all cache']. rewrite Hcand.
    cbn [fst]. intros H _. injection H as <-. cbn. by destruct (sigunguName args).
  - rewrite (resolveSigunguCode_candidates _ _ _ _ _ Hcand). intros Hres Hr.
    apply tryCandidates_unresolved in Hres; [|done..]. by rewrite Hres.
Qed.

Lemma resolveSigunguCode_unresolved_witness :
  Some (js "강남대로") = orElse None (head (candidatesOf
     {| sidoCode := Some (js "23"); sigunguName := None;
        address := Some (js "인천  강남대로 12") |})).
Proof.
  apply (resolveSigunguCode_unresolved None incheonGazetteer
           {| sidoCode := Some (js "23"); sigunguName := None;
              address := Some (js "인천  강남대로 12") |}
           {| sigunguCode := None; r_sigunguName := Some (js "강남대로") |}).
  - vm_compute. reflexivity.
  - reflexivity.
Defined.

End CandidatesProps.

(** ** Properties of the answers of the region statistics *)

Module StatsProps.
Import RegionStats RegionStatsSpec RegionStatsProps StatsSpec.

Lemma trimStart_headOk s : headOk (trimStart s).
Proof.
  induction s as [|c r IH]; [done|]. cbn [trimStart].
  destruct (isSpace c) eqn:Hc; [done|]. exact Hc.
Qed.

Lemma trimStart_id s : headOk s → trimStart s = s.
Proof. destruct s as [|c r]; [done|]. cbn. by intros ->. Qed.

Lemma trimStart_split s : ∃ p, s = p ++ trimStart s.
Proof.
  induction s as [|c r [p IH]]; [by exists []|]. cbn [trimStart].
  destruct (isSpace c); [|by exists []]. exists (c :: p). cbn. by rewrite <- IH.
Qed.

Lemma headOk_prefix (s t : jsstr) : headOk (s ++ t) → headOk s.
Proof. by destruct s. Qed.

Lemma trim_headOk s : headOk (trim s) ∧ headOk (reverse (trim s)).
Proof.
  unfold trim. set (t := trimStart s).
  set (u := trimStart (reverse t)). split.
  - destruct (trimStart_split (reverse t)) as [p Hp]. fold u in Hp.
    apply (f_equal reverse) in Hp. rewrite reverse_involutive, reverse_app in Hp.
    apply (headOk_prefix _ (reverse p)). rewrite <- Hp. apply trimStart_headOk.
  - rewrite reverse_involutive. apply trimStart_headOk.
Qed.

Lemma trim_idem s : trim (trim s) = trim s.
Proof.
  destruct (trim_headOk s) as [H1 H2]. unfold trim at 1.
  rewrite (trimStart_id _ H1), (trimStart_id _ H2). apply reverse_involutive.
Qed.

(** X6.  [normalizeCode] is idempotent, and what it returns is [null] or a
    string that is not empty and has no white space at either end. *)
Theorem normalizeCode_idempotent (value : option jsstr) :
  normalizeCode (normalizeCode value) = normalizeCode value
  ∧ canonicalCode (normalizeCode value).
Proof.
  destruct (normalizeCode value) as [k|] eqn:Hk; [|done].
  apply normalizeCode_Some in Hk as (s & _ & <- & Hne).
  split; [|split; [done | apply trim_idem]].
  apply normalizeCode_Some. exists (trim s). by rewrite trim_idem.
Qed.

Lemma insertByCreatedAt_sorted v l :
  StronglySorted createdOrder l → StronglySorted createdOrder (insertByCreatedAt v l).
Proof.
  induction 1 as [|w r Hr IH Hw]; cbn [insertByCreatedAt].
  - repeat constructor.
  - destruct (N.ltb_spec (v_created_at v) (v_created_at w)) as [Hlt|Hge].
    + constructor; [by constructor|]. constructor; [unfold createdOrder; lia|].
      eapply Forall_impl; [exact Hw|]. unfold createdOrder. intros x Hx. lia.
    + constructor; [done|]. rewrite insertByCreatedAt_perm. by constructor.
Qed.

Lemma orderByCreatedAt_sorted l : StronglySorted createdOrder (orderByCreatedAt l).
Proof.
  unfold orderByCreatedAt. induction l as [|v l IH]; cbn [foldr]; [constructor|].
  by apply insertByCreatedAt_sorted.
Qed.


Lemma sumField_comm (f : RegionVoteStat → N) (z1 z2 : RegionVoteStat) (y : N) :
  f z1 + (f z2 + y) = f z2 + (f z1 + y).
Proof. lia. Qed.

Lemma sumField_insert (f : RegionVoteStat → N) (m : RegionVoteMap) k v :
  f zeroStat = 0 →
  sumField f (<[k:=v]> m) + f (statAt m k) = sumField f m + f v.
Proof.
  intros Hz. unfold sumField, statAt. destruct (m !! k) as [old|] eqn:Hk.
  - rewrite <- insert_delete_eq.
    rewrite map_fold_insert_L; [|intros; apply sumField_comm|apply lookup_delete_eq].
    rewrite (map_fold_delete_L _ _ k old m); [|intros; apply sumField_comm|done].
    cbn [from_option id]. unfold id. lia.
  - rewrite map_fold_insert_L; [|intros; apply sumField_comm|done].
    cbn [from_option]. rewrite Hz. lia.
Qed.

Lemma buildStep_sums level a b st row :
  countedUnder level row ≠ Some PROTO →
  let m := statsByCode st in
  let m' := statsByCode (buildStep level a b st row) in
  let c := if decide (isCounted level row) then 1 else 0 in
  sumField total m' = sumField total m + c
  ∧ sumField countA m' = sumField countA m + c * indicator (eqb (option_key row) a)
  ∧ sumField countB m' = sumField countB m + c * indicator (eqb (option_key row) b).
Proof.
  intros Hp. cbv zeta. rewrite statsByCode_buildStep. unfold isCounted.
  destruct (countedUnder level row) as [k|].
  - rewrite decide_True by done. cbv zeta. unfold assign.
    rewrite eqb_PROTO_false by congruence.
    set (v := {| winner := _ |}).
    pose proof (sumField_insert total (statsByCode st) k v eq_refl) as Ht.
    pose proof (sumField_insert countA (statsByCode st) k v eq_refl) as Ha.
    pose proof (sumField_insert countB (statsByCode st) k v eq_refl) as Hb.
    subst v. cbn [total countA countB] in Ht, Ha, Hb. lia.
  - rewrite decide_False by (intros H; by apply H). lia.
Qed.

Lemma foldl_buildStep_sums level a b rows :
  Forall (fun row => countedUnder level row ≠ Some PROTO) rows →
  ∀ st,
    let m := statsByCode st in
    let m' := statsByCode (foldl (buildStep level a b) st rows) in
    sumField total m' = sumField total m + countWhere (isCounted level) rows
    ∧ sumField countA m'
      = sumField countA m
        + countWhere (fun row => option_key row = a ∧ countedUnder level row ≠ None) rows
    ∧ sumField countB m'
      = sumField countB m
        + countWhere (fun row => option_key row = b ∧ countedUnder level row ≠ None) rows.
Proof.
  induction 1 as [|row rows Hrow Hrows IH]; intros st; cbv zeta.
  - unfold countWhere. rewrite !filter_nil. cbn [length foldl]. lia.
  - cbn [foldl]. specialize (IH (buildStep level a b st row)). cbv zeta in IH.
    destruct IH as (-> & -> & ->).
    destruct (buildStep_sums level a b st row Hrow) as (-> & -> & ->).
    rewrite !countWhere_cons. unfold eqb, indicator, isCounted.
    destruct (decide (countedUnder level row ≠ None)) as [Hc|Hc].
    + destruct (decide (option_key row = a)) as [Ha|Ha],
               (decide (option_key row = b)) as [Hb|Hb];
        repeat first [rewrite (bool_decide_eq_true_2 _ Ha) | rewrite (bool_decide_eq_false_2 _ Ha)
                     | rewrite (bool_decide_eq_true_2 _ Hb) | rewrite (bool_decide_eq_false_2 _ Hb)];
        repeat first [rewrite (decide_True (P := _ ∧ _)) by done
                     | rewrite (decide_False (P := _ ∧ _)) by tauto]; lia.
    + rewrite !(decide_False (P := _ ∧ _)) by tauto. lia.
Qed.

(** X8.  For two different option keys, and no vote counted under the
    region [__proto__], the summary [buildStatsFromVoteRows] returns is the
    column sum of its per-region statistics: [sumA] is the sum of the
    [countA], [sumB] the sum of the [countB], [totalVotes] their sum; the sum
    of the per-region totals exceeds [totalVotes] by the number of counted
    votes whose option is neither of the two. *)
Theorem slow_summary_is_column_sum (rows : list FetchedVote) (level : RegionLevel)
    (optionA optionB : jsstr) :
  optionA ≠ optionB →
  Forall (fun row => countedUnder level row ≠ Some PROTO) rows →
  let stats := (buildStatsFromVoteRows rows level optionA optionB).1 in
  let summary := (buildStatsFromVoteRows rows level optionA optionB).2 in
  sumA summary = sumField countA stats
  ∧ sumB summary = sumField countB stats
  ∧ totalVotes summary = sumA summary + sumB summary
  ∧ sumField total stats
    = totalVotes summary
      + countWhere (fun row => (option_key row ≠ optionA ∧ option_key row ≠ optionB)
                               ∧ countedUnder level row ≠ None) rows.
Proof.
  intros Hab Hrows. cbv zeta. unfold buildStatsFromVoteRows. cbn [fst snd sumA sumB totalVotes].
  set (st0 := {| statsByCode := ∅; totalA := 0; totalB := 0 |}).
  destruct (foldl_buildStep_totals level optionA optionB rows st0) as [-> ->].
  destruct (foldl_buildStep_sums level optionA optionB rows Hrows st0) as (-> & -> & ->).
  cbn [statsByCode totalA totalB st0]. unfold sumField at 1 2 3. rewrite !map_fold_empty.
  assert (countWhere (fun row => option_key row = optionB ∧ countedUnder level row ≠ None) rows
          = countWhere (fun row => (option_key row ≠ optionA ∧ option_key row = optionB)
                                   ∧ countedUnder level row ≠ None) rows) as HB.
  { apply countWhere_ext_in. intros row _. split; [|tauto].
    intros [Hb Hc]. split_and!; [congruence|done..]. }
  split_and!; [lia | lia | done |].
  rewrite <- HB. unfold isCounted. clear - Hab.
  induction rows as [|row rows IH].
  - unfold countWhere. rewrite !filter_nil. cbn [length]. lia.
  - rewrite !countWhere_cons.
    destruct (decide (countedUnder level row ≠ None)),
             (decide (option_key row = optionA)), (decide (option_key row = optionB));
      try (exfalso; congruence);
      repeat first [rewrite (decide_True (P := _ ∧ _)) by tauto
                   | rewrite (decide_False (P := _ ∧ _)) by tauto]; lia.
Qed.

Lemma slow_summary_is_column_sum_witness :
  sumA (buildStatsFromVoteRows [ownCodeRow; schoolOnlyRow] sido (js "seoul") (js "busan")).2
  = sumField countA
      (buildStatsFromVoteRows [ownCodeRow; schoolOnlyRow] sido (js "seoul") (js "busan")).1
  ∧ sumB (buildStatsFromVoteRows [ownCodeRow; schoolOnlyRow] sido (js "seoul") (js "busan")).2
    = sumField countB
        (buildStatsFromVoteRows [ownCodeRow; schoolOnlyRow] sido (js "seoul") (js "busan")).1.
Proof.
  destruct (slow_summary_is_column_sum [ownCodeRow; schoolOnlyRow] sido
              (js "seoul") (js "busan")) as (HA & HB & _).
  - vm_compute. discriminate.
  - repeat constructor; vm_compute; discriminate.
  - split; [exact HA | exact HB].
Defined.





Lemma scoped_position db topic level x :
  x ∈ scoped db topic level → ∃ o, o ∈ vote_options db ∧ x.2 = o_position o.
Proof.
  unfold scoped. intros Hx.
  apply list_elem_of_bind in Hx as (v & Hx & _).
  apply list_elem_of_bind in Hx as (o & Hx & Ho).
  apply list_elem_of_filter in Ho as [_ Ho].
  apply list_elem_of_singleton in Hx as ->. by exists o.
Qed.

Lemma scoped_region db topic level x r :
  x ∈ scoped db topic level → x.1 = Some r → r ≠ [].
Proof.
  unfold scoped. intros Hx.
  apply list_elem_of_bind in Hx as (v & Hx & _).
  apply list_elem_of_bind in Hx as (o & Hx & _).
  apply list_elem_of_singleton in Hx as ->. cbn [fst].
  destruct level; [destruct (v_sido_code v) as [[|]|] | destruct (v_sigungu_code v) as [[|]|]];
    cbn; congruence.
Qed.

(** X11.  When the positions of the options are 1 or 2, as the table
    checks, every row [get_region_vote_stats] returns has a region that is
    not empty, at least one vote, and a total that is the sum of its two
    counts; and no region is returned twice. *)
Theorem get_region_vote_stats_groups (db : Database) (p_topic_id : jsstr)
    (p_level : RegionLevel) :
  positionsChecked db →
  Forall wellFormedRow (get_region_vote_stats db p_topic_id p_level)
  ∧ NoDup (region <$> get_region_vote_stats db p_topic_id p_level).
Proof.
  intros Hpos. unfold get_region_vote_stats. cbv zeta.
  set (sc := scoped db p_topic_id p_level). split.
  - apply Forall_fmap, Forall_forall. intros r Hr.
    apply elem_of_remove_dups, list_elem_of_omap in Hr as (x & Hx & Hxr).
    exists r. cbn [region rpc_total count_a count_b].
    split_and!; [done | by eapply scoped_region | |].
    + rewrite countWhere_or by (intros y _ H1 H2; congruence).
      unfold countWhere. f_equal. f_equal. symmetry. apply MergeProps.filter_all.
      intros y Hy. apply list_elem_of_filter in Hy as [_ Hy].
      destruct (scoped_position _ _ _ _ Hy) as (o & Ho & ->).
      exact (proj1 (Forall_forall _ _) Hpos o Ho).
    + assert (x ∈ filter (fun x : option jsstr * N => x.1 = Some r) sc) as Hin
        by by apply list_elem_of_filter.
      destruct (filter _ sc); [by apply elem_of_nil in Hin|]. cbn [length]. lia.
  - rewrite <- list_fmap_compose. apply NoDup_fmap_2; [|apply NoDup_remove_dups].
    intros r1 r2 H. by injection H.
Qed.

Lemma get_region_vote_stats_groups_witness :
  Forall wellFormedRow (get_region_vote_stats mixedDb (js "popular-vote") sido)
  ∧ NoDup (region <$> get_region_vote_stats mixedDb (js "popular-vote") sido).
Proof.
  apply (get_region_vote_stats_groups mixedDb (js "popular-vote") sido).
  constructor; [left; reflexivity|]. constructor; [right; reflexivity|]. constructor.
Defined.

End StatsProps.

(** ** Further properties of the vote submission handler *)

Module SubmissionProps.
Import Ledger VotesSpec LedgerSpec VotesProps LedgerProps SubmissionSpec.

Section Handler.
Context `{collaborators : Collaborators}.

Lemma POST_vote_options fresh db user body :
  vote_options (POST fresh db user body).2 = vote_options db.
Proof.
  unfold Ledger.POST.
  destruct (validBody body); [|done]. cbn [negb].
  destruct (negb _ && negb _); [done|].
  destruct (maybeSingle _); [done| |done].
  destruct (preCheck db user body); [done|].
  destruct (gatherDemographics db user body) as [r|[d dbg]] eqn:Hgather; [done|].
  destruct (gatherDemographics_tables _ _ _ _ _ Hgather) as [_ Hoptions].
  destruct (isUnlimitedAdmin user); cbv zeta;
    (destruct (insertVote dbg _) as [[]|db2] eqn:Hinsert; cbn [snd]; try done;
     apply insertVote_inserted in Hinsert as (-> & _); done).
Qed.

(** X12.  A submission never touches the options, and it changes the table
    of votes only when it answers 201: then exactly one row is appended,
    with the fresh id, the topic and the option of the request, the option
    being registered for the topic, and [merged_from_guest] false.  Every
    other answer leaves the votes as they were. *)
Theorem POST_writes_one_vote (fresh : Fresh) (db : Database) (user : option AuthUser)
    (body : VoteBody) :
  vote_options (POST fresh db user body).2 = vote_options db
  ∧ match (POST fresh db user body).1 with
    | Created row =>
      votes (POST fresh db user body).2 = votes db ++ [row]
      ∧ v_id row = newId fresh
      ∧ v_topic_id row = topicId body
      ∧ v_option_key row = optionKey body
      ∧ registeredOption db (topicId body) (optionKey body)
      ∧ v_merged_from_guest row = false
    | _ => votes (POST fresh db user body).2 = votes db
    end.
Proof.
  split; [apply POST_vote_options|].
  destruct (POST fresh db user body) as [response db'] eqn:Hpost. cbn [fst snd].
  apply POST_cases in Hpost
    as [[Hvotes Hno] | (d & dbg & _ & Hreg & _ & _ & Hgather & -> & Hinsert)].
  - destruct response; try done. by destruct (Hno vote).
  - destruct (gatherDemographics_tables _ _ _ _ _ Hgather) as [Hvotes _].
    apply insertVote_inserted in Hinsert as (-> & _). cbn [votes withVotes].
    by rewrite Hvotes.
Qed.

(** X13.  A stored submission without a signed-in user carries a guest
    token that is a UUID and a profile; its row has no user, that token,
    and the birth year and gender of the profile; and the token had no vote
    on the topic before. *)
Theorem POST_anonymous_vote (fresh : Fresh) (db db' : Database) (body : VoteBody)
    (row : VoteRow) :
  POST fresh db None body = (Created row, db') →
  ∃ token p,
    guestToken body = Some token ∧ token ≠ [] ∧ isUuid token = true
    ∧ profile body = Some p
    ∧ v_user_id row = None ∧ v_guest_token row = Some token
    ∧ v_birth_year row = birthYear p ∧ v_gender row = gender p
    ∧ guestVotesOn token (topicId body) (votes db) = [].
Proof.
  intros Hpost. apply POST_cases in Hpost
    as [[_ Hno] | (d & dbg & Hvalid & _ & Hident & Hpre & Hgather & Hresp & _)];
    [by destruct (Hno row)|].
  injection Hresp as ->.
  change (isUnlimitedAdmin None) with false.
  change (guestTokenOf None body) with (guestToken body) in *.
  change (voterUserIdOf None) with (@None uuid) in *.
  cbn [truthyOpt negb andb] in Hident.
  destruct (guestToken body) as [token|] eqn:Htoken; [|done].
  cbn [truthyOpt] in Hident. apply negb_false_iff in Hident.
  unfold Ledger.gatherDemographics in Hgather.
  destruct (profile body) as [p|] eqn:Hprofile; [|done].
  exists token, p.
  assert (isUuid token = true) as Huuid.
  { unfold validBody in Hvalid. rewrite Htoken in Hvalid. cbn [validOpt] in Hvalid.
    by apply andb_true_iff in Hvalid as [[_ ?]%andb_true_iff _]. }
  assert (guestVotesOn token (topicId body) (votes db) = []) as Hnone.
  { unfold Ledger.preCheck in Hpre.
    change (voterUserIdOf None) with (@None uuid) in Hpre.
    change (guestTokenOf None body) with (guestToken body) in Hpre.
    rewrite Htoken in Hpre. cbn [truthyOpt andb] in Hpre. rewrite Hident in Hpre.
    unfold guestVotesOn.
    destruct (filter _ (votes db)) as [|v [|w l]]; [done|done..]. }
  destruct (ensureSchool (schools db) (p_school p)) as [[ensured schools']|]; [|done].
  cbn in Hgather. injection Hgather as <- _.
  split_and!; try done. by destruct token.
Qed.

Lemma POST_conflict fresh db user body db' :
  POST fresh db user body = (Conflict, db') →
  preCheck db user body = Some Conflict
  ∨ ∃ d dbg, gatherDemographics db user body = inr (d, dbg)
             ∧ insertVote dbg (voteRowOf (isUnlimitedAdmin user) fresh user body d)
               = inl unique_violation.
Proof.
  unfold Ledger.POST.
  destruct (validBody body); [|done]. cbn [negb].
  destruct (negb _ && negb _); [done|].
  destruct (maybeSingle _); [done| |done].
  destruct (preCheck db user body) as [r|]; [intros H; injection H as -> _; by left|].
  destruct (gatherDemographics db user body) as [r|[d dbg]] eqn:Hgather.
  { intros H; injection H as -> _. unfold Ledger.gatherDemographics in Hgather.
    repeat case_match; simplify_eq. }
  right. exists d, dbg. split; [done|].
  destruct (isUnlimitedAdmin user); cbv zeta in *;
    (destruct (insertVote dbg _) as [[]|db2] eqn:Hinsert; simplify_eq;
     first [exact Hinsert | reflexivity]).
Qed.

(** X14.  An unlimited voter passes the duplicate pre-check.  The conflict
    (409) can only come from the insert: a stored row has the fresh id, or
    it is a vote on the topic under the very synthetic token of this
    request. *)
Theorem POST_unlimited_voter_conflict (fresh : Fresh) (db db' : Database) (u : AuthUser)
    (body : VoteBody) :
  isUnlimitedAdmin (Some u) = true →
  truthy (au_id u) = true →
  POST fresh db (Some u) body = (Conflict, db') →
  ∃ w, w ∈ votes db
       ∧ (v_id w = newId fresh
          ∨ (v_topic_id w = topicId body ∧ v_guest_token w = Some (adminToken u fresh))).
Proof.
  intros Hadmin Hid Hpost. apply POST_conflict in Hpost as [Hpre | (d & dbg & Hgather & Hins)].
  - unfold Ledger.preCheck in Hpre. rewrite Hadmin in Hpre.
    unfold guestTokenOf in Hpre. cbn [voterUserIdOf fmap option_fmap option_map truthyOpt] in Hpre.
    rewrite Hid in Hpre. done.
  - rewrite Hadmin in Hins.
    destruct (gatherDemographics_tables _ _ _ _ _ Hgather) as [Hvotes _].
    unfold insertVote in Hins.
    destruct (negb _); [done|].
    destruct (existsb _ (votes dbg)) eqn:Hex; [|by destruct (negb _)].
    apply existsb_exists in Hex as (w & Hw & Hc).
    exists w. rewrite <- Hvotes. split; [by apply list_elem_of_In|].
    unfold collides in Hc. cbn [voteRowOf v_id v_topic_id v_user_id v_guest_token] in Hc.
    rewrite andb_false_r, orb_false_r in Hc.
    apply orb_true_iff in Hc as [Hc|Hc].
    + left. symmetry. by apply RegionsProps.eqb_true.
    + right. apply andb_true_iff in Hc as [Ht Hg].
      apply RegionsProps.eqb_true in Ht. split; [done|].
      destruct (v_guest_token w) as [g|]; [|done]. apply RegionsProps.eqb_true in Hg. by rewrite <- Hg.
Qed.
End Handler.

Lemma POST_anonymous_vote_witness :
  ∃ token p,
    guestToken (guestBody (js "seoul")) = Some token ∧ token ≠ []
    ∧ isUuid (Collaborators := knownSchool) token = true
    ∧ profile (guestBody (js "seoul")) = Some p
    ∧ v_user_id firstVote = None ∧ v_guest_token firstVote = Some token
    ∧ v_birth_year firstVote = birthYear p ∧ v_gender firstVote = gender p
    ∧ guestVotesOn token (topicId (guestBody (js "seoul"))) (votes emptyLedger) = [].
Proof.
  apply (POST_anonymous_vote (collaborators := knownSchool) firstFresh emptyLedger
           oneVoteLedger (guestBody (js "seoul")) firstVote).
  vm_compute. reflexivity.
Defined.

Lemma POST_unlimited_voter_conflict_witness :
  ∃ w, w ∈ votes oneVoteLedger
       ∧ (v_id w = newId firstFresh
          ∨ (v_topic_id w = topicId (guestBody (js "seoul"))
             ∧ v_guest_token w = Some (adminToken adminUser firstFresh))).
Proof.
  apply (POST_unlimited_voter_conflict (collaborators := knownSchool) firstFresh
           oneVoteLedger oneVoteLedger adminUser (guestBody (js "seoul"))).
  - vm_compute. reflexivity.
  - reflexivity.
  - vm_compute. reflexivity.
Defined.

End SubmissionProps.

(** ** Properties of the backfill of vote regions *)

Module BackfillProps.
Import RegionStats RegionStatsSpec RegionStatsProps BackfillVotes BackfillSpec.

Lemma backfill_fetchLoop_enough (fuel : nat) (q : list VoteWithSchool) :
  ∀ offset rows,
    (length q - offset < fuel)%nat →
    fetchLoop fuel q offset rows = Some (rows ++ drop offset q).
Proof.
  pose proof pageSize_pos as Hpos.
  induction fuel as [|fuel IH]; intros offset rows Hfuel; [lia|].
  cbn [fetchLoop]. unfold range.
  destruct (Nat.ltb_spec (length (take pageSize (drop offset q))) pageSize) as [Hlt|Hge].
  - rewrite take_ge; [done|]. rewrite length_take in Hlt. lia.
  - rewrite IH.
    + rewrite <- (assoc_L (++)). do 2 f_equal.
      rewrite <- (take_drop pageSize (drop offset q)) at 2. by rewrite drop_drop.
    + rewrite length_take, length_drop in Hge. lia.
Qed.

Lemma fetchVotesWithSchool_total db :
  fetchVotesWithSchool db = Some (selectAllVotes db).
Proof. unfold fetchVotesWithSchool. by rewrite backfill_fetchLoop_enough by lia. Qed.

Lemma backfillStep_spec st vote :
  backfillStep st vote
  = {| table := applyVote vote <$> table st;
       updated := updated st + (if needsUpdate vote then 1 else 0);
       unresolved := unresolved st + (if isUnresolved vote then 1 else 0) |}%nat.
Proof.
  unfold backfillStep, applyVote, needsUpdate, isUnresolved. cbv zeta.
  fold (wantedSido vote) (wantedSigungu vote).
  destruct st as [T u n]. cbn [table updated unresolved].
  destruct (negb (truthyOpt (wantedSido vote)) || negb (truthyOpt (wantedSigungu vote)));
    cbn [negb andb].
  - rewrite list_fmap_id. f_equal; lia.
  - destruct (bool_decide _ && bool_decide _); cbn [negb].
    + rewrite list_fmap_id. f_equal; lia.
    + f_equal; lia.
Qed.

Lemma foldl_backfillStep l : ∀ st,
  foldl backfillStep st l
  = {| table := (fun v => foldl (fun x vote => applyVote vote x) v l) <$> table st;
       updated := updated st + length (filter (fun vote => needsUpdate vote = true) l);
       unresolved := unresolved st
                     + length (filter (fun vote => isUnresolved vote = true) l) |}%nat.
Proof.
  induction l as [|vote l IH]; intros st.
  - cbn [foldl]. rewrite list_fmap_id, !filter_nil. cbn [length].
    destruct st. cbn. f_equal; lia.
  - cbn [foldl]. rewrite IH, backfillStep_spec. cbn [table updated unresolved].
    rewrite <- list_fmap_compose, !filter_cons.
    f_equal.
    + destruct (needsUpdate vote); [rewrite decide_True by done|rewrite decide_False by done];
        cbn [length]; lia.
    + destruct (isUnresolved vote); [rewrite decide_True by done|rewrite decide_False by done];
        cbn [length]; lia.
Qed.

Lemma withCodes_same v : withCodes (v_sido_code v) (v_sigungu_code v) v = v.
Proof. by destruct v. Qed.

Lemma setCodes_same_id x id s g : v_id x = id → setCodes id s g x = withCodes s g x.
Proof. intros H. unfold setCodes. by rewrite bool_decide_eq_true_2. Qed.

Lemma setCodes_other_id x id s g : v_id x ≠ id → setCodes id s g x = x.
Proof. intros H. unfold setCodes. by rewrite bool_decide_eq_false_2. Qed.

Lemma uniqueIds_inj T u v : uniqueIds T → u ∈ T → v ∈ T → v_id u = v_id v → u = v.
Proof.
  unfold uniqueIds. intros Hnd Hu Hv Hid.
  apply list_elem_of_lookup in Hu as [i Hi]. apply list_elem_of_lookup in Hv as [j Hj].
  assert (i = j) as ->.
  { apply (NoDup_lookup _ i j (v_id u) Hnd); rewrite list_lookup_fmap.
    - by rewrite Hi.
    - by rewrite Hj, Hid. }
  congruence.
Qed.

Section Run.
Context (db : Database).
Hypothesis Hids : uniqueIds (votes db).

Lemma rowwise (L : list VoteRow) : ∀ x v,
  (∀ u, u ∈ L → u ∈ votes db) → v ∈ votes db → v_id x = v_id v →
  foldl (fun x vote => applyVote vote x) x (scanned db <$> L)
  = if bool_decide (v ∈ L) && needsUpdate (scanned db v)
    then withCodes (wantedSido (scanned db v)) (wantedSigungu (scanned db v)) x
    else x.
Proof.
  induction L as [|u L IH]; intros x v HL Hv Hid.
  - cbn. rewrite bool_decide_eq_false_2; [done|apply not_elem_of_nil].
  - rewrite fmap_cons. cbn [foldl].
    assert (∀ u', u' ∈ L → u' ∈ votes db) as HL' by (intros; apply HL; by right).
    destruct (decide (v_id u = v_id v)) as [Huv|Huv].
    + assert (u = v) as -> by (apply (uniqueIds_inj (votes db)); [done|apply HL; left|done..]).
      rewrite (bool_decide_eq_true_2 (v ∈ v :: L)) by left. cbn [andb].
      unfold applyVote at 2. destruct (needsUpdate (scanned db v)) eqn:Hneed.
      * rewrite setCodes_same_id by done.
        rewrite (IH _ v HL' Hv) by done. rewrite Hneed.
        by destruct (bool_decide (v ∈ L)).
      * rewrite (IH _ v HL' Hv) by done. rewrite Hneed. by rewrite andb_false_r.
    + assert (applyVote (scanned db u) x = x) as ->.
      { unfold applyVote. destruct (needsUpdate _); [|done].
        apply setCodes_other_id. cbn [scanned w_id]. congruence. }
      rewrite (IH _ v HL' Hv) by done.
      assert (bool_decide (v ∈ u :: L) = bool_decide (v ∈ L)) as ->; [|done].
      apply bool_decide_ext. rewrite elem_of_cons. split; [|tauto].
      intros [->|?]; [done|done].
Qed.

Lemma rowwise_backfilled v :
  v ∈ votes db →
  foldl (fun x vote => applyVote vote x) v (selectAllVotes db) = backfilledRow db v.
Proof.
  intros Hv. unfold selectAllVotes.
  rewrite (rowwise _ v v); [|intros u Hu; by rewrite orderByCreatedAt_perm in Hu|done..].
  rewrite bool_decide_eq_true_2 by (by rewrite orderByCreatedAt_perm). cbn [andb].
  unfold backfilledRow, needsUpdate.
  destruct (isUnresolved (scanned db v)); cbn [negb andb]; [done|].
  destruct (bool_decide (w_sido_code _ = _)) eqn:H1; cbn [andb negb]; [|done].
  destruct (bool_decide (w_sigungu_code _ = _)) eqn:H2; cbn [negb]; [|done].
  apply bool_decide_eq_true in H1, H2. rewrite <- H1, <- H2. cbn [scanned w_sido_code w_sigungu_code].
  by rewrite withCodes_same.
Qed.

Lemma main_run :
  main db
  = Some {| table := backfilledRow db <$> votes db;
            updated := length (filter (fun vote => needsUpdate vote = true)
                                 (selectAllVotes db));
            unresolved := length (filter (fun vote => isUnresolved vote = true)
                                    (selectAllVotes db)) |}.
Proof.
  unfold main. rewrite fetchVotesWithSchool_total, foldl_backfillStep.
  cbn [table updated unresolved]. do 2 f_equal.
  apply list_fmap_ext. intros i v Hv. apply rowwise_backfilled.
  by apply list_elem_of_lookup_2 in Hv.
Qed.
End Run.

Lemma wanted_cases (own : option jsstr) (sc : option jsstr) :
  orElse sc (orElse sc own) = orElse sc own.
Proof. by destruct sc. Qed.

Lemma backfilledRow_id db v : v_id (backfilledRow db v) = v_id v.
Proof. unfold backfilledRow. by destruct (isUnresolved _). Qed.

Lemma backfilledRow_created db v : v_created_at (backfilledRow db v) = v_created_at v.
Proof. unfold backfilledRow. by destruct (isUnresolved _). Qed.

Lemma embedSchool_withVotes db T v :
  embedSchool (Ledger.withVotes db T) v = embedSchool db v.
Proof. done. Qed.

Lemma embedSchool_backfilled db v : embedSchool db (backfilledRow db v) = embedSchool db v.
Proof. unfold backfilledRow. by destruct (isUnresolved _). Qed.

Lemma needsUpdate_changed db v :
  needsUpdate (scanned db v) = true ↔ backfilledRow db v ≠ v.
Proof.
  unfold needsUpdate, backfilledRow.
  destruct (isUnresolved (scanned db v)); cbn [negb andb]; [by split|].
  rewrite negb_true_iff, andb_false_iff, !bool_decide_eq_false.
  cbn [scanned w_sido_code w_sigungu_code]. split.
  - intros Hne Heq. apply (f_equal (fun r => (v_sido_code r, v_sigungu_code r))) in Heq.
    cbn in Heq. injection Heq as H1 H2. rewrite <- H1, <- H2 in Hne. tauto.
  - intros Hne.
    destruct (decide (v_sido_code v = wantedSido (scanned db v))) as [H1|H1]; [|by left].
    destruct (decide (v_sigungu_code v = wantedSigungu (scanned db v))) as [H2|H2];
      [|by right].
    destruct Hne. rewrite <- H1, <- H2. apply withCodes_same.
Qed.

(** After the run a vote is as the script wanted it. *)
Lemma scanned_after db T v :
  let vote' := scanned (Ledger.withVotes db T) (backfilledRow db v) in
  isUnresolved vote' = isUnresolved (scanned db v) ∧ needsUpdate vote' = false.
Proof.
  cbv zeta. unfold needsUpdate, isUnresolved, wantedSido, wantedSigungu, schoolOf.
  cbn [scanned w_sido_code w_sigungu_code w_school w_id].
  rewrite embedSchool_withVotes, embedSchool_backfilled.
  unfold backfilledRow, isUnresolved, wantedSido, wantedSigungu, schoolOf.
  cbn [scanned w_sido_code w_sigungu_code w_school].
  set (school := match embedSchool db v with
                 | SchoolNull => None | SchoolObject s => Some s | SchoolArray l => head l
                 end).
  destruct (negb (truthyOpt (orElse (school ≫= sc_sido_code) (v_sido_code v)))
            || negb (truthyOpt (orElse (school ≫= sc_sigungu_code) (v_sigungu_code v))))
    eqn:Hun.
  - rewrite Hun. done.
  - cbn [withCodes v_sido_code v_sigungu_code]. rewrite !wanted_cases, Hun.
    rewrite !bool_decide_eq_true_2 by done. done.
Qed.

Lemma insertByCreatedAt_fmap (f : VoteRow → VoteRow) v l :
  (∀ v, v_created_at (f v) = v_created_at v) →
  insertByCreatedAt (f v) (f <$> l) = f <$> insertByCreatedAt v l.
Proof.
  intros Hf. induction l as [|w r IH]; [done|].
  rewrite fmap_cons. cbn [insertByCreatedAt]. rewrite !Hf.
  destruct (v_created_at v <? v_created_at w); [done|].
  by rewrite IH, fmap_cons.
Qed.

Lemma orderByCreatedAt_fmap (f : VoteRow → VoteRow) l :
  (∀ v, v_created_at (f v) = v_created_at v) →
  orderByCreatedAt (f <$> l) = f <$> orderByCreatedAt l.
Proof.
  intros Hf. unfold orderByCreatedAt. induction l as [|v l IH]; [done|].
  rewrite fmap_cons. cbn [foldr]. rewrite IH. by apply insertByCreatedAt_fmap.
Qed.

Lemma uniqueIds_backfilled db : uniqueIds (votes db) → uniqueIds (backfilledRow db <$> votes db).
Proof.
  unfold uniqueIds. intros H. rewrite <- list_fmap_compose.
  erewrite list_fmap_ext; [exact H|]. intros i v _. apply backfilledRow_id.
Qed.

Lemma length_filter_fmap {S T} (f : S → T) (P : T → Prop) `{∀ x, Decision (P x)} (l : list S) :
  length (filter P (f <$> l)) = length (filter (fun x => P (f x)) l).
Proof.
  induction l as [|x l IH]; [done|]. rewrite fmap_cons, !filter_cons.
  destruct (decide (P (f x))); cbn [length]; by rewrite IH.
Qed.

Lemma length_filter_ext {T} (P Q : T → Prop) `{∀ x, Decision (P x)} `{∀ x, Decision (Q x)}
    (l : list T) :
  (∀ x, P x ↔ Q x) → length (filter P l) = length (filter Q l).
Proof. intros Hext. by rewrite (list_filter_iff P Q l Hext). Qed.

Lemma filter_False {T} (l : list T) : filter (fun _ => False) l = [].
Proof. induction l as [|x l IH]; [done|]. rewrite filter_cons. by destruct (decide False). Qed.



Lemma backfilledRow_topic db v : v_topic_id (backfilledRow db v) = v_topic_id v.
Proof. unfold backfilledRow. by destruct (isUnresolved _). Qed.

Lemma backfilledRow_option db v : v_option_key (backfilledRow db v) = v_option_key v.
Proof. unfold backfilledRow. by destruct (isUnresolved _). Qed.

Lemma usableCode_truthy s : usableCode s → truthy s = true.
Proof. intros [Hne _]. by destruct s. Qed.

Lemma backfilledRow_school_codes db v s g :
  schoolOf (scanned db v) = Some {| sc_sido_code := Some s; sc_sigungu_code := Some g |} →
  truthy s = true → truthy g = true →
  v_sido_code (backfilledRow db v) = Some s ∧ v_sigungu_code (backfilledRow db v) = Some g.
Proof.
  intros Hschool Hs Hg. unfold backfilledRow, isUnresolved, wantedSido, wantedSigungu.
  rewrite Hschool. cbn [mbind option_bind sc_sido_code sc_sigungu_code orElse truthyOpt].
  by rewrite Hs, Hg.
Qed.


Lemma mixedDb_uniqueIds : uniqueIds (votes mixedDb).
Proof. apply (bool_decide_unpack _). vm_compute. exact I. Qed.

Lemma mixedDb_schools v :
  v ∈ votes mixedDb → v_topic_id v = js "popular-vote" →
  schoolCarriesCodes mixedDb v ∧ joinedOnce mixedDb (js "seoul") (js "busan") v.
Proof.
  intros Hv _. cbn [votes mixedDb] in Hv.
  repeat (apply elem_of_cons in Hv as [->|Hv]); [..|by apply elem_of_nil in Hv].
  - split.
    + exists (js "11"), (js "11220").
      split_and!; [vm_compute; reflexivity | split; [discriminate | reflexivity]..].
    + eexists. split; [vm_compute; reflexivity|].
      split; (split; intros H; vm_compute in H; first [discriminate H | reflexivity]).
  - split.
    + exists (js "11"), (js "11220").
      split_and!; [vm_compute; reflexivity | split; [discriminate | reflexivity]..].
    + eexists. split; [vm_compute; reflexivity|].
      split; (split; intros H; vm_compute in H; first [discriminate H | reflexivity]).
Qed.



End BackfillProps.

(** ** Properties of the optimistic update *)

Module ClientProps.
Import RegionStats RegionStatsSpec RegionStatsProps ClientStats ClientSpec.

Lemma slowStats_no_PROTO rows level a b :
  (buildStatsFromVoteRows rows level a b).1 !! PROTO = None.
Proof. apply foldl_buildStep_absent; [done | by left]. Qed.

(** X18.  The optimistic update of the client agrees with the server: from
    the statistics the slow path computes for some votes, [bumpRegionStat]
    with the region and option of one more vote gives the statistics the
    slow path computes when that vote is added. *)
Theorem bumpRegionStat_matches_server (rows : list FetchedVote) (level : RegionLevel)
    (optionA optionB : jsstr) (row : FetchedVote) (regionCode : jsstr) :
  countedUnder level row = Some regionCode →
  bumpRegionStat (received <$> (buildStatsFromVoteRows rows level optionA optionB).1)
    (Some regionCode) (option_key row) optionA optionB
  = received <$> (buildStatsFromVoteRows (rows ++ [row]) level optionA optionB).1.
Proof.
  intros Hcode.
  pose proof (slowStats_no_PROTO rows level optionA optionB) as Hproto.
  unfold buildStatsFromVoteRows in *. cbn [fst] in *.
  rewrite foldl_app. cbn [foldl].
  set (st := foldl _ _ rows) in *.
  rewrite statsByCode_buildStep, Hcode. cbv zeta.
  assert (truthy regionCode = true) as Htruthy.
  { apply normalizeCode_Some in Hcode as (s & _ & _ & Hne). by destruct regionCode. }
  unfold bumpRegionStat. rewrite Htruthy. cbv zeta.
  rewrite lookup_fmap. unfold statAt, assign, assignOwn.
  destruct (eqb regionCode PROTO) eqn:Hp.
  - apply RegionsProps.eqb_true in Hp as ->. rewrite lookup_fmap, Hproto. done.
  - cbn [andb]. rewrite fmap_insert. f_equal.
    destruct (statsByCode st !! regionCode) as [current|]; reflexivity.
Qed.

Lemma bumpRegionStat_matches_server_witness :
  bumpRegionStat
    (received <$> (buildStatsFromVoteRows [ownCodeRow] sido (js "seoul") (js "busan")).1)
    (Some (js "11")) (js "busan") (js "seoul") (js "busan")
  = received <$> (buildStatsFromVoteRows ([ownCodeRow] ++ [schoolOnlyRow]) sido
                    (js "seoul") (js "busan")).1.
Proof.
  apply (bumpRegionStat_matches_server [ownCodeRow] sido (js "seoul") (js "busan")
           schoolOnlyRow (js "11")).
  reflexivity.
Defined.
End ClientProps.

(** ** Properties of [formatSchoolCode] *)

Module ImportCellsProps.
Import ImportCells ImportCellsSpec CandidatesSpec CandidatesProps StatsProps.

Lemma digit_not_space c : isDigit c = true → isSpace c = false.
Proof.
  unfold isDigit, isSpace. intros [H1 H2]%andb_true_iff.
  apply N.leb_le in H1, H2.
  repeat (apply orb_false_iff; split);
    first [apply N.eqb_neq; lia
          | apply andb_false_iff; first [left; apply N.leb_gt; lia | right; apply N.leb_gt; lia]].
Qed.

Lemma allDigits_noSpace s : allDigits s → noSpace s.
Proof.
  unfold allDigits, noSpace. intros H. apply Forall_forall. intros c Hc.
  apply digit_not_space. apply forallb_forall with (x := c) in H; [done|].
  by apply list_elem_of_In.
Qed.

Lemma allDigits_padStart n s : allDigits s → allDigits (padStart n 0x30 s).
Proof.
  unfold allDigits, padStart. intros H. rewrite forallb_app, H, andb_true_r.
  induction (n - length s)%nat as [|k IH]; [done|]. cbn. exact IH.
Qed.

Lemma length_padStart n c (s : list N) : (length s ≤ n → length (padStart n c s) = n)%nat.
Proof. intros H. unfold padStart. rewrite length_app, length_replicate. lia. Qed.

Lemma decimal_padStart n s : decimal (padStart n 0x30 s) = decimal s.
Proof.
  unfold decimal, padStart. rewrite foldl_app. f_equal.
  induction (n - length s)%nat as [|k IH]; [done|]. cbn. exact IH.
Qed.

Lemma truthy_trim_nil s : truthy s = false ↔ s = [].
Proof. by destruct s. Qed.

Lemma formatSchoolCode_trimmed (raw : jsstr) :
  trim raw = raw →
  formatSchoolCode raw
  = if negb (truthy raw) then []
    else if (truthy raw && forallb isDigit raw) && (length raw <? 7)%nat
    then padStart 7 0x30 raw else raw.
Proof. intros H. unfold formatSchoolCode. by rewrite H. Qed.

Lemma formatSchoolCode_trim (text : jsstr) :
  formatSchoolCode text = formatSchoolCode (trim text).
Proof. unfold formatSchoolCode. by rewrite trim_idem. Qed.

(** X19.  [formatSchoolCode] is idempotent; its result has no outer white
    space and is empty exactly when the cell is blank; and a cell of decimal
    digits gives a code of digits, of at least seven characters, that
    denotes the same number. *)
Theorem formatSchoolCode_canonical (text : jsstr) :
  formatSchoolCode (formatSchoolCode text) = formatSchoolCode text
  ∧ trim (formatSchoolCode text) = formatSchoolCode text
  ∧ (formatSchoolCode text = [] ↔ trim text = [])
  ∧ (allDigits (trim text) → trim text ≠ [] →
     allDigits (formatSchoolCode text)
     ∧ (7 <= length (formatSchoolCode text))%nat
     ∧ decimal (formatSchoolCode text) = decimal (trim text)).
Proof.
  rewrite (formatSchoolCode_trim text).
  pose proof (trim_idem text) as Htrim. revert Htrim.
  generalize (trim text). clear text. intros raw Htrim.
  rewrite (formatSchoolCode_trimmed raw Htrim).
  destruct raw as [|c raw]; cbn [truthy negb andb].
  { split_and!; [done | done | done |]. by intros _ []. }
  destruct (forallb isDigit (c :: raw)) eqn:Hdigits; cbn [andb].
  - destruct (Nat.ltb_spec (length (c :: raw)) 7) as [Hlt|Hge].
    + pose proof (allDigits_padStart 7 (c :: raw) Hdigits) as Hpad.
      pose proof (length_padStart 7 0x30 (c :: raw) ltac:(lia)) as Hlen.
      pose proof (trim_noSpace _ (allDigits_noSpace _ Hpad)) as Htrim'.
      split_and!; [| done | | ].
      * rewrite (formatSchoolCode_trimmed _ Htrim').
        destruct (padStart 7 48 (c :: raw)) as [|d p] eqn:Hp; [done|].
        cbn [truthy negb andb]. unfold allDigits in Hpad. rewrite Hpad.
        rewrite (proj2 (Nat.ltb_ge _ _)) by lia. done.
      * split; [|done]. intros H. by rewrite H in Hlen.
      * intros _ _. split_and!; [done | lia | apply decimal_padStart].
    + split_and!; [| done | done |].
      * rewrite (formatSchoolCode_trimmed _ Htrim). cbn [truthy negb andb].
        rewrite Hdigits. by rewrite (proj2 (Nat.ltb_ge _ _)) by lia.
      * intros _ _. split_and!; [done | lia | done].
  - split_and!; [| done | done |].
    + rewrite (formatSchoolCode_trimmed _ Htrim). cbn [truthy negb andb].
      by rewrite Hdigits.
    + unfold allDigits. rewrite Hdigits. done.
Qed.
End ImportCellsProps.

(** ** Properties of the designated parent *)

Module ParentsProps.
Import ImportUniversities ImportSpec ImportProps ParentsSpec RegionsProps.

Lemma lookup_markMain m row b :
  markMain m row !! b
  = orElse (m !! b)
      (if eqb (baseNameOf row) b && isMainCampus row then Some (s_id row) else None).
Proof.
  unfold markMain, baseNameOf. cbv zeta.
  destruct (decide (normalizeBaseName (s_school_name row) = b)) as [<-|Hne].
  - rewrite VotesProps.eqb_refl. cbn [andb].
    destruct (m !! _) as [p|] eqn:Hm.
    + rewrite bool_decide_eq_false_2 by done. cbn [andb]. by rewrite Hm.
    + rewrite bool_decide_eq_true_2 by done. cbn [andb].
      destruct (isMainCampus row); [by rewrite lookup_insert_eq | by rewrite Hm].
  - rewrite (proj2 (VotesProps.eqb_false _ _) Hne). cbn [andb].
    destruct (bool_decide _ && isMainCampus row).
    + rewrite lookup_insert_ne by done. by destruct (m !! b).
    + by destruct (m !! b).
Qed.

Lemma lookup_markAny m row b :
  markAny m row !! b
  = orElse (m !! b) (if eqb (baseNameOf row) b then Some (s_id row) else None).
Proof.
  unfold markAny, baseNameOf. cbv zeta.
  destruct (decide (normalizeBaseName (s_school_name row) = b)) as [<-|Hne].
  - rewrite VotesProps.eqb_refl.
    destruct (m !! _) as [p|] eqn:Hm.
    + rewrite bool_decide_eq_false_2 by done. by rewrite Hm.
    + rewrite bool_decide_eq_true_2 by done. by rewrite lookup_insert_eq.
  - rewrite (proj2 (VotesProps.eqb_false _ _) Hne).
    destruct (bool_decide _).
    + rewrite lookup_insert_ne by done. by destruct (m !! b).
    + by destruct (m !! b).
Qed.

Lemma foldl_markMain rows b : ∀ m,
  foldl markMain m rows !! b = orElse (m !! b) (s_id <$> firstMainCampus b rows).
Proof.
  induction rows as [|row rows IH]; intros m; cbn [foldl].
  - by destruct (m !! b).
  - rewrite IH, lookup_markMain. unfold firstMainCampus. cbn [List.find].
    destruct (m !! b); [done|]. cbn [orElse].
    by destruct (eqb (baseNameOf row) b && isMainCampus row).
Qed.

Lemma foldl_markAny rows b : ∀ m,
  foldl markAny m rows !! b = orElse (m !! b) (s_id <$> firstOfName b rows).
Proof.
  induction rows as [|row rows IH]; intros m; cbn [foldl].
  - by destruct (m !! b).
  - rewrite IH, lookup_markAny. unfold firstOfName. cbn [List.find].
    destruct (m !! b); [done|]. cbn [orElse].
    by destruct (eqb (baseNameOf row) b).
Qed.

Lemma buildParents_lookup rows b :
  buildParents rows !! b = s_id <$> designatedParent b rows.
Proof.
  unfold buildParents, designatedParent.
  rewrite foldl_markAny, foldl_markMain, lookup_empty. cbn [orElse].
  by destruct (firstMainCampus b rows).
Qed.

(** X20.  Whatever rows the query returned, in whatever order: the parent
    designated for a base name is the first row read that is tagged as main
    campus, or the first row read of that name if there is none; the pass
    writes one link per row read that is no main campus and differs from
    its designated parent, from the row to that parent, which is a row read
    with the same base name; and it counts these writes. *)
Theorem reconcileParents_links (rows table : list SchoolRow) :
  let links := omap (plannedLink (buildParents rows)) rows in
  reconcileParents rows table
  = {| schoolsTable := foldl applyLink table links; updatedParentLinks := length links |}
  ∧ (∀ baseName, buildParents rows !! baseName = s_id <$> designatedParent baseName rows)
  ∧ (∀ link, link ∈ links →
       ∃ row parent,
         row ∈ rows ∧ designatedParent (baseNameOf row) rows = Some parent
         ∧ link = (s_id row, s_id parent)
         ∧ isMainCampus row = false
         ∧ s_id parent ≠ s_id row
         ∧ parent ∈ rows
         ∧ baseNameOf parent = baseNameOf row).
Proof.
  cbv zeta. split_and!.
  - apply reconcileParents_planned.
  - intros b. apply buildParents_lookup.
  - intros link Hlink. apply list_elem_of_omap in Hlink as (row & Hrow & Hplan).
    unfold plannedLink in Hplan.
    destruct (isMainCampus row) eqn:Hmain; [done|].
    fold (baseNameOf row) in Hplan. rewrite buildParents_lookup in Hplan.
    destruct (designatedParent (baseNameOf row) rows) as [parent|] eqn:Hparent;
      [|done].
    cbn [fmap option_fmap option_map] in Hplan.
    destruct (negb (truthy (s_id parent)) || eqb (s_id parent) (s_id row)) eqn:Hskip; [done|].
    injection Hplan as <-.
    apply orb_false_iff in Hskip as [_ Hne]. apply VotesProps.eqb_false in Hne.
    exists row, parent. split_and!; try done.
    + unfold designatedParent, firstMainCampus, firstOfName in Hparent.
      destruct (List.find _ _) as [q|] eqn:Hq.
      * injection Hparent as <-. by apply find_elem_of in Hq as [? _].
      * cbn [orElse] in Hparent. by apply find_elem_of in Hparent as [? _].
    + unfold designatedParent, firstMainCampus, firstOfName in Hparent.
      destruct (List.find _ _) as [q|] eqn:Hq.
      * injection Hparent as <-. apply find_elem_of in Hq as [_ Hq'].
        apply andb_true_iff in Hq' as [Hq' _]. by apply eqb_true in Hq'.
      * cbn [orElse] in Hparent. apply find_elem_of in Hparent as [_ Hq'].
        by apply eqb_true in Hq'.
Qed.
End ParentsProps.

(** ** Properties of the merge route *)

Module MergeRouteProps.
Import Ledger Merge MergeRoute VotesSpec MergeSpec LedgerSpec VotesProps MergeProps LedgerProps.
Import MergeRouteSpec.

Lemma length_filter_split {T} (f : T → bool) (l : list T) :
  (length (filter (fun x => f x = false) l) + length (filter (fun x => f x = true) l)
   = length l)%nat.
Proof.
  induction l as [|x l IH]; [done|]. rewrite !filter_cons.
  destruct (f x); [rewrite decide_False, decide_True by done
                  |rewrite decide_True, decide_False by done]; cbn [length]; lia.
Qed.

Lemma moved_skipped_total token user T :
  movedCount token user T + skippedCount token user T
  = N.of_nat (length (guestRows token T)).
Proof.
  unfold movedCount, skippedCount.
  pose proof (length_filter_split (fun r => userHasVote user (v_topic_id r) T)
                (guestRows token T)) as H. lia.
Qed.

Lemma length_mergedTable token user T0 l :
  (length (omap (mergedRow token user T0) l)
   + length (filter (fun r => userHasVote user (v_topic_id r) T0 = true) (guestRows token l))
   = length l)%nat.
Proof.
  unfold guestRows. induction l as [|v l IH]; [done|].
  cbn [omap list_omap]. rewrite filter_cons. unfold mergedRow at 1.
  fold (isGuestRow token v).
  destruct (decide (isGuestRow token v)) as [Hg|Hg].
  - rewrite filter_cons. destruct (userHasVote user (v_topic_id v) T0) eqn:Hhas.
    + rewrite decide_True by done. cbn [length]. lia.
    + rewrite decide_False by done. cbn [length]. lia.
  - cbn [length]. lia.
Qed.

Section Route.
Context `{collaborators : Collaborators}.

(** X21.  The merge route answers 500 to a body that is no JSON text, 400
    to a body without a guest token that is a UUID, and 401 to a request
    without a signed-in user, each time without touching the database.  For
    a signed-in user registered in [auth.users], on a table that satisfies
    its constraints, it answers 200: [moved] and [skipped] add up to the
    number of rows that were stored under the token, the table shrinks by
    [skipped] rows, no row is left under the token, and the constraints
    still hold. *)
Theorem merge_route (auth_users : list uuid) (db : Database) (u : AuthUser)
    (token : jsstr) :
  constraintsHold (votes db) →
  isUuid token = true →
  btrim token ≠ [] →
  au_id u ∈ auth_users →
  (∀ user, POST auth_users db user Unreadable = (MergeFailed, db))
  ∧ (∀ user, POST auth_users db user (Parsed None) = (MergeBadRequest, db))
  ∧ (∀ user other, isUuid other = false →
                   POST auth_users db user (Parsed (Some other)) = (MergeBadRequest, db))
  ∧ POST auth_users db None (Parsed (Some token)) = (MergeUnauthorized, db)
  ∧ ∃ result db',
      POST auth_users db (Some u) (Parsed (Some token)) = (Merged result, db')
      ∧ votes db' = mergedTable token (au_id u) (votes db)
      ∧ moved result + skipped result = N.of_nat (length (guestRows token (votes db)))
      ∧ (length (votes db') + N.to_nat (skipped result) = length (votes db))%nat
      ∧ guestRows token (votes db') = []
      ∧ constraintsHold (votes db').
Proof.
  intros Hwf Huuid Hblank Hauth. unfold MergeRoute.POST. rewrite Huuid.
  split_and!; [done | done | by intros _ other -> | done |].
  unfold merge_guest_votes_to_user.
  rewrite (proj2 (eqb_false (btrim token) [])) by done.
  destruct (mergeLoop_closed auth_users token (au_id u) _ Hauth (votes db) 0 0 Hwf eq_refl)
    as (st & Hloop & Htable & Hm & Hs & Hwf').
  rewrite Hloop. eexists _, _. split; [reflexivity|].
  cbn [votes withVotes moved skipped]. rewrite Hm, Hs, !N.add_0_l.
  split_and!; [done | apply moved_skipped_total | | | done].
  - rewrite Htable. unfold mergedTable, skippedCount. rewrite Nat2N.id.
    apply length_mergedTable.
  - destruct (guestRows token (table st)) as [|x rest] eqn:Hrows; [done|].
    assert (x ∈ guestRows token (table st)) as Hx by (rewrite Hrows; left).
    apply guestRows_spec in Hx as [Hguest Hx].
    destruct (mergeLoop_no_guest auth_users token _ _ _ _ Hloop) with (v := x); [|done..].
    cbn [table]. intros v Hv Hg. apply list_elem_of_fmap_2. by apply guestRows_spec.
Qed.

Lemma userVote_after_merge token user T g :
  g ∈ T → isGuestRow token g →
  ∃ x, x ∈ mergedTable token user T ∧ v_topic_id x = v_topic_id g ∧ v_user_id x = Some user.
Proof.
  intros Hg Hguest. unfold mergedTable.
  destruct (userHasVote user (v_topic_id g) T) eqn:Hhas.
  - apply userHasVote_spec in Hhas as (u0 & Hu0 & Ht & Hu).
    exists u0. split_and!; [|done..]. apply list_elem_of_omap. exists u0. split; [done|].
    unfold mergedRow. rewrite decide_False; [done|]. intros [_ Hnone]. congruence.
  - exists (reassigned user g). split_and!; [|done..]. apply list_elem_of_omap.
    exists g. split; [done|]. unfold mergedRow. by rewrite decide_True, Hhas.
Qed.

(** X22.  A guest votes, the votes of the guest are merged into those of a
    user registered in [auth.users] who is no unlimited voter, and the user
    then submits a vote on the same topic: the submission is answered with
    the conflict (409) and changes nothing; the user has exactly one vote
    on the topic, and the guest token has none. *)
Theorem vote_merge_vote (auth_users : list uuid) (fresh1 fresh2 : Fresh)
    (db db1 db2 : Database) (u : AuthUser) (body1 body2 : VoteBody) (row : VoteRow)
    (token : jsstr) (result : MergeResult) :
  constraintsHold (votes db) →
  Ledger.POST fresh1 db None body1 = (Created row, db1) →
  guestToken body1 = Some token →
  au_id u ∈ auth_users →
  merge_guest_votes_to_user auth_users db1 (Some token) (Some (au_id u))
  = Normal (result, db2) →
  isUnlimitedAdmin (Some u) = false →
  truthy (au_id u) = true →
  validBody body2 = true →
  topicId body2 = topicId body1 →
  registeredOption db1 (topicId body2) (optionKey body2) →
  Ledger.POST fresh2 db2 (Some u) body2 = (Conflict, db2)
  ∧ length (userVotesOn (au_id u) (topicId body1) (votes db2)) = 1%nat
  ∧ guestVotesOn token (topicId body1) (votes db2) = [].
Proof.
  intros Hwf Hpost Htoken Hauth Hmerge Hadmin Hid Hvalid Htopic Hreg.
  apply POST_cases in Hpost
    as [[_ Hno] | (d & dbg & _ & _ & _ & _ & Hgather & Hresp & Hinsert)];
    [by destruct (Hno row)|].
  injection Hresp as ->. change (isUnlimitedAdmin None) with false in *.
  set (row := voteRowOf false fresh1 None body1 d) in *.
  destruct (gatherDemographics_tables _ _ _ _ _ Hgather) as [Hvotes _].
  assert (constraintsHold (votes db1)) as Hwf1.
  { apply (constraintsHold_insert dbg row); [by rewrite Hvotes | done]. }
  apply insertVote_inserted in Hinsert as (Hdb1 & _ & _).
  assert (row ∈ votes db1) as Hrow.
  { rewrite Hdb1. cbn [votes withVotes]. apply elem_of_app. right. left. }
  assert (isGuestRow token row) as Hguest.
  { split; [|done]. cbn [row voteRowOf v_guest_token]. exact Htoken. }
  unfold merge_guest_votes_to_user in Hmerge.
  destruct (eqb (btrim token) []); [done|].
  destruct (mergeLoop_closed auth_users token (au_id u) _ Hauth (votes db1) 0 0 Hwf1 eq_refl)
    as (st & Hloop & Htable & _ & _ & Hwf2).
  rewrite Hloop in Hmerge. injection Hmerge as _ <-.
  cbn [votes withVotes].
  destruct (userVote_after_merge token (au_id u) (votes db1) row Hrow Hguest)
    as (x & Hx & Hxt & Hxu).
  rewrite <- Htable in Hx. cbn [row voteRowOf v_topic_id] in Hxt.
  assert (length (userVotesOn (au_id u) (topicId body1) (table st)) = 1%nat) as Hone.
  { pose proof (userVotesOn_le_1 (au_id u) (topicId body1) (table st) (proj1 Hwf2)) as Hle.
    pose proof (length_filter_pos (fun v => v_topic_id v = topicId body1
                                            ∧ v_user_id v = Some (au_id u))
                  (table st) x Hx (conj Hxt Hxu)) as Hpos.
    unfold userVotesOn in *. lia. }
  split_and!; [|done|].
  - unfold Ledger.POST. rewrite Hvalid. cbn [negb].
    cbn [voterUserIdOf fmap option_fmap option_map truthyOpt]. rewrite Hid. cbn [negb andb].
    cbn [vote_options withVotes].
    destruct Hreg as [o Ho]. rewrite Ho. cbn [maybeSingle].
    unfold preCheck. cbn [voterUserIdOf fmap option_fmap option_map truthyOpt].
    rewrite Hid, Hadmin. cbn [negb andb votes withVotes]. rewrite Htopic.
    unfold userVotesOn in Hone.
    destruct (filter _ (table st)) as [|v [|w l]]; cbn in Hone; try lia. done.
  - unfold guestVotesOn.
    destruct (filter _ (table st)) as [|y rest] eqn:Hy; [done|].
    assert (y ∈ filter (fun v => v_topic_id v = topicId body1 ∧ v_guest_token v = Some token)
                  (table st)) as Hin by (rewrite Hy; left).
    apply list_elem_of_filter in Hin as [[_ Hyg] Hin].
    destruct (mergeLoop_no_guest auth_users token _ _ _ _ Hloop) with (v := y); [|done|].
    + cbn [table]. intros v Hv Hg. apply list_elem_of_fmap_2. by apply guestRows_spec.
    + split; [done|]. apply (identity_guest y token); [|done].
      by apply (proj1 (identity_spec _) (proj2 Hwf2)).
Qed.
End Route.

Lemma merge_route_witness :
  MergeRoute.POST (collaborators := knownSchool) authUsers beforeMerge None
    (Parsed (Some GUEST))
  = (MergeUnauthorized, beforeMerge)
  ∧ ∃ result db',
      MergeRoute.POST (collaborators := knownSchool) authUsers beforeMerge
        (Some mergingUser) (Parsed (Some GUEST)) = (Merged result, db')
      ∧ votes db' = mergedTable GUEST (au_id mergingUser) (votes beforeMerge)
      ∧ moved result + skipped result = N.of_nat (length (guestRows GUEST (votes beforeMerge)))
      ∧ (length (votes db') + N.to_nat (skipped result) = length (votes beforeMerge))%nat
      ∧ guestRows GUEST (votes db') = []
      ∧ constraintsHold (votes db').
Proof.
  destruct (merge_route (collaborators := knownSchool) authUsers beforeMerge mergingUser
              GUEST) as (_ & _ & _ & Hnone & Hsome).
  - split; vm_compute; reflexivity.
  - reflexivity.
  - vm_compute. discriminate.
  - by left.
  - split; [exact Hnone | exact Hsome].
Defined.

Lemma vote_merge_vote_witness :
  Ledger.POST (collaborators := knownSchool) secondFresh mergedLedger (Some mergingUser)
    (guestBody (js "busan"))
  = (Conflict, mergedLedger)
  ∧ length (userVotesOn (au_id mergingUser) (topicId (guestBody (js "seoul")))
              (votes mergedLedger)) = 1%nat
  ∧ guestVotesOn GUEST (topicId (guestBody (js "seoul"))) (votes mergedLedger) = [].
Proof.
  apply (vote_merge_vote (collaborators := knownSchool) authUsers firstFresh secondFresh
           emptyLedger oneVoteLedger mergedLedger mergingUser
           (guestBody (js "seoul")) (guestBody (js "busan")) firstVote GUEST
           {| moved := 1; skipped := 0 |}).
  - split; reflexivity.
  - vm_compute. reflexivity.
  - reflexivity.
  - by left.
  - vm_compute. reflexivity.
  - reflexivity.
  - reflexivity.
  - reflexivity.
  - reflexivity.
  - eexists. vm_compute. reflexivity.
Defined.

End MergeRouteProps.
